(** * EduBridge backend: the AI orchestration and content generation core

    A shallow embedding of the [AIService] class of the EduBridge backend,
    as the multi-provider server file has it (module [AIService]) and as
    the older single-provider [server.js] has it (module [ServerJs]), of
    the input checks of the two processing routes (module [Routes]), and
    of the upload filter, the handlers of the processing routes and the
    error middleware of the multi-provider file (module [Handlers]), and
    of the authentication middleware of the user router (module
    [Router]).

    Conventions of the embedding.
    - A JavaScript string is a [string] whose characters are the code units
      of the text; the embedding covers code units below 256 (ASCII and
      Latin-1), for which [toLowerCase], [trim] and the class [\s] are given
      exactly.
    - A JavaScript value is a [JSValue]; a number is a double given by its
      exact rational value, and [JSON.parse] rounds a literal to the nearest
      double.
    - What JavaScript code can throw is a [JSError]; a synchronous method
      that may throw returns a [Result].
    - Asynchronous methods run in the monad [M] over a [World] that scripts
      what each provider answers and records the fetches and the timer
      waits in the order they happen.  Logging is left out.
    - A method takes the object it is called on as its first argument,
      [this].

    The definitions come first, then the vocabulary of the statements
    (modules [Spec] and [Scenarios]), runs on concrete inputs (module
    [Checks]) and the facts proved, one module for each part of the
    service. *)

From Stdlib Require Import String Ascii List Bool Arith ZArith QArith Lia.
From Stdlib Require Import DecimalString Sorted.
From Equations Require Import Equations.
Import ListNotations.

Set Warnings "-abstract-large-number".
Close Scope Q_scope.
Local Open Scope list_scope.
Local Open Scope string_scope.
Local Open Scope nat_scope.

(** ** JavaScript text primitives *)

Module JS.

(** The code unit of a character. *)
Definition code (c : ascii) : nat := nat_of_ascii c.

(** The double quote and the line feed. *)
Definition dquote : ascii := ascii_of_nat 34.
Definition nl : string := String (ascii_of_nat 10) EmptyString.

(** [s] between double quotes. *)
Definition quoted (s : string) : string :=
  String dquote (s ++ String dquote EmptyString).

(** [\s], also the set stripped by [trim]: TAB, LF, VT, FF, CR, SPACE and
    NO-BREAK SPACE are the members below 256. *)
Definition is_space (c : ascii) : bool :=
  let n := code c in
  ((9 <=? n) && (n <=? 13)) || (n =? 32) || (n =? 160).

(** [[a-z]] *)
Definition is_lower (c : ascii) : bool :=
  let n := code c in (97 <=? n) && (n <=? 122).

(** [[A-Z]] *)
Definition is_upper (c : ascii) : bool :=
  let n := code c in (65 <=? n) && (n <=? 90).

(** [[A-Za-z]] *)
Definition is_letter (c : ascii) : bool := is_lower c || is_upper c.

(** [[.!?]] *)
Definition is_terminal (c : ascii) : bool :=
  let n := code c in (n =? 46) || (n =? 33) || (n =? 63).

(** [String.prototype.toLowerCase] on one code unit: A-Z, and the Latin-1
    capitals U+00C0..U+00DE except the multiplication sign U+00D7. *)
Definition lower_char (c : ascii) : ascii :=
  let n := code c in
  if is_upper c then ascii_of_nat (n + 32)
  else if (192 <=? n) && (n <=? 222) && negb (n =? 215)
       then ascii_of_nat (n + 32)
       else c.

Fixpoint toLowerCase (s : string) : string :=
  match s with
  | EmptyString => EmptyString
  | String c s' => String (lower_char c) (toLowerCase s')
  end.

(** [s.length] *)
Definition len (s : string) : nat := String.length s.

(** [s.substring(0, n)] *)
Fixpoint take (n : nat) (s : string) : string :=
  match n, s with
  | S n', String c s' => String c (take n' s')
  | _, _ => EmptyString
  end.

Fixpoint drop (n : nat) (s : string) : string :=
  match n, s with
  | S n', String _ s' => drop n' s'
  | _, _ => s
  end.

Fixpoint rev_onto (s acc : string) : string :=
  match s with
  | EmptyString => acc
  | String c s' => rev_onto s' (String c acc)
  end.

Definition rev (s : string) : string := rev_onto s EmptyString.

(** Drop the longest prefix whose characters satisfy [p]. *)
Fixpoint drop_while (p : ascii -> bool) (s : string) : string :=
  match s with
  | EmptyString => EmptyString
  | String c s' => if p c then drop_while p s' else s
  end.

Definition trimStart (s : string) : string := drop_while is_space s.
Definition trimEnd (s : string) : string := rev (drop_while is_space (rev s)).

(** [s.trim()] *)
Definition trim (s : string) : string := trimEnd (trimStart s).

(** [s.startsWith(p)] *)
Fixpoint starts_with (p s : string) : bool :=
  match p, s with
  | EmptyString, _ => true
  | String a p', String b s' => Ascii.eqb a b && starts_with p' s'
  | String _ _, EmptyString => false
  end.

(** [s.includes(t)] *)
Fixpoint includes (s t : string) : bool :=
  starts_with t s ||
  match s with
  | EmptyString => false
  | String _ s' => includes s' t
  end.

(** Membership of a character. *)
Fixpoint mem (c : ascii) (s : string) : bool :=
  match s with
  | EmptyString => false
  | String a s' => Ascii.eqb a c || mem c s'
  end.

Definition all_chars (p : ascii -> bool) (s : string) : bool :=
  match drop_while p s with EmptyString => true | _ => false end.

(** [/^[a-z]+$/.test(s)] *)
Definition is_lower_word (s : string) : bool :=
  match s with
  | EmptyString => false
  | _ => all_chars is_lower s
  end.

(** [s.replace(pat, by)] with a string pattern: the first occurrence only. *)
Fixpoint replace_first (pat by_ s : string) : string :=
  if starts_with pat s then by_ ++ drop (len pat) s
  else match s with
       | EmptyString => EmptyString
       | String c s' => String c (replace_first pat by_ s')
       end.

(** [s.replace(/^[^A-Za-z]*/, "")] *)
Definition strip_leading_nonletters (s : string) : string :=
  drop_while (fun c => negb (is_letter c)) s.

(** [s.replace(/<fence>\s*/g, "")] for a non-empty literal [fence]:
    left to right, every occurrence of the literal together with the
    white space that follows it is removed.  [skip] counts the characters
    of a matched literal still to be dropped and [ws] tells that the white
    space after a literal is being dropped. *)
Fixpoint remove_fence_from (fence : string) (skip : nat) (ws : bool)
    (s : string) : string :=
  match s with
  | EmptyString => EmptyString
  | String c s' =>
      match skip with
      | S k => remove_fence_from fence k true s'
      | O =>
          if ws && is_space c then remove_fence_from fence 0 true s'
          else if starts_with fence s
               then remove_fence_from fence (len fence - 1) true s'
               else String c (remove_fence_from fence 0 false s')
      end
  end.

Definition remove_fence (fence s : string) : string :=
  remove_fence_from fence 0 false s.

(** The tail of [s] from its first character equal to [c], that character
    included. *)
Fixpoint from_first (c : ascii) (s : string) : option string :=
  match s with
  | EmptyString => None
  | String a s' => if Ascii.eqb a c then Some s else from_first c s'
  end.

(** The head of [s] up to its last character equal to [c], that character
    included. *)
Fixpoint upto_last (c : ascii) (s : string) : option string :=
  match s with
  | EmptyString => None
  | String a s' =>
      match upto_last c s' with
      | Some t => Some (String a t)
      | None => if Ascii.eqb a c then Some (String a EmptyString) else None
      end
  end.

(** [s.match(/\[[\s\S]*\]/)]: the regular expression is tried at each start
    from the left, and its greedy middle runs to the last closing bracket;
    a later opening bracket can match only if the first one does.  So the
    match, when there is one, goes from the first ["["] to the last ["]"]
    after it. *)
Definition match_bracketed (s : string) : option string :=
  match from_first "["%char s with
  | None => None
  | Some t => upto_last "]"%char t
  end.

(** [s.split(/\s+/)]: [cur] holds the piece being read, reversed; [ws]
    tells that the previous character was white space. *)
Fixpoint split_ws_from (cur : string) (ws : bool) (s : string)
    : list string :=
  match s with
  | EmptyString => [rev cur]
  | String c s' =>
      if is_space c
      then if ws then split_ws_from cur true s'
           else rev cur :: split_ws_from EmptyString true s'
      else split_ws_from (String c cur) false s'
  end.

Definition split_ws (s : string) : list string :=
  split_ws_from EmptyString false s.

(** [s.match(/[^.!?]+[.!?]+/g) || []].  A match is a longest run of
    characters outside [.!?] followed by a longest run of characters inside
    it; a run that reaches the end of the text with no terminal character
    gives no match.  [body] is the run read so far and [tail] the terminal
    characters read after it, both reversed. *)
Fixpoint sentences_from (body tail : string) (s : string) : list string :=
  match s with
  | EmptyString =>
      match body, tail with
      | String _ _, String _ _ => [rev body ++ rev tail]
      | _, _ => []
      end
  | String c s' =>
      if is_terminal c
      then match body with
           | EmptyString => sentences_from EmptyString EmptyString s'
           | _ => sentences_from body (String c tail) s'
           end
      else match tail with
           | EmptyString => sentences_from (String c body) EmptyString s'
           | _ => (rev body ++ rev tail)
                    :: sentences_from (String c EmptyString) EmptyString s'
           end
  end.

Definition match_sentences (s : string) : list string :=
  sentences_from EmptyString EmptyString s.

(** [xs.join(sep)] *)
Fixpoint join (sep : string) (xs : list string) : string :=
  match xs with
  | [] => EmptyString
  | [x] => x
  | x :: rest => x ++ sep ++ join sep rest
  end.

(** [[...new Set(xs)]]: the distinct members in the order first seen. *)
Fixpoint dedupe_from (seen : list string) (xs : list string) : list string :=
  match xs with
  | [] => []
  | x :: rest =>
      if existsb (String.eqb x) seen then dedupe_from seen rest
      else x :: dedupe_from (x :: seen) rest
  end.

Definition dedupe (xs : list string) : list string := dedupe_from [] xs.

(** The decimal text of a length, as a template literal prints it. *)
Definition show_nat (n : nat) : string :=
  NilZero.string_of_uint (Nat.to_uint n).

End JS.

(** ** JavaScript values *)

(** A JavaScript number as far as [JSON.parse] can produce one: a finite
    double, given by its exact rational value, or an infinity (a literal too
    large for a double).  Minus zero is identified with zero: no test made
    by the service tells them apart. *)
Inductive JSNumber :=
| Finite (q : Q)
| Infinity (negative : bool).

#[warnings="-register-all"]
Inductive JSValue :=
| JUndefined
| JNull
| JBool (b : bool)
| JNum (n : JSNumber)
| JStr (s : string)
| JArr (items : list JSValue)
| JObj (fields : list (string * JSValue)).

Inductive Provider := Gemini | Groq | Cohere.

(** What JavaScript code of the service can throw. *)
Inductive JSError :=
| TypeError (msg : string)
| SyntaxError                       (* thrown by [JSON.parse] *)
| Error (msg : string)
| ApiError (p : Provider) (detail : JSValue)
    (* [new Error(`<p> API error: ${detail}`)] *)
| FetchFailed                       (* [fetch] rejected *)
| BodyNotJson                       (* [response.json()] rejected *)
| OutsideModel.
    (* the run leaves the fragment covered: a JSON string escape that
       denotes a code unit of 256 or more *)

Inductive Result (A : Type) :=
| Ok (a : A)
| Throw (e : JSError).
Arguments Ok {A} a.
Arguments Throw {A} e.

Definition rbind {A B} (r : Result A) (k : A -> Result B) : Result B :=
  match r with
  | Ok a => k a
  | Throw e => Throw e
  end.

Notation "x <-? r ;; k" := (rbind r (fun x => k))
  (at level 61, r at next level, right associativity).

Module Val.

Definition num_is_zero (n : JSNumber) : bool :=
  match n with
  | Finite q => Qeq_bool q 0
  | Infinity _ => false
  end.

(** [x >= 0] *)
Definition num_ge0 (n : JSNumber) : bool :=
  match n with
  | Finite q => Qle_bool 0 q
  | Infinity negative => negb negative
  end.

(** [x < 4] *)
Definition num_lt4 (n : JSNumber) : bool :=
  match n with
  | Finite q => negb (Qle_bool 4 q)
  | Infinity negative => negative
  end.

(** [ToBoolean] *)
Definition truthy (v : JSValue) : bool :=
  match v with
  | JUndefined | JNull => false
  | JBool b => b
  | JNum n => negb (num_is_zero n)
  | JStr s => negb (String.eqb s "")
  | JArr _ | JObj _ => true
  end.

(** [Array.isArray] *)
Definition isArray (v : JSValue) : bool :=
  match v with JArr _ => true | _ => false end.

(** [typeof v === "number"] *)
Definition is_number (v : JSValue) : bool :=
  match v with JNum _ => true | _ => false end.

(** [typeof v === "string"] *)
Definition is_string (v : JSValue) : bool :=
  match v with JStr _ => true | _ => false end.

(** The value of the last binding of [key]: when a JSON object repeats a
    key, [JSON.parse] keeps the last value. *)
Fixpoint lookup (key : string) (fields : list (string * JSValue))
    : option JSValue :=
  match fields with
  | [] => None
  | (k, v) :: rest =>
      match lookup key rest with
      | Some v' => Some v'
      | None => if String.eqb k key then Some v else None
      end
  end.

(** [v.key] for the property names the service reads ([candidates],
    [content], [parts], [text], [choices], [message], [generations],
    [error], [question], [options], [correctIndex], [front], [back]): none
    of them is a member of a prototype, so only an object can have one.
    Reading a property of [undefined] or [null] throws. *)
Definition get (v : JSValue) (key : string) : Result JSValue :=
  match v with
  | JUndefined | JNull =>
      Throw (TypeError "Cannot read properties of undefined or null")
  | JObj fields =>
      match lookup key fields with
      | Some x => Ok x
      | None => Ok JUndefined
      end
  | _ => Ok JUndefined
  end.

(** [v[0]]: the first item of an array, the first character of a string,
    the property ["0"] of an object. *)
Definition get0 (v : JSValue) : Result JSValue :=
  match v with
  | JUndefined | JNull =>
      Throw (TypeError "Cannot read properties of undefined or null")
  | JArr (x :: _) => Ok x
  | JStr (String c _) => Ok (JStr (String c EmptyString))
  | JObj fields =>
      match lookup "0" fields with
      | Some x => Ok x
      | None => Ok JUndefined
      end
  | _ => Ok JUndefined
  end.

(** [v?.key] and [v?.[0]]: [undefined] when [v] is [undefined] or [null]. *)
Definition get_opt (v : JSValue) (key : string) : JSValue :=
  match get v key with Ok x => x | Throw _ => JUndefined end.

Definition get0_opt (v : JSValue) : JSValue :=
  match get0 v with Ok x => x | Throw _ => JUndefined end.

End Val.

(** ** [JSON.parse] *)

Module Json.

(** The outcome of reading a piece of JSON text: the value read with the
    text left, a syntax error, a string escape beyond the fragment covered,
    or the fuel of the recursion used up (which [parse] never lets happen,
    see [parse_value_fuel]). *)
Inductive Parsed (A : Type) :=
| POk (a : A) (rest : string)
| PSyntax
| PBeyond
| PFuel.
Arguments POk {A} a rest.
Arguments PSyntax {A}.
Arguments PBeyond {A}.
Arguments PFuel {A}.

(** JSON white space: TAB, LF, CR and SPACE. *)
Definition is_ws (c : ascii) : bool :=
  let n := JS.code c in (n =? 9) || (n =? 10) || (n =? 13) || (n =? 32).

Definition skip_ws (s : string) : string := JS.drop_while is_ws s.

Definition is_digit (c : ascii) : bool :=
  let n := JS.code c in (48 <=? n) && (n <=? 57).

Definition digit_val (c : ascii) : Z := Z.of_nat (JS.code c - 48).

Definition hex_val (c : ascii) : option nat :=
  let n := JS.code c in
  if is_digit c then Some (n - 48)
  else if (97 <=? n) && (n <=? 102) then Some (n - 87)
  else if (65 <=? n) && (n <=? 70) then Some (n - 55)
  else None.

(** *** Numbers *)

(** Read a run of digits: the number they spell after [acc], how many were
    read, and the text left. *)
Fixpoint read_digits (acc : Z) (cnt : nat) (s : string) : Z * nat * string :=
  match s with
  | String c s' =>
      if is_digit c then read_digits (10 * acc + digit_val c)%Z (S cnt) s'
      else (acc, cnt, s)
  | EmptyString => (acc, cnt, s)
  end.

(** [n / d] rounded to the nearest integer, a tie to the even one
    ([0 <= n], [0 < d]). *)
Definition round_half_even (n d : Z) : Z :=
  let q := (n / d)%Z in
  match (2 * (n mod d) ?= d)%Z with
  | Lt => q
  | Gt => (q + 1)%Z
  | Eq => if Z.even q then q else (q + 1)%Z
  end.

(** The double nearest to the positive rational [n / d]: 53 significant
    bits, exponents from -1074, ties to even, overflow to infinity. *)
Definition nearest_double (n d : Z) : JSNumber :=
  let e0 := (Z.log2 n - Z.log2 d)%Z in
  let below :=           (* n / d < 2 ^ e0 *)
    if (0 <=? e0)%Z then (n <? d * 2 ^ e0)%Z else (n * 2 ^ (- e0) <? d)%Z in
  let e := if below then (e0 - 1)%Z else e0 in
  let ex := Z.max (e - 52) (-1074) in
  let m :=
    if (0 <=? ex)%Z then round_half_even n (d * 2 ^ ex)
    else round_half_even (n * 2 ^ (- ex)) d in
  if (0 <=? ex)%Z
  then if (2 ^ 1024 <=? m * 2 ^ ex)%Z then Infinity false
       else Finite (inject_Z (m * 2 ^ ex))
  else Finite (Qred (Qmake m (Z.to_pos (2 ^ (- ex))))).

(** The number denoted by the literal with the given sign, the digits
    [mant] of its integer and fraction parts, [fdigits] fraction digits and
    the exponent [exp]. *)
Definition number_of_literal (neg : bool) (mant : Z) (fdigits : nat)
    (exp : Z) : JSNumber :=
  if (mant =? 0)%Z then Finite 0
  else
    let e := (exp - Z.of_nat fdigits)%Z in
    let r := if (0 <=? e)%Z then nearest_double (mant * 10 ^ e) 1
             else nearest_double mant (10 ^ (- e)) in
    match r with
    | Finite q => Finite (if neg then Qopp q else q)
    | Infinity _ => Infinity neg
    end.

(** The exponent part, if any: [e] or [E], an optional sign, digits. *)
Definition read_exponent (s : string) : Parsed Z :=
  match s with
  | String c s' =>
      if Ascii.eqb c "e" || Ascii.eqb c "E"
      then
        let '(neg, s'') :=
          match s' with
          | String d t =>
              if Ascii.eqb d "-" then (true, t)
              else if Ascii.eqb d "+" then (false, t)
              else (false, s')
          | EmptyString => (false, s')
          end in
        match read_digits 0 0 s'' with
        | (_, O, _) => PSyntax
        | (v, S _, rest) => POk (if neg then (- v)%Z else v) rest
        end
      else POk 0%Z s
  | EmptyString => POk 0%Z s
  end.

(** The fraction part, if any: a point and at least one digit, read after
    the integer part [int]. *)
Definition read_fraction (int : Z) (s : string) : Parsed (Z * nat) :=
  match s with
  | String c s' =>
      if Ascii.eqb c "."
      then match read_digits int 0 s' with
           | (_, O, _) => PSyntax
           | (v, S k, rest) => POk (v, S k) rest
           end
      else POk (int, 0) s
  | EmptyString => POk (int, 0) s
  end.

(** The integer part, from its first digit [c]: [0] alone, or a digit run
    that does not start with [0]. *)
Definition read_integer (c : ascii) (t : string) : Z * string :=
  if Ascii.eqb c "0" then (0%Z, t)
  else let '(v, _, r) := read_digits (digit_val c) 1 t in (v, r).

(** A number after its sign: integer part, fraction, exponent. *)
Definition parse_unsigned (neg : bool) (s : string) : Parsed JSNumber :=
  match s with
  | String c t =>
      if is_digit c
      then
        let '(int, s2) := read_integer c t in
        match read_fraction int s2 with
        | POk (mant, fd) s3 =>
            match read_exponent s3 with
            | POk e s4 => POk (number_of_literal neg mant fd e) s4
            | PSyntax => PSyntax
            | PBeyond => PBeyond
            | PFuel => PFuel
            end
        | PSyntax => PSyntax
        | PBeyond => PBeyond
        | PFuel => PFuel
        end
      else PSyntax
  | EmptyString => PSyntax
  end.

(** A number: an optional minus, then the rest. *)
Definition parse_number (s : string) : Parsed JSNumber :=
  match s with
  | String c t =>
      if Ascii.eqb c "-" then parse_unsigned true t
      else parse_unsigned false s
  | EmptyString => PSyntax
  end.

(** *** Strings *)

(** The body of a string after its opening quote, up to the closing quote;
    [acc] is what was read, reversed. *)
Fixpoint parse_string_body (acc : string) (s : string) : Parsed string :=
  match s with
  | EmptyString => PSyntax
  | String c s' =>
      if Ascii.eqb c JS.dquote then POk (JS.rev acc) s'
      else if Ascii.eqb c "\" then
        match s' with
        | EmptyString => PSyntax
        | String e s'' =>
            let simple (x : ascii) := parse_string_body (String x acc) s'' in
            if Ascii.eqb e JS.dquote then simple JS.dquote
            else if Ascii.eqb e "\" then simple "\"%char
            else if Ascii.eqb e "/" then simple "/"%char
            else if Ascii.eqb e "b" then simple (ascii_of_nat 8)
            else if Ascii.eqb e "f" then simple (ascii_of_nat 12)
            else if Ascii.eqb e "n" then simple (ascii_of_nat 10)
            else if Ascii.eqb e "r" then simple (ascii_of_nat 13)
            else if Ascii.eqb e "t" then simple (ascii_of_nat 9)
            else if Ascii.eqb e "u" then
              match s'' with
              | String h1 (String h2 (String h3 (String h4 s5))) =>
                  match hex_val h1, hex_val h2, hex_val h3, hex_val h4 with
                  | Some a, Some b, Some c', Some d =>
                      let u := ((a * 16 + b) * 16 + c') * 16 + d in
                      if u <? 256
                      then parse_string_body (String (ascii_of_nat u) acc) s5
                      else PBeyond
                  | _, _, _, _ => PSyntax
                  end
              | _ => PSyntax
              end
            else PSyntax
        end
      else if JS.code c <? 32 then PSyntax
      else parse_string_body (String c acc) s'
  end.

(** *** Values *)

Definition literal (word : string) (v : JSValue) (s : string)
    : Parsed JSValue :=
  if JS.starts_with word s then POk v (JS.drop (JS.len word) s) else PSyntax.

Fixpoint parse_value (fuel : nat) (s : string) : Parsed JSValue :=
  match fuel with
  | O => PFuel
  | S f =>
      match skip_ws s with
      | EmptyString => PSyntax
      | String c rest =>
          if Ascii.eqb c "[" then
            match skip_ws rest with
            | String c' rest' =>
                if Ascii.eqb c' "]" then POk (JArr []) rest'
                else parse_elements f [] rest
            | EmptyString => PSyntax
            end
          else if Ascii.eqb c "{" then
            match skip_ws rest with
            | String c' rest' =>
                if Ascii.eqb c' "}" then POk (JObj []) rest'
                else parse_members f [] rest
            | EmptyString => PSyntax
            end
          else if Ascii.eqb c JS.dquote then
            match parse_string_body EmptyString rest with
            | POk str r => POk (JStr str) r
            | PSyntax => PSyntax
            | PBeyond => PBeyond
            | PFuel => PFuel
            end
          else if Ascii.eqb c "-" || is_digit c then
            match parse_number (String c rest) with
            | POk n r => POk (JNum n) r
            | PSyntax => PSyntax
            | PBeyond => PBeyond
            | PFuel => PFuel
            end
          else if Ascii.eqb c "t" then literal "true" (JBool true) (String c rest)
          else if Ascii.eqb c "f" then literal "false" (JBool false) (String c rest)
          else if Ascii.eqb c "n" then literal "null" JNull (String c rest)
          else PSyntax
      end
  end

(** The items of an array after its opening bracket, [acc] being the items
    read so far. *)
with parse_elements (fuel : nat) (acc : list JSValue) (s : string)
    : Parsed JSValue :=
  match fuel with
  | O => PFuel
  | S f =>
      match parse_value f s with
      | POk v r =>
          match skip_ws r with
          | String c r' =>
              if Ascii.eqb c "," then parse_elements f (acc ++ [v])%list r'
              else if Ascii.eqb c "]" then POk (JArr (acc ++ [v])%list) r'
              else PSyntax
          | EmptyString => PSyntax
          end
      | PSyntax => PSyntax
      | PBeyond => PBeyond
      | PFuel => PFuel
      end
  end

(** The members of an object after its opening brace. *)
with parse_members (fuel : nat) (acc : list (string * JSValue)) (s : string)
    : Parsed JSValue :=
  match fuel with
  | O => PFuel
  | S f =>
      match skip_ws s with
      | String q r0 =>
          if Ascii.eqb q JS.dquote then
            match parse_string_body EmptyString r0 with
            | POk key r1 =>
                match skip_ws r1 with
                | String colon r2 =>
                    if Ascii.eqb colon ":" then
                      match parse_value f r2 with
                      | POk v r3 =>
                          match skip_ws r3 with
                          | String c r4 =>
                              if Ascii.eqb c ","
                              then parse_members f (acc ++ [(key, v)])%list r4
                              else if Ascii.eqb c "}"
                              then POk (JObj (acc ++ [(key, v)])%list) r4
                              else PSyntax
                          | EmptyString => PSyntax
                          end
                      | PSyntax => PSyntax
                      | PBeyond => PBeyond
                      | PFuel => PFuel
                      end
                    else PSyntax
                | EmptyString => PSyntax
                end
            | PSyntax => PSyntax
            | PBeyond => PBeyond
            | PFuel => PFuel
            end
          else PSyntax
      | EmptyString => PSyntax
      end
  end.

(** [JSON.parse(s)]: one value, then nothing but white space. *)
Definition parse (s : string) : Result JSValue :=
  match parse_value (2 * JS.len s + 1) s with
  | POk v rest =>
      match skip_ws rest with
      | EmptyString => Ok v
      | String _ _ => Throw SyntaxError
      end
  | PSyntax => Throw SyntaxError
  | PBeyond => Throw OutsideModel
  | PFuel => Throw OutsideModel
  end.

End Json.

(** ** The world of an asynchronous method *)

(** An HTTP response as the service reads it: [status], [statusText] and
    the body as [response.json()] gives it ([None] when the body is not
    JSON, so that [response.json()] rejects). *)
Record Response := {
  status : nat;
  statusText : string;
  body : option JSValue
}.

(** [response.ok] *)
Definition ok (r : Response) : bool := (200 <=? status r) && (status r <=? 299).

(** What one [fetch] comes to: the promise rejects, or a response arrives. *)
Inductive FetchOutcome :=
| Rejected
| Answered (r : Response).

(** What the outside can see of a run, in order: the calls of the providers
    (with the prompt sent) and the timer waits (in milliseconds). *)
Inductive Event :=
| EvFetch (p : Provider) (prompt : string)
| EvSleep (ms : nat).

(** The world: for each provider the outcomes of its coming calls (a call
    made when none is left is rejected), and the events so far. *)
Record World := {
  gemini_script : list FetchOutcome;
  groq_script : list FetchOutcome;
  cohere_script : list FetchOutcome;
  trace : list Event
}.

Definition script (w : World) (p : Provider) : list FetchOutcome :=
  match p with
  | Gemini => gemini_script w
  | Groq => groq_script w
  | Cohere => cohere_script w
  end.

Definition set_script (w : World) (p : Provider) (l : list FetchOutcome)
    : World :=
  match p with
  | Gemini => {| gemini_script := l; groq_script := groq_script w;
                 cohere_script := cohere_script w; trace := trace w |}
  | Groq => {| gemini_script := gemini_script w; groq_script := l;
               cohere_script := cohere_script w; trace := trace w |}
  | Cohere => {| gemini_script := gemini_script w; groq_script := groq_script w;
                 cohere_script := l; trace := trace w |}
  end.

Definition emit (w : World) (e : Event) : World :=
  {| gemini_script := gemini_script w; groq_script := groq_script w;
     cohere_script := cohere_script w; trace := (trace w ++ [e])%list |}.

(** An asynchronous computation: from a world, a value or a thrown error
    (a rejected promise), and the world after. *)
Definition M (A : Type) : Type := World -> Result A * World.

Definition ret {A} (a : A) : M A := fun w => (Ok a, w).
Definition throw {A} (e : JSError) : M A := fun w => (Throw e, w).
Definition lift {A} (r : Result A) : M A := fun w => (r, w).

Definition bind {A B} (m : M A) (k : A -> M B) : M B :=
  fun w =>
    match m w with
    | (Ok a, w') => k a w'
    | (Throw e, w') => (Throw e, w')
    end.

(** [try { m } catch (error) { h error }] *)
Definition try_catch {A} (m : M A) (h : JSError -> M A) : M A :=
  fun w =>
    match m w with
    | (Ok a, w') => (Ok a, w')
    | (Throw e, w') => h e w'
    end.

Notation "x <- m ;; k" := (bind m (fun x => k))
  (at level 61, m at next level, right associativity).
Notation "m ;;; k" := (bind m (fun _ => k))
  (at level 61, right associativity).

(** [await fetch(...)] of a provider: the call is recorded and the next
    outcome of the provider's script is used up. *)
Definition fetch (p : Provider) (prompt : string) : M Response :=
  fun w =>
    let w1 := set_script (emit w (EvFetch p prompt)) p (tl (script w p)) in
    match script w p with
    | Answered r :: _ => (Ok r, w1)
    | _ => (Throw FetchFailed, w1)
    end.

(** [await new Promise((resolve) => setTimeout(resolve, ms))] *)
Definition sleep (ms : nat) : M unit :=
  fun w => (Ok tt, emit w (EvSleep ms)).

(** [response.json()] *)
Definition json (r : Response) : Result JSValue :=
  match body r with
  | Some v => Ok v
  | None => Throw BodyNotJson
  end.

(** [response.json().catch(() => ({}))] *)
Definition json_or_empty (r : Response) : JSValue :=
  match body r with
  | Some v => v
  | None => JObj []
  end.

(** The events a computation adds to the trace of a world. *)
Definition events {A} (m : M A) (w : World) : list Event :=
  skipn (length (trace w)) (trace (snd (m w))).

Definition result {A} (m : M A) (w : World) : Result A := fst (m w).

(** ** The service of the multi-provider server file *)

Module AIService.

(** The environment variables the constructor reads. *)
Record Env := {
  GOOGLE_API_KEY : option string;
  GROQ_API_KEY : option string;
  COHERE_API_KEY : option string
}.

Record AIService := {
  googleApiKey : option string;
  groqApiKey : option string;
  cohereApiKey : option string;
  geminiUrl : string;
  requestDelay : nat;
  groqUrl : string;
  cohereUrl : string
}.

Definition constructor (env : Env) : AIService := {|
  googleApiKey := GOOGLE_API_KEY env;
  groqApiKey := GROQ_API_KEY env;
  cohereApiKey := COHERE_API_KEY env;
  geminiUrl := "https://generativelanguage.googleapis.com/v1beta/models/gemini-2.5-flash-lite:generateContent";
  requestDelay := 2000;
  groqUrl := "https://api.groq.com/openai/v1/chat/completions";
  cohereUrl := "https://api.cohere.ai/v1/generate"
|}.

(** [if (key)]: the variable is set and not empty. *)
Definition configured (key : option string) : bool :=
  match key with
  | Some k => negb (String.eqb k "")
  | None => false
  end.

(** [a || b] on values. *)
Definition or_else (a b : JSValue) : JSValue :=
  if Val.truthy a then a else b.

(** What is thrown for a response that is not [ok], by the Gemini and Groq
    clients:
    [new Error(`... API error: ${errorData.error?.message || response.statusText}`)]
    with [errorData = await response.json().catch(() => ({}))]. *)
Definition api_error (p : Provider) (response : Response) : Result JSValue :=
  let errorData := json_or_empty response in
  err <-? Val.get errorData "error";;
  Throw (ApiError p
           (or_else (Val.get_opt err "message") (JStr (statusText response)))).

(** The same for the Cohere client, which reads [errorData.message]. *)
Definition cohere_error (response : Response) : Result JSValue :=
  let errorData := json_or_empty response in
  message <-? Val.get errorData "message";;
  Throw (ApiError Cohere (or_else message (JStr (statusText response)))).

(** The text in a Gemini answer:
    [data.candidates?.[0]?.content?.parts?.[0]?.text], refused with
    [invalid] when it is missing or empty. *)
Definition gemini_text (invalid : string) (response : Response)
    : Result JSValue :=
  data <-? json response;;
  candidates <-? Val.get data "candidates";;
  let text :=
    Val.get_opt (Val.get0_opt (Val.get_opt (Val.get_opt
      (Val.get0_opt candidates) "content") "parts")) "text" in
  if negb (Val.truthy text) then Throw (Error invalid) else Ok text.

(** The text in a Groq answer: [data.choices[0].message.content]. *)
Definition groq_text (response : Response) : Result JSValue :=
  data <-? json response;;
  choices <-? Val.get data "choices";;
  first <-? Val.get0 choices;;
  message <-? Val.get first "message";;
  Val.get message "content".

(** The text in a Cohere answer: [data.generations[0].text]. *)
Definition cohere_text (response : Response) : Result JSValue :=
  data <-? json response;;
  generations <-? Val.get data "generations";;
  first <-? Val.get0 generations;;
  Val.get first "text".

(** [makeGeminiRequest(prompt, retryCount)]; the world is written as an
    argument because the recursion is on [2 - retryCount]. *)
Equations? makeGeminiRequest (this : AIService) (prompt : string)
    (retryCount : nat) (w : World) : Result JSValue * World
    by wf (2 - retryCount) lt :=
  makeGeminiRequest this prompt retryCount w :=
    (if negb (configured (googleApiKey this))
     then throw (Error "Google API key not configured")
     else
       response <- fetch Gemini prompt;;
       if negb (ok response) then
         match Nat.eq_dec (status response) 429, lt_dec retryCount 2 with
         | left _, left _ =>
             sleep (requestDelay this * (retryCount + 1));;;
             (fun w' => makeGeminiRequest this prompt (retryCount + 1) w')
         | _, _ => lift (api_error Gemini response)
         end
       else lift (gemini_text "Invalid Gemini API response" response)) w.
Proof. destruct retryCount as [|[|n]]; simpl; lia. Qed.

(** [makeGroqRequest(prompt)] *)
Definition makeGroqRequest (this : AIService) (prompt : string) : M JSValue :=
  if negb (configured (groqApiKey this))
  then throw (Error "Groq API key not configured")
  else
    response <- fetch Groq prompt;;
    if negb (ok response) then lift (api_error Groq response)
    else lift (groq_text response).

(** [makeCohereRequest(prompt)] *)
Definition makeCohereRequest (this : AIService) (prompt : string)
    : M JSValue :=
  if negb (configured (cohereApiKey this))
  then throw (Error "Cohere API key not configured")
  else
    response <- fetch Cohere prompt;;
    if negb (ok response) then lift (cohere_error response)
    else lift (cohere_text response).

(** One [try { if (key) { return await call } } catch (error) { log }]
    block of [makeRequest]: [Some v] when the block returns [v] from the
    method, [None] when control falls through to the code after it (the
    key is not set, or the call threw and the [catch] logged it). *)
Definition try_provider (key : option string) (call : M JSValue)
    : M (option JSValue) :=
  try_catch
    (if configured key
     then (v <- call;; ret (Some v))
     else ret None)
    (fun _ => ret None).

(** [makeRequest(prompt, retryCount = 0)] *)
Definition makeRequest (this : AIService) (prompt : string)
    (retryCount : nat) : M JSValue :=
  gemini <- try_provider (googleApiKey this)
              (makeGeminiRequest this prompt retryCount);;
  match gemini with
  | Some v => ret v
  | None =>
      groq <- try_provider (groqApiKey this) (makeGroqRequest this prompt);;
      match groq with
      | Some v => ret v
      | None =>
          cohere <- try_provider (cohereApiKey this)
                      (makeCohereRequest this prompt);;
          match cohere with
          | Some v => ret v
          | None => throw (Error "All AI services failed")
          end
      end
  end.

(** *** The response parsers *)

(** [xs.filter(p)] for a predicate that may throw: the first throw ends
    the filtering. *)
Fixpoint filterR {A} (p : A -> Result bool) (xs : list A) : Result (list A) :=
  match xs with
  | [] => Ok []
  | x :: rest =>
      keep <-? p x;;
      kept <-? filterR p rest;;
      Ok (if keep then x :: kept else kept)
  end.

(** [response.trim()] on what a provider call returned: only a string has
    the method. *)
Definition trim_value (response : JSValue) : Result string :=
  match response with
  | JStr s => Ok (JS.trim s)
  | JUndefined | JNull =>
      Throw (TypeError "Cannot read properties of undefined or null")
  | _ => Throw (TypeError "response.trim is not a function")
  end.

(** [s.replace(/```json\s*/g, "").replace(/```\s*/g, "")] *)
Definition strip_fences (s : string) : string :=
  JS.remove_fence "```" (JS.remove_fence "```json" s).

(** The cleaning both parsers start with: trim, drop the code fences, and
    keep the bracketed part when there is one. *)
Definition clean_response (response : JSValue) : Result string :=
  trimmed <-? trim_value response;;
  let cleanResponse := strip_fences trimmed in
  Ok (match JS.match_bracketed cleanResponse with
      | Some jsonMatch => jsonMatch
      | None => cleanResponse
      end).

Definition array_length_is (v : JSValue) (n : nat) : bool :=
  match v with
  | JArr items => length items =? n
  | _ => false
  end.

Definition number_in_0_4 (v : JSValue) : bool :=
  match v with
  | JNum n => Val.num_ge0 n && Val.num_lt4 n
  | _ => false
  end.

(** The filter of [parseQuizResponse]:
    [q.question && q.options && Array.isArray(q.options) &&
     q.options.length === 4 && typeof q.correctIndex === "number" &&
     q.correctIndex >= 0 && q.correctIndex < 4]. *)
Definition valid_question (q : JSValue) : Result bool :=
  question <-? Val.get q "question";;
  if negb (Val.truthy question) then Ok false else
  options <-? Val.get q "options";;
  if negb (Val.truthy options) then Ok false else
  if negb (Val.isArray options) then Ok false else
  if negb (array_length_is options 4) then Ok false else
  correctIndex <-? Val.get q "correctIndex";;
  Ok (Val.is_number correctIndex && number_in_0_4 correctIndex).

(** The filter of [parseFlashcardResponse]:
    [card.front && card.back && typeof card.front === "string" &&
     typeof card.back === "string"]. *)
Definition valid_card (card : JSValue) : Result bool :=
  front <-? Val.get card "front";;
  if negb (Val.truthy front) then Ok false else
  back <-? Val.get card "back";;
  if negb (Val.truthy back) then Ok false else
  Ok (Val.is_string front && Val.is_string back).

(** What [parseQuizResponse] does with the parsed value. *)
Definition questions_of_parsed (parsed : JSValue) : Result (list JSValue) :=
  match parsed with
  | JArr items =>
      validQuestions <-? filterR valid_question items;;
      if 0 <? length validQuestions
      then Ok (firstn 4 validQuestions)
      else Throw (Error "No valid questions found")
  | _ => Throw (Error "No valid questions found")
  end.

(** [parseQuizResponse(response)]; its [catch] logs and throws again. *)
Definition parseQuizResponse (this : AIService) (response : JSValue)
    : Result (list JSValue) :=
  cleanResponse <-? clean_response response;;
  parsed <-? Json.parse cleanResponse;;
  questions_of_parsed parsed.

(** What [parseFlashcardResponse] does with the parsed value. *)
Definition cards_of_parsed (parsed : JSValue) : Result (list JSValue) :=
  match parsed with
  | JArr items =>
      validCards <-? filterR valid_card items;;
      if 0 <? length validCards
      then Ok (firstn 5 validCards)
      else Throw (Error "No valid flashcards found")
  | _ => Throw (Error "No valid flashcards found")
  end.

(** [parseFlashcardResponse(response)] *)
Definition parseFlashcardResponse (this : AIService) (response : JSValue)
    : Result (list JSValue) :=
  cleanResponse <-? clean_response response;;
  parsed <-? Json.parse cleanResponse;;
  cards_of_parsed parsed.

(** *** The heuristic fallback generators *)

Record QuizQuestion := {
  question : string;
  options : list string;
  correctIndex : nat;
  explanation : string
}.

Record Flashcard := {
  front : string;
  back : string
}.

(** The object literals as JavaScript values. *)
Definition question_object (q : QuizQuestion) : JSValue :=
  JObj [("question", JStr (question q));
        ("options", JArr (map JStr (options q)));
        ("correctIndex", JNum (Finite (inject_Z (Z.of_nat (correctIndex q)))));
        ("explanation", JStr (explanation q))].

Definition card_object (c : Flashcard) : JSValue :=
  JObj [("front", JStr (front c)); ("back", JStr (back c))].

(** The set [commonWords] of [generateFallbackQuiz] and
    [generateFallbackFlashcards], and the larger one of
    [generateFallbackSummary]. *)
Definition commonWords : list string :=
  ["the"; "and"; "or"; "but"; "in"; "on"; "at"; "to"; "for"; "of"; "with";
   "by"].

Definition commonWords_summary : list string :=
  ["the"; "and"; "or"; "but"; "in"; "on"; "at"; "to"; "for"; "of"; "with";
   "by"; "is"; "are"; "was"; "were"; "be"; "been"; "have"; "has"; "had"].

(** [word.length > 4 && !commonWords.has(word) && /^[a-z]+$/.test(word)] *)
Definition is_key_term (commonWords : list string) (word : string) : bool :=
  (4 <? JS.len word)
  && negb (existsb (String.eqb word) commonWords)
  && JS.is_lower_word word.

(** [[...new Set(words.filter(...))]] with
    [words = text.toLowerCase().split(/\s+/)]: the key terms of a text, in
    the order first seen, before the method's [slice]. *)
Definition key_terms (commonWords : list string) (text : string)
    : list string :=
  let words := JS.split_ws (JS.toLowerCase text) in
  JS.dedupe (filter (is_key_term commonWords) words).

(** The three questions [generateFallbackQuiz] always emits. *)
Definition topic_question : QuizQuestion := {|
  question := "What is the main topic discussed in this text?";
  options := [
    "The primary concepts explained in the content";
    "Unrelated background information";
    "Only historical context";
    "General introductory material"];
  correctIndex := 0;
  explanation := "The text primarily focuses on explaining the main concepts and key information about the topic."
|}.

Definition organization_question : QuizQuestion := {|
  question := "How is the information in this text organized?";
  options := [
    "As a random collection of facts";
    "Through logical connections and explanations";
    "In strict chronological order";
    "As simple definitions only"];
  correctIndex := 1;
  explanation := "The text presents information through connected ideas and detailed explanations."
|}.

Definition learning_question : QuizQuestion := {|
  question := "What can readers learn from this content?";
  options := [
    "Important concepts to build understanding";
    "Only memorization of facts";
    "Unrelated general knowledge";
    "Just historical background"];
  correctIndex := 0;
  explanation := "The content provides key concepts that help build solid understanding of the subject."
|}.

(** The question pushed when there is a key term. *)
Definition concept_question (term0 : string) : QuizQuestion := {|
  question := "Which concept is emphasized in the text?";
  options := [
    term0 ++ " and related ideas";
    "Completely different topics";
    "Only basic definitions";
    "Historical dates and figures"];
  correctIndex := 0;
  explanation := "The text specifically discusses " ++ term0
                 ++ " and explains its importance."
|}.

(** [generateFallbackQuiz(text)] *)
Definition generateFallbackQuiz (this : AIService) (text : string)
    : list QuizQuestion :=
  let keyTerms := firstn 3 (key_terms commonWords text) in
  let questions :=
    [topic_question; organization_question; learning_question] in
  let questions :=
    match keyTerms with
    | term0 :: _ => (questions ++ [concept_question term0])%list
    | [] => questions
    end in
  firstn 4 questions.

(** [levelIntro[level] || levelIntro['high-school']], for a level name that
    is no member of [Object.prototype]. *)
Definition levelIntro (level : string) : string :=
  if String.eqb level "middle-school"
  then "This content explains important ideas in simple terms."
  else if String.eqb level "college"
  then "This content presents advanced concepts requiring detailed analysis."
  else "This material covers key concepts for students to understand.".

(** [generateFallbackSummary(text, level)]; an index past the end of
    [sentences] gives [undefined], which [join] prints as the empty
    string. *)
Definition generateFallbackSummary (this : AIService) (text level : string)
    : string :=
  let sentences := JS.match_sentences text in
  let words := JS.split_ws (JS.toLowerCase text) in
  let keyTerms := firstn 6 (key_terms commonWords_summary text) in
  let at_ (i : nat) := nth i sentences EmptyString in
  let keySentences :=
    ((if 0 <? length sentences then [at_ 0] else [])
     ++ (if 2 <? length sentences then [at_ (length sentences / 2)] else [])
     ++ (if 1 <? length sentences then [at_ (length sentences - 1)] else []))%list in
  levelIntro level ++ JS.nl ++ JS.nl
  ++ JS.trim (JS.join " " keySentences) ++ JS.nl ++ JS.nl
  ++ "Key topics include: " ++ JS.join ", " (firstn 5 keyTerms)
  ++ ". This " ++ JS.show_nat (length words) ++ "-word text provides "
  ++ JS.replace_first "-" " " level
  ++ " level information that helps build understanding of the subject matter."
  ++ JS.nl ++ JS.nl
  ++ "The content focuses on explaining these concepts clearly and providing foundation knowledge for further learning in this area.".

(** [s.substring(0, 150) + (whole.length > 150 ? "..." : "")] *)
Definition capped (s whole : string) : string :=
  JS.take 150 s ++ (if 150 <? JS.len whole then "..." else EmptyString).

(** [xs[i].m()] needs [xs[i]] to be there: on [undefined] the call of a
    method throws. *)
Definition item (xs : list string) (i : nat) : Result string :=
  match nth_error xs i with
  | Some x => Ok x
  | None => Throw (TypeError "Cannot read properties of undefined")
  end.

(** The card for the main concept, from [sentences[0]]. *)
Definition main_concept_card (first : string) : Flashcard := {|
  front := "What is the main concept explained in this text?";
  back := capped (JS.strip_leading_nonletters (JS.trim first)) first
|}.

(** The card that [forEach] adds for one key term. *)
Definition term_card (sentences : list string) (term : string) : Flashcard :=
  let relevantSentence :=
    find (fun sentence => JS.includes (JS.toLowerCase sentence) term)
         sentences in
  match relevantSentence with
  | Some sentence =>
      if negb (String.eqb sentence EmptyString)
      then {| front := "What does " ++ JS.quoted term
                       ++ " refer to in this context?";
              back := capped (JS.trim sentence) sentence |}
      else {| front := "What is " ++ term ++ "?";
              back := "A key concept discussed in the text that is important for understanding the subject matter." |}
  | None =>
      {| front := "What is " ++ term ++ "?";
         back := "A key concept discussed in the text that is important for understanding the subject matter." |}
  end.

(** The card that pads the list. *)
Definition generic_card : Flashcard := {|
  front := "What type of information does this text provide?";
  back := "Educational content that explains important concepts and provides detailed information about the topic."
|}.

(** [while (cards.length < 3) { cards.push(...) }] *)
Equations? pad_cards (cards : list Flashcard) : list Flashcard
    by wf (3 - length cards) lt :=
  pad_cards cards with lt_dec (length cards) 3 => {
    | left _ := pad_cards (cards ++ [generic_card])%list;
    | right _ := cards }.
Proof.
  rewrite length_app; simpl.
  destruct (length cards) as [|[|[|n]]]; simpl; lia.
Qed.

(** [generateFallbackFlashcards(text)] *)
Definition generateFallbackFlashcards (this : AIService) (text : string)
    : Result (list Flashcard) :=
  let sentences := JS.match_sentences text in
  let keyTerms := firstn 5 (key_terms commonWords text) in
  cards <-?
    (if 0 <? length sentences
     then
       first <-? item sentences 0;;
       Ok [main_concept_card first]
     else Ok []);;
  let cards := (cards ++ map (term_card sentences) keyTerms)%list in
  Ok (firstn 5 (pad_cards cards)).

(** *** The generation operations *)

(** [levelPrompts[level]] inside the template, for a level name that is no
    member of [Object.prototype]; a name that is no key prints as
    [undefined]. *)
Definition levelPrompts (level : string) : string :=
  if String.eqb level "middle-school"
  then "Explain this using simple words a 12-year-old would understand"
  else if String.eqb level "high-school"
  then "Explain this clearly for a high school student with helpful analogies"
  else if String.eqb level "college"
  then "Provide a comprehensive college-level explanation"
  else "undefined".

Definition summary_prompt (text level : string) : string :=
  "You are an expert tutor. " ++ levelPrompts level ++ "." ++ JS.nl ++ JS.nl
  ++ "Create a clear, engaging summary of this text in under 300 words:"
  ++ JS.nl ++ JS.nl
  ++ JS.take 3000 text ++ JS.nl ++ JS.nl
  ++ "Make it educational and accessible for "
  ++ JS.replace_first "-" " " level ++ " students.".

Definition quiz_prompt (text : string) : string :=
  "Create exactly 4 multiple-choice questions from this text." ++ JS.nl ++ JS.nl
  ++ "Return ONLY a valid JSON array in this format:" ++ JS.nl
  ++ "[" ++ JS.nl
  ++ "  {" ++ JS.nl
  ++ "    " ++ JS.quoted "question" ++ ": "
  ++ JS.quoted "Question text here?" ++ "," ++ JS.nl
  ++ "    " ++ JS.quoted "options" ++ ": ["
  ++ JS.quoted "Option A" ++ ", " ++ JS.quoted "Option B" ++ ", "
  ++ JS.quoted "Option C" ++ ", " ++ JS.quoted "Option D" ++ "]," ++ JS.nl
  ++ "    " ++ JS.quoted "correctIndex" ++ ": 0," ++ JS.nl
  ++ "    " ++ JS.quoted "explanation" ++ ": "
  ++ JS.quoted "Why this answer is correct" ++ JS.nl
  ++ "  }" ++ JS.nl
  ++ "]" ++ JS.nl ++ JS.nl
  ++ "No other text, just the JSON array." ++ JS.nl ++ JS.nl
  ++ "Text: " ++ JS.take 2500 text.

Definition flashcard_prompt (text : string) : string :=
  "Create exactly 5 study flashcards from this text." ++ JS.nl ++ JS.nl
  ++ "Return ONLY a valid JSON array in this format:" ++ JS.nl
  ++ "[" ++ JS.nl
  ++ "  {" ++ JS.nl
  ++ "    " ++ JS.quoted "front" ++ ": "
  ++ JS.quoted "Question or key term" ++ "," ++ JS.nl
  ++ "    " ++ JS.quoted "back" ++ ": "
  ++ JS.quoted "Clear, concise answer" ++ JS.nl
  ++ "  }" ++ JS.nl
  ++ "]" ++ JS.nl ++ JS.nl
  ++ "No other text, just the JSON array." ++ JS.nl ++ JS.nl
  ++ "Text: " ++ JS.take 2500 text.

(** [generateSummary(text, level = "high-school")] *)
Definition generateSummary (this : AIService) (text level : string)
    : M string :=
  let prompt := summary_prompt text level in
  try_catch
    (response <- makeRequest this prompt 0;;
     lift (trim_value response))
    (fun _ => ret (generateFallbackSummary this text level)).

(** [generateQuiz(text)] *)
Definition generateQuiz (this : AIService) (text : string)
    : M (list JSValue) :=
  let prompt := quiz_prompt text in
  try_catch
    (sleep 1000;;;
     response <- makeRequest this prompt 0;;
     lift (parseQuizResponse this response))
    (fun _ => ret (map question_object (generateFallbackQuiz this text))).

(** [generateFlashcards(text)] *)
Definition generateFlashcards (this : AIService) (text : string)
    : M (list JSValue) :=
  let prompt := flashcard_prompt text in
  try_catch
    (sleep 1000;;;
     response <- makeRequest this prompt 0;;
     lift (parseFlashcardResponse this response))
    (fun _ =>
       cards <- lift (generateFallbackFlashcards this text);;
       ret (map card_object cards)).

End AIService.

(** ** The service of [server.js]

    The older file has one provider.  Its class declares [makeRequest],
    [generateSummary], [generateQuiz], [generateFlashcards],
    [parseQuizResponse], [parseFlashcardResponse], [generateFallbackSummary]
    and [generateFallbackFlashcards]; the two parsers and
    [generateFallbackFlashcards] have the text of the multi-provider file.
    [generateQuiz] calls [this.generateFallbackQuiz], which the class does
    not declare. *)

Module ServerJs.

Record AIService := {
  apiKey : option string;
  baseURL : string;
  requestDelay : nat
}.

Definition constructor (GOOGLE_API_KEY : option string) : AIService := {|
  apiKey := GOOGLE_API_KEY;
  baseURL := "https://generativelanguage.googleapis.com/v1beta/models/gemini-1.5-flash-latest:generateContent";
  requestDelay := 2000
|}.

(** [makeRequest(prompt, retryCount = 0)]; its [catch] logs and throws
    again. *)
Equations? makeRequest (this : AIService) (prompt : string)
    (retryCount : nat) (w : World) : Result JSValue * World
    by wf (2 - retryCount) lt :=
  makeRequest this prompt retryCount w :=
    (if negb (AIService.configured (apiKey this))
     then throw (Error "API key not configured")
     else
       response <- fetch Gemini prompt;;
       if negb (ok response) then
         match Nat.eq_dec (status response) 429, lt_dec retryCount 2 with
         | left _, left _ =>
             sleep (requestDelay this * (retryCount + 1));;;
             (fun w' => makeRequest this prompt (retryCount + 1) w')
         | _, _ => lift (AIService.api_error Gemini response)
         end
       else lift (AIService.gemini_text "Invalid API response" response)) w.
Proof. destruct retryCount as [|[|n]]; simpl; lia. Qed.

(** [parseQuizResponse(response)] *)
Definition parseQuizResponse (this : AIService) (response : JSValue)
    : Result (list JSValue) :=
  cleanResponse <-? AIService.clean_response response;;
  parsed <-? Json.parse cleanResponse;;
  AIService.questions_of_parsed parsed.

(** [parseFlashcardResponse(response)] *)
Definition parseFlashcardResponse (this : AIService) (response : JSValue)
    : Result (list JSValue) :=
  cleanResponse <-? AIService.clean_response response;;
  parsed <-? Json.parse cleanResponse;;
  AIService.cards_of_parsed parsed.

(** [generateFallbackFlashcards(text)] *)
Definition generateFallbackFlashcards (this : AIService) (text : string)
    : Result (list AIService.Flashcard) :=
  let sentences := JS.match_sentences text in
  let keyTerms := firstn 5 (AIService.key_terms AIService.commonWords text) in
  cards <-?
    (if 0 <? length sentences
     then
       first <-? AIService.item sentences 0;;
       Ok [AIService.main_concept_card first]
     else Ok []);;
  let cards := (cards ++ map (AIService.term_card sentences) keyTerms)%list in
  Ok (firstn 5 (AIService.pad_cards cards)).

(** [generateFallbackSummary(text, level)] of [server.js]. *)
Definition generateFallbackSummary (this : AIService) (text level : string)
    : string :=
  let sentences := JS.match_sentences text in
  let keyTerms :=
    firstn 6 (AIService.key_terms AIService.commonWords_summary text) in
  let at_ (i : nat) := nth i sentences EmptyString in
  let keySentences :=
    ((if 0 <? length sentences then [at_ 0] else [])
     ++ (if 2 <? length sentences then [at_ (length sentences / 2)] else [])
     ++ (if 1 <? length sentences then [at_ (length sentences - 1)] else []))%list in
  "This " ++ JS.replace_first "-" " " level
  ++ " level content covers important concepts about "
  ++ JS.join ", " (firstn 3 keyTerms) ++ "." ++ JS.nl ++ JS.nl
  ++ JS.trim (JS.join " " keySentences) ++ JS.nl ++ JS.nl
  ++ "The material explains these key topics in detail: "
  ++ JS.join ", " (firstn 5 keyTerms)
  ++ ". Understanding these concepts helps build a solid foundation for further learning in this subject area.".

(** [this.generateFallbackQuiz(text)]: the class has no such member, so the
    call throws. *)
Definition call_generateFallbackQuiz (this : AIService) (text : string)
    : Result (list JSValue) :=
  Throw (TypeError "this.generateFallbackQuiz is not a function").

(** [generateSummary(text, level = "high-school")] *)
Definition generateSummary (this : AIService) (text level : string)
    : M string :=
  let prompt := AIService.summary_prompt text level in
  try_catch
    (response <- makeRequest this prompt 0;;
     lift (AIService.trim_value response))
    (fun _ => ret (generateFallbackSummary this text level)).

(** [generateQuiz(text)] *)
Definition generateQuiz (this : AIService) (text : string)
    : M (list JSValue) :=
  let prompt := AIService.quiz_prompt text in
  try_catch
    (sleep (requestDelay this);;;
     response <- makeRequest this prompt 0;;
     lift (parseQuizResponse this response))
    (fun _ => lift (call_generateFallbackQuiz this text)).

(** [generateFlashcards(text)] *)
Definition generateFlashcards (this : AIService) (text : string)
    : M (list JSValue) :=
  let prompt := AIService.flashcard_prompt text in
  try_catch
    (sleep (requestDelay this);;;
     response <- makeRequest this prompt 0;;
     lift (parseFlashcardResponse this response))
    (fun _ =>
       cards <- lift (generateFallbackFlashcards this text);;
       ret (map AIService.card_object cards)).

End ServerJs.

(** ** The input checks of the two processing routes

    Both server files have the same checks.  Each handler first decides the
    text it works on, or answers 400; it then calls the three generation
    operations on that text and reports it as [originalText]. *)

Module Routes.

Inductive Checked :=
| Status400 (error : string)
| Accepted (text : string).

(** [!text || text.trim().length === 0], for a text that is missing or a
    string. *)
Definition blank (text : option string) : bool :=
  match text with
  | None => true
  | Some t => (JS.len t =? 0) || (JS.len (JS.trim t) =? 0)
  end.

(** [POST /api/process-text], with [text] the field of the request body. *)
Definition process_text (text : option string) : Checked :=
  if blank text then Status400 "Text content is required"
  else
    match text with
    | Some t =>
        if 10000 <? JS.len t
        then Status400 "Text too long. Maximum 10,000 characters allowed."
        else Accepted t
    | None => Status400 "Text content is required"
    end.

(** [POST /api/process-file], from the text that the extraction gave. *)
Definition process_file (extractedText : option string) : Checked :=
  if blank extractedText
  then Status400 "No text could be extracted from the file"
  else
    match extractedText with
    | Some t =>
        if 10000 <? JS.len t
        then Accepted (JS.take 10000 t ++ "...")
        else Accepted t
    | None => Status400 "No text could be extracted from the file"
    end.

End Routes.

(** ** The handlers of the multi-provider file

    What the upload filter, the two processing routes and the error
    middleware answer.  The time stamp [processedAt] of the metadata and
    its constant label are left out of the data.  The file route is
    followed up to the text it generates from: it then runs the three
    operations at the same time, which the monad [M] does not express. *)

Module Handlers.

(** The file that the upload middleware hands over as [req.file]. *)
Record UploadedFile := {
  mimetype : string;
  buffer : string
}.

Definition allowedTypes : list string :=
  ["application/pdf";
   "application/vnd.openxmlformats-officedocument.wordprocessingml.document";
   "application/msword";
   "text/plain"].

(** [fileFilter(req, file, cb)]: [cb(null, true)], or [cb] with an
    error. *)
Definition fileFilter (file : UploadedFile) : Result bool :=
  if existsb (String.eqb (mimetype file)) allowedTypes
  then Ok true
  else Throw (Error "Invalid file type").

(** The errors that reach the error middleware: those of the upload
    middleware's own class, with their [code], and the others. *)
Inductive RequestError :=
| MulterError (code message : string)
| OtherError (e : JSError).

(** The data of a successful answer. *)
Record Materials := {
  originalText : string;
  summary : string;
  quiz : list JSValue;
  flashcards : list JSValue;
  textLength : nat;
  level : string
}.

(** [res.status(status).json({ error, details })], or
    [res.json({ success: true, data })]; [details] is the error whose
    message is reported. *)
Inductive Reply :=
| Failed (status : nat) (error : string) (details : option JSError)
| Succeeded (data : Materials).

(** The error handling middleware. *)
Definition error_middleware (error : RequestError) : Reply :=
  match error with
  | MulterError code message =>
      if String.eqb code "LIMIT_FILE_SIZE"
      then Failed 400 "File too large. Maximum size is 10MB." None
      else Failed 400 message None
  | OtherError _ => Failed 500 "Internal server error" None
  end.

(** What a handler has decided before it generates: an answer, or the
    text to generate from. *)
Inductive Decided :=
| Answer (reply : Reply)
| Generate (text : string).

Section Extraction.

(** The two libraries that read a document: each gives the text, or
    nothing in its place, or throws. *)
Variable pdfParse : string -> Result (option string).
Variable mammoth : string -> Result (option string).

(** [extractTextFromPDF(buffer)] *)
Definition extractTextFromPDF (buffer : string) : Result (option string) :=
  match pdfParse buffer with
  | Ok text => Ok text
  | Throw _ => Throw (Error "Failed to extract text from PDF")
  end.

(** [extractTextFromDocx(buffer)] *)
Definition extractTextFromDocx (buffer : string) : Result (option string) :=
  match mammoth buffer with
  | Ok text => Ok text
  | Throw _ => Throw (Error "Failed to extract text from DOCX")
  end.

(** What [POST /api/process-file] does with the outcome of the
    extraction. *)
Definition after_extraction (extracted : Result (option string)) : Decided :=
  match extracted with
  | Throw error => Answer (Failed 500 "Failed to process file" (Some error))
  | Ok extractedText =>
      match Routes.process_file extractedText with
      | Routes.Status400 error => Answer (Failed 400 error None)
      | Routes.Accepted text => Generate text
      end
  end.

(** [POST /api/process-file] up to the text it generates from. *)
Definition process_file_text (file : option UploadedFile) : Decided :=
  match file with
  | None => Answer (Failed 400 "No file uploaded" None)
  | Some f =>
      if String.eqb (mimetype f) "application/pdf"
      then after_extraction (extractTextFromPDF (buffer f))
      else if JS.includes (mimetype f) "word"
           then after_extraction (extractTextFromDocx (buffer f))
           else Answer (Failed 400 "Unsupported file type" None)
  end.

End Extraction.

(** The check of [text] in [POST /api/process-text], for any value that
    the JSON body can give the field ([JUndefined] when the field is
    missing): [!text || text.trim().length === 0], then
    [text.length > 10000].  Only a string has [trim]: for any other value
    that JavaScript takes as true the call throws. *)
Definition check_text (text : JSValue) : Result Routes.Checked :=
  if negb (Val.truthy text)
  then Ok (Routes.Status400 "Text content is required")
  else
    match text with
    | JStr t =>
        if JS.len (JS.trim t) =? 0
        then Ok (Routes.Status400 "Text content is required")
        else if 10000 <? JS.len t
             then Ok (Routes.Status400
                        "Text too long. Maximum 10,000 characters allowed.")
             else Ok (Routes.Accepted t)
    | _ => Throw (TypeError "text.trim is not a function")
    end.

(** Whether a value of the JSON body can be turned into a string, as a
    property key or as an item that [join] prints: an object whose own
    fields include [toString] cannot, since the field is no function and
    the inherited [valueOf] gives the object back; an array can when each
    of its items can. *)
Fixpoint printable (v : JSValue) : bool :=
  match v with
  | JObj fields =>
      match Val.lookup "toString" fields with
      | Some _ => false
      | None => true
      end
  | JArr items => forallb printable items
  | _ => true
  end.

(** The level that [generateSummary(text, level)] works with, for any
    value that the JSON body can give the field.  A missing field gets
    the default ["high-school"].  The method builds its prompt before its
    [try]: the prompt reads [levelPrompts[level]], which turns the level
    into a property key, and calls [level.replace], which only a string
    has; so for any other level the method throws before it fetches. *)
Definition level_text (level : JSValue) : Result string :=
  match level with
  | JUndefined => Ok "high-school"
  | JStr l => Ok l
  | _ =>
      if negb (printable level)
      then Throw (TypeError "Cannot convert object to primitive value")
      else match level with
           | JNull =>
               Throw (TypeError
                        "Cannot read properties of null (reading 'replace')")
           | _ => Throw (TypeError "level.replace is not a function")
           end
  end.

(** [POST /api/process-text]: [text] and [level] are the fields of the
    request body, [JUndefined] when the body does not have them.  The
    whole handler is inside a [try]. *)
Definition process_text_handler (this : AIService.AIService)
    (text level : JSValue) : M Reply :=
  try_catch
    (checked <- lift (check_text text);;
     match checked with
     | Routes.Status400 error => ret (Failed 400 error None)
     | Routes.Accepted text =>
         level <- lift (level_text level);;
         summary <- AIService.generateSummary this text level;;
         sleep 1000;;;
         quiz <- AIService.generateQuiz this text;;
         sleep 1000;;;
         flashcards <- AIService.generateFlashcards this text;;
         ret (Succeeded {| originalText := text;
                           summary := summary;
                           quiz := quiz;
                           flashcards := flashcards;
                           textLength := JS.len text;
                           level := level |})
     end)
    (fun error => ret (Failed 500 "Failed to process text" (Some error))).

End Handlers.

(** ** The authentication middleware of the user router

    The router guards its history routes with [auth].  The check of the
    token is the library's: [verify] stands for
    [token => jwt.verify(token, SECRET)], which returns the decoded
    payload or throws; it is handed [None] when the token is
    [undefined]. *)

Module Router.

(** [s.split(sep)] for a separator of one character; [cur] holds the
    piece being read, reversed. *)
Fixpoint split_from (sep : ascii) (cur : string) (s : string)
    : list string :=
  match s with
  | EmptyString => [JS.rev cur]
  | String c s' =>
      if Ascii.eqb c sep
      then JS.rev cur :: split_from sep EmptyString s'
      else split_from sep (String c cur) s'
  end.

Definition split (sep : ascii) (s : string) : list string :=
  split_from sep EmptyString s.

Section Auth.

Variable Payload : Type.
Variable verify : option string -> Result Payload.

(** What the middleware does: it answers 401 with an error, or it sets
    [req.user] and calls [next()]. *)
Inductive AuthOutcome :=
| Unauthorized (error : string)
| Next (user : Payload).

(** [auth(req, res, next)], with [authorization] the header of the
    request; the handlers behind it are asynchronous, so that [next()]
    does not throw. *)
Definition auth (authorization : option string) : AuthOutcome :=
  match authorization with
  | None => Unauthorized "No token"
  | Some header =>
      if String.eqb header EmptyString then Unauthorized "No token"
      else
        let token := nth_error (split " " header) 1 in
        match verify token with
        | Ok decoded => Next decoded
        | Throw _ => Unauthorized "Invalid token"
        end
  end.

(** What the middleware makes of the outcome of [verify]. *)
Definition verified (checked : Result Payload) : AuthOutcome :=
  match checked with
  | Ok decoded => Next decoded
  | Throw _ => Unauthorized "Invalid token"
  end.

End Auth.

Arguments Unauthorized {Payload} error.
Arguments Next {Payload} user.
Arguments auth {Payload} verify authorization.
Arguments verified {Payload} checked.

End Router.

(** * The vocabulary of the statements *)

Module Spec.
Import AIService.

(** ** Texts *)

(** [Tail r s]: [r] is [s] without some of its first characters. *)
Inductive Tail : string -> string -> Prop :=
| Tail_here (s : string) : Tail s s
| Tail_next (c : ascii) (s r : string) : Tail r s -> Tail r (String c s).

Create HintDb text.
#[export] Hint Constructors Tail : text.

(** ** Parsed responses *)

(** A service with no provider key. *)
Definition no_keys : AIService :=
  constructor {| GOOGLE_API_KEY := None; GROQ_API_KEY := None;
                 COHERE_API_KEY := None |}.

(** [Subseq xs ys]: [xs] is [ys] with some members left out, the others
    unchanged and in the same order. *)
Inductive Subseq {A : Type} : list A -> list A -> Prop :=
| Subseq_nil : Subseq [] []
| Subseq_skip (y : A) (xs ys : list A) : Subseq xs ys -> Subseq xs (y :: ys)
| Subseq_keep (x : A) (xs ys : list A) :
    Subseq xs ys -> Subseq (x :: xs) (x :: ys).

(** Whether a filter keeps an entry, when it does not throw. *)
Definition keeps {A} (p : A -> Result bool) (x : A) : bool :=
  match p x with
  | Ok b => b
  | Throw _ => false
  end.

(** The items of the array that a response parses to, if it does. *)
Definition parsed_items (response : JSValue) : option (list JSValue) :=
  match clean_response response with
  | Ok text =>
      match Json.parse text with
      | Ok (JArr items) => Some items
      | _ => None
      end
  | Throw _ => None
  end.

(** Example entries. *)
Definition entry (question : JSValue) (options : list string)
    (correctIndex : JSValue) : JSValue :=
  JObj [("question", question); ("options", JArr (map JStr options));
        ("correctIndex", correctIndex); ("explanation", JStr "E")].

Definition good_entry : JSValue :=
  entry (JStr "Q?") ["A"; "B"; "C"; "D"] (JNum (Finite 1)).
Definition three_options : JSValue :=
  entry (JStr "Q?") ["A"; "B"; "C"] (JNum (Finite 1)).
Definition index_seven : JSValue :=
  entry (JStr "Q?") ["A"; "B"; "C"; "D"] (JNum (Finite 7)).
Definition index_as_text : JSValue :=
  entry (JStr "Q?") ["A"; "B"; "C"; "D"] (JStr "1").
Definition empty_question : JSValue :=
  entry (JStr EmptyString) ["A"; "B"; "C"; "D"] (JNum (Finite 0)).

(** The JSON text of a quiz entry and of a card. *)
Definition question_text (q : string) : string :=
  "{" ++ JS.quoted "question" ++ ":" ++ JS.quoted q ++ ","
  ++ JS.quoted "options" ++ ":[" ++ JS.quoted "A" ++ "," ++ JS.quoted "B"
  ++ "," ++ JS.quoted "C" ++ "," ++ JS.quoted "D" ++ "],"
  ++ JS.quoted "correctIndex" ++ ":1}".

Definition card_text (f : string) : string :=
  "{" ++ JS.quoted "front" ++ ":" ++ JS.quoted f ++ ","
  ++ JS.quoted "back" ++ ":" ++ JS.quoted "B" ++ "}".

(** A payload between code fences. *)
Definition fenced (payload : string) : string :=
  "```json" ++ JS.nl ++ payload ++ JS.nl ++ "```".

(** A provider text with fences and no array. *)
Definition fenced_number : string := fenced "42".

(** Provider texts with more entries than a parser returns. *)
Definition five_questions : string :=
  fenced ("[" ++ JS.join "," (map question_text ["Q1"; "Q2"; "Q3"; "Q4"; "Q5"])
          ++ "]").

Definition six_cards : string :=
  fenced ("[" ++ JS.join "," (map card_text ["F1"; "F2"; "F3"; "F4"; "F5"; "F6"])
          ++ "]").

(** The values that [question_text] and [card_text] parse to. *)
Definition question_value (q : string) : JSValue :=
  JObj [("question", JStr q);
        ("options", JArr [JStr "A"; JStr "B"; JStr "C"; JStr "D"]);
        ("correctIndex", JNum (Finite 1))].

Definition card_value (f : string) : JSValue :=
  JObj [("front", JStr f); ("back", JStr "B")].

(** ** The orchestration *)

(** The credential of a provider. *)
Definition key_of (this : AIService) (p : Provider) : option string :=
  match p with
  | Gemini => googleApiKey this
  | Groq => groqApiKey this
  | Cohere => cohereApiKey this
  end.

(** The client of a provider, as [makeRequest(prompt)] calls it. *)
Definition call_provider (this : AIService) (prompt : string) (p : Provider)
    : M JSValue :=
  match p with
  | Gemini => fun w => makeGeminiRequest this prompt 0 w
  | Groq => makeGroqRequest this prompt
  | Cohere => makeCohereRequest this prompt
  end.

(** The orchestration in the words of the specification: go through the
    providers in the order of the list; skip one that has no credential;
    the first that returns ends the sequence; when the list is exhausted,
    signal that all providers failed. *)
Fixpoint try_in_order (this : AIService) (prompt : string)
    (ps : list Provider) : M JSValue :=
  match ps with
  | [] => throw (Error "All AI services failed")
  | p :: rest =>
      if configured (key_of this p)
      then try_catch (call_provider this prompt p)
                     (fun _ => try_in_order this prompt rest)
      else try_in_order this prompt rest
  end.

(** A rate-limit response: status 429. *)
Definition rate_limited (o : FetchOutcome) : bool :=
  match o with
  | Answered r => status r =? 429
  | Rejected => false
  end.

(** How many rate-limit responses a script starts with. *)
Fixpoint leading_rate_limits (l : list FetchOutcome) : nat :=
  match l with
  | o :: rest => if rate_limited o then S (leading_rate_limits rest) else 0
  | [] => 0
  end.

(** The events of a Gemini call that is retried [k] times, the first retry
    counted [from]: each retry is a fetch followed by a wait of
    [delay * (retryCount + 1)]; a last fetch ends the call. *)
Definition retry_events (prompt : string) (delay from k : nat) : list Event :=
  (flat_map (fun i => [EvFetch Gemini prompt; EvSleep (delay * (i + 1))])
            (seq from k)
   ++ [EvFetch Gemini prompt])%list.

(** The waits of a trace, and the providers it fetches from, in order. *)
Fixpoint waits (evs : list Event) : list nat :=
  match evs with
  | EvSleep ms :: rest => ms :: waits rest
  | EvFetch _ _ :: rest => waits rest
  | [] => []
  end.

Fixpoint fetched (evs : list Event) : list Provider :=
  match evs with
  | EvFetch p _ :: rest => p :: fetched rest
  | EvSleep _ :: rest => fetched rest
  | [] => []
  end.

(** The place of a provider in the declaration order. *)
Definition rank (p : Provider) : nat :=
  match p with
  | Gemini => 0
  | Groq => 1
  | Cohere => 2
  end.

(** The world after [evs] happened and Gemini answered [n] calls. *)
Definition after_gemini (w : World) (n : nat) (evs : list Event) : World :=
  {| gemini_script := skipn n (gemini_script w);
     groq_script := groq_script w;
     cohere_script := cohere_script w;
     trace := (trace w ++ evs)%list |}.

(** A world in which Gemini answers with rate limits four times and Cohere
    answers with a text. *)
Definition rate_limit_response : FetchOutcome :=
  Answered {| status := 429; statusText := "Too Many Requests";
              body := None |}.

Definition cohere_answer (text : string) : FetchOutcome :=
  Answered {| status := 200; statusText := "OK";
              body := Some (JObj [("generations",
                                   JArr [JObj [("text", JStr text)]])]) |}.

Definition throttled_world : World := {|
  gemini_script := [rate_limit_response; rate_limit_response;
                    rate_limit_response; rate_limit_response];
  groq_script := [];
  cohere_script := [cohere_answer "hello"];
  trace := []
|}.

Definition gemini_and_cohere : Env := {|
  GOOGLE_API_KEY := Some "g-key";
  GROQ_API_KEY := None;
  COHERE_API_KEY := Some "c-key"
|}.

(** ** Falling back *)

(** The provider chain fails for a prompt: [makeRequest] throws. *)
Definition chain_fails (this : AIService) (prompt : string) (w : World)
    : Prop :=
  exists e, result (makeRequest this prompt 0) w = Throw e.

(** ** Long texts *)

(** A text of [n] spaces. *)
Fixpoint spaces (n : nat) : string :=
  match n with
  | O => EmptyString
  | S n' => String " " (spaces n')
  end.

(** A text of [n] letters. *)
Fixpoint letters (n : nat) : string :=
  match n with
  | O => EmptyString
  | S n' => String "a" (letters n')
  end.

End Spec.

(** * More vocabulary: costs, answers and uploads *)

Module Scenarios.
Import AIService.
Import Handlers.
Import Spec.

(** An event that, if it is a fetch, sends [prompt]. *)
Definition carries (prompt : string) (e : Event) : Prop :=
  match e with
  | EvFetch _ sent => sent = prompt
  | EvSleep _ => True
  end.

(** How many fetches one provider call can make, and how long it can
    wait. *)
Definition most_fetches (p : Provider) : nat :=
  match p with
  | Gemini => 3
  | _ => 1
  end.

Definition longest_wait (delay : nat) (p : Provider) : nat :=
  match p with
  | Gemini => 3 * delay
  | _ => 0
  end.

(** A Gemini answer with a text, and a Groq answer with any content. *)
Definition gemini_answer (text : JSValue) : Response :=
  {| status := 200; statusText := "OK";
     body := Some (JObj [("candidates",
              JArr [JObj [("content",
                JObj [("parts", JArr [JObj [("text", text)]])])]])]) |}.

Definition groq_answer (content : JSValue) : Response :=
  {| status := 200; statusText := "OK";
     body := Some (JObj [("choices",
              JArr [JObj [("message",
                JObj [("content", content)])]])]) |}.

Definition all_keys : Env := {|
  GOOGLE_API_KEY := Some "g-key";
  GROQ_API_KEY := Some "q-key";
  COHERE_API_KEY := Some "c-key"
|}.

Definition groq_and_cohere : Env := {|
  GOOGLE_API_KEY := None;
  GROQ_API_KEY := Some "q-key";
  COHERE_API_KEY := Some "c-key"
|}.

(** What the flashcard operation returns when it falls back. *)
Definition fallback_cards (this : AIService) (text : string)
    : Result (list JSValue) :=
  cards <-? generateFallbackFlashcards this text;;
  Ok (map card_object cards).

(** A world with the given scripts and no event yet. *)
Definition world_of (gemini groq cohere : list FetchOutcome) : World :=
  {| gemini_script := gemini; groq_script := groq; cohere_script := cohere;
     trace := [] |}.

(** A text with prose and fences around one card. *)
Definition prose_before : string :=
  "Here are your cards:" ++ JS.nl ++ "```json" ++ JS.nl.
Definition prose_after : string := JS.nl ++ "``` Enjoy (see notes [1)".

(** A provider text whose array has a valid entry and a null. *)
Definition entry_and_null : string :=
  "[" ++ question_text "Q1" ++ ",null]".

(** A sentence as the pattern of the heuristic generators matches it: a
    run of characters other than [.], [!] and [?] that is not empty,
    followed by a run of these three that is not empty. *)
Definition sentence_shaped (s : string) : Prop :=
  exists body tail,
    s = body ++ tail
    /\ body <> EmptyString /\ tail <> EmptyString
    /\ JS.all_chars (fun c => negb (JS.is_terminal c)) body = true
    /\ JS.all_chars JS.is_terminal tail = true.

(** ** Uploads *)

(** A reader that finds the text [text] in any document. *)
Definition reads (text : string) (buffer : string)
    : Result (option string) :=
  Ok (Some text).

(** A reader that fails. *)
Definition unreadable (buffer : string) : Result (option string) :=
  Throw (Error "bad document").

Definition plain_file : UploadedFile :=
  {| mimetype := "text/plain"; buffer := "Cats purr." |}.

Definition word_file : UploadedFile :=
  {| mimetype := "application/msword"; buffer := "Cats purr." |}.

(** ** Tokens *)

(** A check that accepts one token only. *)
Definition only_secret (token : option string) : Result nat :=
  match token with
  | Some t => if String.eqb t "secret" then Ok 7 else Throw (Error "bad")
  | None => Throw (Error "jwt must be provided")
  end.

End Scenarios.

(** * Runs of the embedding on concrete inputs *)

Module Checks.
Import AIService.
Import Spec.

Example trim_strips_both_ends : JS.trim "  a b  " = "a b".
Proof. reflexivity. Qed.

Example split_of_empty_text : JS.split_ws EmptyString = [EmptyString].
Proof. reflexivity. Qed.

Example split_keeps_outer_pieces :
  JS.split_ws " a  b " = [EmptyString; "a"; "b"; EmptyString].
Proof. reflexivity. Qed.

Example sentences_need_a_terminal :
  JS.match_sentences "Cats are mammals. Cats have fur!? no end"
  = ["Cats are mammals."; " Cats have fur!?"].
Proof. reflexivity. Qed.

Example sentences_skip_leading_terminals :
  JS.match_sentences "..a.b" = ["a."].
Proof. reflexivity. Qed.

Example fences_are_stripped :
  strip_fences (fenced "[1]") = "[1]" ++ JS.nl.
Proof. reflexivity. Qed.

Example bracketed_part_is_first_to_last :
  JS.match_bracketed "ab [1, [2]] c ] d" = Some "[1, [2]] c ]".
Proof. reflexivity. Qed.

Example lower_case_of_ascii : JS.toLowerCase "AbC Z!" = "abc z!".
Proof. reflexivity. Qed.

Example json_values :
  Json.parse ("[1, 2.5, -3e2, " ++ JS.quoted "a\nA"
              ++ ", true, null, {" ++ JS.quoted "k" ++ ": [], "
              ++ JS.quoted "k" ++ ": {}}]")
  = Ok (JArr [JNum (Finite 1); JNum (Finite (5 # 2));
              JNum (Finite (-300 # 1)); JStr ("a" ++ JS.nl ++ "A");
              JBool true; JNull; JObj [("k", JArr []); ("k", JObj [])]]).
Proof. vm_compute. reflexivity. Qed.

Example json_refuses_trailing_comma : Json.parse "[1,]" = Throw SyntaxError.
Proof. reflexivity. Qed.

Example json_refuses_leading_zero : Json.parse "01" = Throw SyntaxError.
Proof. reflexivity. Qed.

Example json_rounds_to_double :
  Json.parse "0.1"
  = Ok (JNum (Finite (3602879701896397 # 36028797018963968)))
  /\ Json.parse "3.9999999999999999999" = Ok (JNum (Finite 4))
  /\ Json.parse "1e999" = Ok (JNum (Infinity false))
  /\ Json.parse "2.4e-324" = Ok (JNum (Finite 0)).
Proof.
  split; [vm_compute; reflexivity|].
  split; [vm_compute; reflexivity|].
  split; vm_compute; reflexivity.
Qed.

(** The parsing scenarios of the specification. *)
Example one_fenced_question_parses :
  parseQuizResponse no_keys (JStr (fenced ("[" ++ question_text "Q?" ++ "]")))
  = Ok [question_value "Q?"].
Proof. vm_compute. reflexivity. Qed.

Example only_entry_with_three_options :
  questions_of_parsed (JArr [three_options])
  = Throw (Error "No valid questions found").
Proof. reflexivity. Qed.

Example null_entry_throws :
  exists msg, questions_of_parsed (JArr [JNull; good_entry])
              = Throw (TypeError msg).
Proof. eexists. reflexivity. Qed.

(** A run of the orchestrator: Gemini is rate limited to the end, Groq
    has no key, Cohere answers. *)
Example throttled_run :
  makeRequest (constructor gemini_and_cohere) "P" 0 throttled_world
  = (Ok (JStr "hello"),
     {| gemini_script := [rate_limit_response];
        groq_script := [];
        cohere_script := [];
        trace := [EvFetch Gemini "P"; EvSleep 2000; EvFetch Gemini "P";
                  EvSleep 4000; EvFetch Gemini "P"; EvFetch Cohere "P"] |}).
Proof. vm_compute. reflexivity. Qed.

(** The fallback on the text of the specification's scenario: its only key
    term is [popular] ([cats] has four letters, [mammals.] a full stop). *)
Example cats_key_terms :
  key_terms commonWords
    "Cats are mammals. Cats have fur. Cats are popular pets."
  = ["popular"].
Proof. reflexivity. Qed.

Example cats_flashcards :
  generateFallbackFlashcards no_keys
    "Cats are mammals. Cats have fur. Cats are popular pets."
  = Ok [{| front := "What is the main concept explained in this text?";
           back := "Cats are mammals." |};
        {| front := "What does " ++ JS.quoted "popular"
                    ++ " refer to in this context?";
           back := "Cats are popular pets." |};
        generic_card].
Proof. vm_compute. reflexivity. Qed.

End Checks.

(** * Facts about the text primitives *)

Module TextFacts.
Import Spec.

Lemma Tail_trans (a b c : string) : Tail a b -> Tail b c -> Tail a c.
Proof.
  intros Hab Hbc. induction Hbc; auto with text.
Qed.

Lemma Tail_len (r s : string) : Tail r s -> JS.len r <= JS.len s.
Proof.
  induction 1; simpl in *; unfold JS.len in *; simpl; lia.
Qed.

Lemma Tail_mem (c : ascii) (r s : string) :
  Tail r s -> JS.mem c r = true -> JS.mem c s = true.
Proof.
  induction 1; intros Hm; auto.
  simpl. rewrite IHTail by assumption. apply orb_true_r.
Qed.

Lemma drop_while_Tail (p : ascii -> bool) (s : string) :
  Tail (JS.drop_while p s) s.
Proof.
  induction s as [|c s IH]; simpl; auto with text.
  destruct (p c); auto with text.
Qed.

Lemma drop_Tail (n : nat) (s : string) : Tail (JS.drop n s) s.
Proof.
  revert s. induction n as [|n IH]; intros s; destruct s; simpl; auto with text.
Qed.

Lemma Tail_String_len (c : ascii) (r s : string) :
  Tail r s -> JS.len r < JS.len (String c s).
Proof.
  intros H. apply Tail_len in H. unfold JS.len in *. simpl. lia.
Qed.

(** A character that [p] rejects survives [drop_while p]. *)
Lemma from_first_drop_while (p : ascii -> bool) (c : ascii) (s : string) :
  p c = false ->
  JS.from_first c s = JS.from_first c (JS.drop_while p s).
Proof.
  intros Hp. induction s as [|a s IH]; simpl; auto.
  destruct (p a) eqn:Ha.
  - destruct (Ascii.eqb a c) eqn:E.
    + apply Ascii.eqb_eq in E. congruence.
    + exact IH.
  - reflexivity.
Qed.

Lemma upto_last_mem (c : ascii) (s : string) :
  JS.mem c s = true -> JS.upto_last c s <> None.
Proof.
  induction s as [|a s IH]; simpl; intros H; [discriminate|].
  destruct (JS.upto_last c s); [discriminate|].
  destruct (Ascii.eqb a c); [discriminate|].
  simpl in H. exfalso. apply IH; auto.
Qed.

Lemma mem_upto_last (c : ascii) (s : string) :
  JS.upto_last c s <> None -> JS.mem c s = true.
Proof.
  induction s as [|a s IH]; simpl; intros H; [congruence|].
  destruct (JS.upto_last c s).
  - rewrite IH by discriminate. apply orb_true_r.
  - destruct (Ascii.eqb a c); [reflexivity|congruence].
Qed.

End TextFacts.

(** * Facts about [JSON.parse] *)

Module JsonFacts.
Import Spec.
Import TextFacts.

Ltac break_hyp H :=
  match type of H with
  | context [match ?x with _ => _ end] => destruct x eqn:?
  end.

#[local] Arguments Json.parse_number : simpl never.
#[local] Arguments Json.literal : simpl never.
#[local] Arguments Json.skip_ws : simpl never.

Lemma skip_ws_Tail (s : string) : Tail (Json.skip_ws s) s.
Proof. apply drop_while_Tail. Qed.

Lemma read_digits_Tail (s : string) :
  forall acc cnt v cnt' r,
    Json.read_digits acc cnt s = (v, cnt', r) -> Tail r s.
Proof.
  induction s as [|c s IH]; simpl; intros acc cnt v cnt' r H.
  - inversion H; auto with text.
  - destruct (Json.is_digit c).
    + apply IH in H. auto with text.
    + inversion H; auto with text.
Qed.

Lemma read_fraction_Tail (int : Z) (s : string) (x : Z * nat) (r : string) :
  Json.read_fraction int s = Json.POk x r -> Tail r s.
Proof.
  unfold Json.read_fraction. intros H.
  destruct s as [|c s]; [inversion H; auto with text|].
  destruct (Ascii.eqb c "."); [|inversion H; auto with text].
  destruct (Json.read_digits int 0 s) as [[v k] rest] eqn:E.
  destruct k; [discriminate|]. inversion H; subst.
  apply read_digits_Tail in E. auto with text.
Qed.

Lemma read_exponent_Tail (s : string) (e : Z) (r : string) :
  Json.read_exponent s = Json.POk e r -> Tail r s.
Proof.
  unfold Json.read_exponent. intros H.
  destruct s as [|c s]; [inversion H; auto with text|].
  destruct (Ascii.eqb c "e" || Ascii.eqb c "E"); [|inversion H; auto with text].
  destruct s as [|d t].
  - simpl in H. discriminate.
  - destruct (Ascii.eqb d "-") eqn:E1; [|destruct (Ascii.eqb d "+") eqn:E2].
    + destruct (Json.read_digits 0 0 t) as [[v k] rest] eqn:E.
      destruct k; [discriminate|]. inversion H; subst.
      apply read_digits_Tail in E. auto with text.
    + destruct (Json.read_digits 0 0 t) as [[v k] rest] eqn:E.
      destruct k; [discriminate|]. inversion H; subst.
      apply read_digits_Tail in E. auto with text.
    + destruct (Json.read_digits 0 0 (String d t)) as [[v k] rest] eqn:E.
      destruct k; [discriminate|]. inversion H; subst.
      apply read_digits_Tail in E. auto with text.
Qed.

Lemma read_integer_Tail (c : ascii) (t : string) (v : Z) (r : string) :
  Json.read_integer c t = (v, r) -> Tail r t.
Proof.
  unfold Json.read_integer. intros H.
  destruct (Ascii.eqb c "0").
  - inversion H; auto with text.
  - destruct (Json.read_digits _ 1 t) as [[v' k] r0] eqn:E.
    inversion H; subst. eapply read_digits_Tail; eauto.
Qed.

Lemma parse_unsigned_Tail (neg : bool) (s : string) (n : JSNumber)
    (r : string) :
  Json.parse_unsigned neg s = Json.POk n r ->
  Tail r s /\ JS.len r < JS.len s.
Proof.
  unfold Json.parse_unsigned. intros H.
  destruct s as [|c t]; [discriminate|].
  destruct (Json.is_digit c); [|discriminate].
  destruct (Json.read_integer c t) as [int s2] eqn:E.
  destruct (Json.read_fraction int s2) as [[mant fd] s3| | |] eqn:F;
    try discriminate.
  destruct (Json.read_exponent s3) as [e s4| | |] eqn:X; try discriminate.
  inversion H; subst.
  apply read_integer_Tail in E.
  apply read_fraction_Tail in F. apply read_exponent_Tail in X.
  assert (Tail r t) by eauto using Tail_trans.
  split; [auto with text | apply Tail_String_len; assumption].
Qed.

Lemma parse_number_Tail (s : string) (n : JSNumber) (r : string) :
  Json.parse_number s = Json.POk n r ->
  Tail r s /\ JS.len r < JS.len s.
Proof.
  unfold Json.parse_number. intros H.
  destruct s as [|c t]; [discriminate|].
  destruct (Ascii.eqb c "-").
  - apply parse_unsigned_Tail in H. destruct H as [Ht Hl].
    split; [auto with text | unfold JS.len in *; simpl; lia].
  - apply parse_unsigned_Tail in H. exact H.
Qed.

Lemma read_fraction_fuel (int : Z) (s : string) :
  Json.read_fraction int s <> Json.PFuel.
Proof.
  unfold Json.read_fraction.
  destruct s as [|c s]; [discriminate|].
  destruct (Ascii.eqb c "."); [|discriminate].
  destruct (Json.read_digits int 0 s) as [[v k] rest].
  destruct k; discriminate.
Qed.

Lemma read_exponent_fuel (s : string) : Json.read_exponent s <> Json.PFuel.
Proof.
  unfold Json.read_exponent.
  destruct s as [|c s]; [discriminate|].
  destruct (Ascii.eqb c "e" || Ascii.eqb c "E"); [|discriminate].
  match goal with
  | |- (let '(neg, s'') := ?x in _) <> _ => destruct x as [neg s'']
  end.
  destruct (Json.read_digits 0 0 s'') as [[v k] rest].
  destruct k; discriminate.
Qed.

Lemma parse_unsigned_fuel (neg : bool) (s : string) :
  Json.parse_unsigned neg s <> Json.PFuel.
Proof.
  unfold Json.parse_unsigned.
  destruct s as [|c t]; [discriminate|].
  destruct (Json.is_digit c); [|discriminate].
  destruct (Json.read_integer c t) as [int s2].
  pose proof (read_fraction_fuel int s2) as F.
  destruct (Json.read_fraction int s2) as [[mant fd] s3| | |];
    try discriminate; [|congruence].
  pose proof (read_exponent_fuel s3) as X.
  destruct (Json.read_exponent s3); try discriminate; congruence.
Qed.

Lemma parse_number_fuel (s : string) : Json.parse_number s <> Json.PFuel.
Proof.
  unfold Json.parse_number.
  destruct s as [|c t]; [discriminate|].
  destruct (Ascii.eqb c "-"); apply parse_unsigned_fuel.
Qed.

(** The body of a string: what is left is shorter, and the fuel plays no
    part. *)
Lemma parse_string_body_Tail (n : nat) :
  forall s acc v r,
    JS.len s <= n ->
    Json.parse_string_body acc s = Json.POk v r ->
    Tail r s /\ JS.len r < JS.len s.
Proof.
  induction n as [|n IH]; intros s acc v r Hn H.
  - destruct s; [discriminate|]. unfold JS.len in Hn. simpl in Hn. lia.
  - destruct s as [|c s]; [discriminate|].
    assert (Hstep : forall t acc', Tail t s ->
              Json.parse_string_body acc' t = Json.POk v r ->
              Tail r (String c s) /\ JS.len r < JS.len (String c s)).
    { intros t acc' Ht Hp.
      pose proof (Tail_len _ _ Ht) as Hl.
      apply IH in Hp; [|unfold JS.len in *; simpl in Hn; lia].
      destruct Hp as [Hr Hlr].
      split; [eauto using Tail_trans with text|].
      unfold JS.len in *. simpl. lia. }
    simpl in H.
    destruct (Ascii.eqb c JS.dquote).
    { inversion H; subst. split; [auto with text|].
      unfold JS.len; simpl; lia. }
    destruct (Ascii.eqb c "\").
    2:{ destruct (JS.code c <? 32); [discriminate|].
        eapply Hstep; eauto with text. }
    destruct s as [|e s2]; [discriminate|].
    repeat match type of H with
           | (if ?b then _ else _) = _ =>
               destruct b;
               [ first [ eapply Hstep; [|exact H]; auto with text ] | ]
           end.
    destruct (Ascii.eqb e "u"); [|discriminate].
    destruct s2 as [|h1 [|h2 [|h3 [|h4 s5]]]]; try discriminate.
    destruct (Json.hex_val h1), (Json.hex_val h2), (Json.hex_val h3),
      (Json.hex_val h4); try discriminate.
    match type of H with
    | (if ?b then _ else _) = _ => destruct b; [|discriminate]
    end.
    eapply Hstep; [|exact H]. auto 10 with text.
Qed.

Lemma parse_string_body_fuel (n : nat) :
  forall s acc, JS.len s <= n -> Json.parse_string_body acc s <> Json.PFuel.
Proof.
  induction n as [|n IH]; intros s acc Hn.
  - destruct s; [discriminate|]. unfold JS.len in Hn. simpl in Hn. lia.
  - destruct s as [|c s]; [discriminate|].
    assert (Hstep : forall t acc', Tail t s ->
              Json.parse_string_body acc' t <> Json.PFuel).
    { intros t acc' Ht. apply IH.
      pose proof (Tail_len _ _ Ht). unfold JS.len in *; simpl in Hn; lia. }
    simpl.
    destruct (Ascii.eqb c JS.dquote); [discriminate|].
    destruct (Ascii.eqb c "\").
    2:{ destruct (JS.code c <? 32); [discriminate|].
        apply Hstep; auto with text. }
    destruct s as [|e s2]; [discriminate|].
    repeat match goal with
           | |- (if ?b then _ else _) <> _ =>
               destruct b; [ first [ apply Hstep; auto with text ] | ]
           end.
    destruct (Ascii.eqb e "u"); [|discriminate].
    destruct s2 as [|h1 [|h2 [|h3 [|h4 s5]]]]; try discriminate.
    destruct (Json.hex_val h1), (Json.hex_val h2), (Json.hex_val h3),
      (Json.hex_val h4); try discriminate.
    match goal with
    | |- (if ?b then _ else _) <> _ => destruct b; [|discriminate]
    end.
    apply Hstep. auto 10 with text.
Qed.

Lemma literal_Tail (word : string) (v v' : JSValue) (c : ascii)
    (rest r : string) :
  Json.literal word v (String c rest) = Json.POk v' r ->
  word <> EmptyString ->
  v' = v /\ Tail r (String c rest) /\ JS.len r < JS.len (String c rest).
Proof.
  unfold Json.literal. intros H Hw.
  destruct (JS.starts_with word (String c rest)); [|discriminate].
  inversion H; subst. split; [reflexivity|].
  destruct word as [|a word]; [congruence|].
  change (JS.drop (JS.len (String a word)) (String c rest))
    with (JS.drop (JS.len word) rest).
  pose proof (drop_Tail (JS.len word) rest) as T.
  split; [auto with text | apply Tail_String_len; exact T].
Qed.

(** An opening bracket is found through the white space before it, and a
    closing bracket after it gives the pattern its match. *)
Lemma bracket_found (s rest : string) :
  Json.skip_ws s = String "[" rest ->
  JS.mem "]" rest = true ->
  JS.match_bracketed s <> None.
Proof.
  intros Hs Hm. unfold JS.match_bracketed.
  rewrite (from_first_drop_while Json.is_ws "[" s) by reflexivity.
  fold (Json.skip_ws s). rewrite Hs. simpl JS.from_first.
  apply upto_last_mem. simpl. exact Hm.
Qed.

(** What a successful read tells: the text left is a strictly shorter tail
    of the text read; an array was read from a text in which the pattern
    of the parsers matches; the items of an array end at a closing
    bracket; the members of an object make no array. *)
Lemma parse_shape (fuel : nat) :
  (forall s v r,
      Json.parse_value fuel s = Json.POk v r ->
      Tail r s /\ JS.len r < JS.len s
      /\ (Val.isArray v = true -> JS.match_bracketed s <> None))
  /\ (forall acc s v r,
      Json.parse_elements fuel acc s = Json.POk v r ->
      Tail r s /\ JS.len r < JS.len s /\ JS.mem "]" s = true)
  /\ (forall acc s v r,
      Json.parse_members fuel acc s = Json.POk v r ->
      Tail r s /\ JS.len r < JS.len s /\ Val.isArray v = false).
Proof.
  induction fuel as [|f [IHv [IHe IHm]]].
  - repeat split; intros; discriminate.
  - assert (Hskip : forall s c rest r,
              Json.skip_ws s = String c rest -> Tail r rest ->
              Tail r s /\ JS.len r < JS.len s).
    { intros s c rest r Hs Hr.
      pose proof (skip_ws_Tail s) as Ht. rewrite Hs in Ht.
      split; [eauto using Tail_trans with text|].
      apply Tail_len in Ht. apply Tail_len in Hr.
      unfold JS.len in *. simpl in *. lia. }
    split; [|split].
    + (* a value *)
      intros s v r H. simpl in H.
      destruct (Json.skip_ws s) as [|c rest] eqn:Hs; [discriminate|].
      destruct (Ascii.eqb c "[") eqn:Ebr.
      { apply Ascii.eqb_eq in Ebr. subst c.
        destruct (Json.skip_ws rest) as [|c' rest'] eqn:Hs'; [discriminate|].
        destruct (Ascii.eqb c' "]") eqn:Ecl.
        - apply Ascii.eqb_eq in Ecl. subst c'. inversion H; subst.
          pose proof (skip_ws_Tail rest) as Ht. rewrite Hs' in Ht.
          assert (Tail r rest) by eauto using Tail_trans with text.
          destruct (Hskip s "["%char rest r Hs) as [T L]; auto.
          repeat split; auto. intros _.
          eapply bracket_found; eauto.
          apply (Tail_mem _ _ _ Ht). reflexivity.
        - apply IHe in H. destruct H as [T [L M]].
          destruct (Hskip s "["%char rest r Hs T) as [T' L'].
          repeat split; auto. intros _.
          eapply bracket_found; eauto. }
      destruct (Ascii.eqb c "{").
      { destruct (Json.skip_ws rest) as [|c' rest'] eqn:Hs'; [discriminate|].
        destruct (Ascii.eqb c' "}").
        - inversion H; subst.
          pose proof (skip_ws_Tail rest) as Ht. rewrite Hs' in Ht.
          assert (Tail r rest) by eauto using Tail_trans with text.
          destruct (Hskip s c rest r Hs) as [T L]; auto.
          repeat split; auto. simpl. discriminate.
        - apply IHm in H. destruct H as [T [L A]].
          destruct (Hskip s c rest r Hs T) as [T' L'].
          repeat split; auto. rewrite A. discriminate. }
      destruct (Ascii.eqb c JS.dquote).
      { destruct (Json.parse_string_body EmptyString rest) as [str r0| | |]
          eqn:B; try discriminate.
        inversion H; subst.
        apply (parse_string_body_Tail (JS.len rest)) in B; [|lia].
        destruct B as [T L].
        destruct (Hskip s c rest r Hs T) as [T' L'].
        repeat split; auto. simpl. discriminate. }
      destruct (Ascii.eqb c "-" || Json.is_digit c).
      { destruct (Json.parse_number (String c rest)) as [n r0| | |] eqn:N;
          try discriminate.
        inversion H; subst.
        apply parse_number_Tail in N. destruct N as [T L].
        pose proof (skip_ws_Tail s) as Ht. rewrite Hs in Ht.
        repeat split.
        - exact (Tail_trans _ _ _ T Ht).
        - apply Tail_len in Ht. lia.
        - simpl. discriminate. }
      assert (Hlit : forall word v0,
                Json.literal word v0 (String c rest) = Json.POk v r ->
                word <> EmptyString -> Val.isArray v0 = false ->
                Tail r s /\ JS.len r < JS.len s
                /\ (Val.isArray v = true -> JS.match_bracketed s <> None)).
      { intros word v0 Hl Hw Ha.
        apply literal_Tail in Hl; auto. destruct Hl as [-> [T L]].
        pose proof (skip_ws_Tail s) as Ht. rewrite Hs in Ht.
        repeat split.
        - exact (Tail_trans _ _ _ T Ht).
        - apply Tail_len in Ht. lia.
        - rewrite Ha. discriminate. }
      destruct (Ascii.eqb c "t"); [eapply Hlit; eauto; discriminate|].
      destruct (Ascii.eqb c "f"); [eapply Hlit; eauto; discriminate|].
      destruct (Ascii.eqb c "n"); [eapply Hlit; eauto; discriminate|].
      discriminate.
    + (* the items of an array *)
      intros acc s v r H. simpl in H.
      destruct (Json.parse_value f s) as [v0 r0| | |] eqn:V; try discriminate.
      apply IHv in V. destruct V as [T0 [L0 _]].
      destruct (Json.skip_ws r0) as [|c r1] eqn:Hs; [discriminate|].
      pose proof (skip_ws_Tail r0) as Ht. rewrite Hs in Ht.
      destruct (Ascii.eqb c ",").
      { apply IHe in H. destruct H as [T [L M]].
        assert (Tail r s) by eauto 6 using Tail_trans with text.
        repeat split; auto.
        - apply Tail_len in Ht. unfold JS.len in *. simpl in *. lia.
        - eapply Tail_mem; [|exact M]. eauto 6 using Tail_trans with text. }
      destruct (Ascii.eqb c "]") eqn:Ecl; [|discriminate].
      apply Ascii.eqb_eq in Ecl. subst c. inversion H; subst.
      repeat split.
      * eauto 6 using Tail_trans with text.
      * apply Tail_len in Ht. unfold JS.len in *. simpl in *. lia.
      * eapply Tail_mem; [exact (Tail_trans _ _ _ Ht T0)|]. reflexivity.
    + (* the members of an object *)
      intros acc s v r H. simpl in H.
      destruct (Json.skip_ws s) as [|q r0] eqn:Hs; [discriminate|].
      destruct (Ascii.eqb q JS.dquote); [|discriminate].
      destruct (Json.parse_string_body EmptyString r0) as [key r1| | |] eqn:B;
        try discriminate.
      apply (parse_string_body_Tail (JS.len r0)) in B; [|lia].
      destruct B as [T1 L1].
      destruct (Json.skip_ws r1) as [|colon r2] eqn:Hs1; [discriminate|].
      pose proof (skip_ws_Tail r1) as Ht1. rewrite Hs1 in Ht1.
      destruct (Ascii.eqb colon ":"); [|discriminate].
      destruct (Json.parse_value f r2) as [v0 r3| | |] eqn:V; try discriminate.
      apply IHv in V. destruct V as [T3 [L3 _]].
      destruct (Json.skip_ws r3) as [|c r4] eqn:Hs3; [discriminate|].
      pose proof (skip_ws_Tail r3) as Ht3. rewrite Hs3 in Ht3.
      assert (T4 : Tail r4 r0)
        by eauto 10 using Tail_trans with text.
      destruct (Hskip s q r0 r4 Hs T4) as [T L].
      destruct (Ascii.eqb c ",").
      { apply IHm in H. destruct H as [T' [L' A]].
        repeat split; auto.
        - eauto using Tail_trans.
        - lia. }
      destruct (Ascii.eqb c "}"); [|discriminate].
      inversion H; subst. repeat split; auto.
Qed.

(** The fuel [parse] gives is never used up. *)
Lemma parse_value_fuel (fuel : nat) :
  (forall s, 2 * JS.len s < fuel -> Json.parse_value fuel s <> Json.PFuel)
  /\ (forall acc s, 2 * JS.len s + 1 < fuel ->
        Json.parse_elements fuel acc s <> Json.PFuel)
  /\ (forall acc s, 2 * JS.len s + 1 < fuel ->
        Json.parse_members fuel acc s <> Json.PFuel).
Proof.
  induction fuel as [|f [IHv [IHe IHm]]].
  - repeat split; intros; lia.
  - split; [|split].
    + intros s Hf. simpl.
      destruct (Json.skip_ws s) as [|c rest] eqn:Hs; [discriminate|].
      pose proof (skip_ws_Tail s) as Ht. rewrite Hs in Ht.
      apply Tail_len in Ht. unfold JS.len in Ht. simpl in Ht.
      destruct (Ascii.eqb c "[").
      { destruct (Json.skip_ws rest) as [|c' rest']; [discriminate|].
        destruct (Ascii.eqb c' "]"); [discriminate|].
        apply IHe. unfold JS.len in *. lia. }
      destruct (Ascii.eqb c "{").
      { destruct (Json.skip_ws rest) as [|c' rest']; [discriminate|].
        destruct (Ascii.eqb c' "}"); [discriminate|].
        apply IHm. unfold JS.len in *. lia. }
      destruct (Ascii.eqb c JS.dquote).
      { pose proof (parse_string_body_fuel (JS.len rest) rest EmptyString
                      (le_n _)) as B.
        destruct (Json.parse_string_body EmptyString rest);
          try discriminate; congruence. }
      destruct (Ascii.eqb c "-" || Json.is_digit c).
      { pose proof (parse_number_fuel (String c rest)) as N.
        destruct (Json.parse_number (String c rest));
          try discriminate; congruence. }
      unfold Json.literal.
      repeat match goal with
             | |- (if ?b then _ else _) <> _ => destruct b
             end; discriminate.
    + intros acc s Hf. simpl.
      pose proof (IHv s ltac:(lia)) as V.
      destruct (Json.parse_value f s) as [v0 r0| | |] eqn:E;
        try discriminate; [|congruence].
      apply (proj1 (parse_shape f)) in E. destruct E as [_ [L _]].
      destruct (Json.skip_ws r0) as [|c r1] eqn:Hs; [discriminate|].
      pose proof (skip_ws_Tail r0) as Ht. rewrite Hs in Ht.
      apply Tail_len in Ht. unfold JS.len in *. simpl in Ht.
      destruct (Ascii.eqb c ","); [apply IHe; lia|].
      destruct (Ascii.eqb c "]"); discriminate.
    + intros acc s Hf. simpl.
      destruct (Json.skip_ws s) as [|q r0] eqn:Hs; [discriminate|].
      pose proof (skip_ws_Tail s) as Ht. rewrite Hs in Ht.
      apply Tail_len in Ht. unfold JS.len in Ht. simpl in Ht.
      destruct (Ascii.eqb q JS.dquote); [|discriminate].
      pose proof (parse_string_body_fuel (JS.len r0) r0 EmptyString
                    (le_n _)) as B.
      destruct (Json.parse_string_body EmptyString r0) as [key r1| | |] eqn:E;
        try discriminate; [|congruence].
      apply (parse_string_body_Tail (JS.len r0)) in E; [|lia].
      destruct E as [_ L1].
      destruct (Json.skip_ws r1) as [|colon r2] eqn:Hs1; [discriminate|].
      pose proof (skip_ws_Tail r1) as Ht1. rewrite Hs1 in Ht1.
      apply Tail_len in Ht1. unfold JS.len in *. simpl in Ht1.
      destruct (Ascii.eqb colon ":"); [|discriminate].
      pose proof (IHv r2 ltac:(lia)) as V.
      destruct (Json.parse_value f r2) as [v0 r3| | |] eqn:E3;
        try discriminate; [|congruence].
      apply (proj1 (parse_shape f)) in E3. destruct E3 as [_ [L3 _]].
      destruct (Json.skip_ws r3) as [|c r4] eqn:Hs3; [discriminate|].
      pose proof (skip_ws_Tail r3) as Ht3. rewrite Hs3 in Ht3.
      apply Tail_len in Ht3. unfold JS.len in *. simpl in Ht3.
      destruct (Ascii.eqb c ","); [apply IHm; lia|].
      destruct (Ascii.eqb c "}"); discriminate.
Qed.

(** [JSON.parse] leaves the fragment covered only through a string
    escape: its recursion never runs out of fuel. *)
Lemma parse_never_out_of_fuel (s : string) :
  Json.parse_value (2 * JS.len s + 1) s <> Json.PFuel.
Proof. apply (proj1 (parse_value_fuel _)). lia. Qed.

(** A text that [JSON.parse] reads as an array has an opening bracket and
    a closing bracket after it. *)
Lemma parse_array_bracketed (s : string) (items : list JSValue) :
  Json.parse s = Ok (JArr items) -> JS.match_bracketed s <> None.
Proof.
  unfold Json.parse. intros H.
  destruct (Json.parse_value (2 * JS.len s + 1) s) as [v r| | |] eqn:E;
    try discriminate.
  destruct (Json.skip_ws r); [|discriminate].
  inversion H; subst.
  apply (proj1 (parse_shape _)) in E. destruct E as [_ [_ A]].
  apply A. reflexivity.
Qed.

End JsonFacts.

(** * The response parsers *)

Module ParserFacts.
Import AIService.
Import Spec.

Lemma Subseq_refl {A} (xs : list A) : Subseq xs xs.
Proof. induction xs; [apply Subseq_nil | apply Subseq_keep; assumption]. Qed.

Lemma Subseq_nil_l {A} (ys : list A) : Subseq [] ys.
Proof. induction ys; [apply Subseq_nil | apply Subseq_skip; assumption]. Qed.

Lemma Subseq_trans {A} (xs ys zs : list A) :
  Subseq xs ys -> Subseq ys zs -> Subseq xs zs.
Proof.
  intros H1 H2. revert xs H1.
  induction H2; intros xs0 H1.
  - exact H1.
  - apply Subseq_skip. auto.
  - inversion H1; subst.
    + apply Subseq_skip. auto.
    + apply Subseq_keep. auto.
Qed.

Lemma Subseq_firstn {A} (n : nat) (xs : list A) : Subseq (firstn n xs) xs.
Proof.
  revert n. induction xs as [|x xs IH]; intros [|n]; simpl.
  - apply Subseq_nil.
  - apply Subseq_nil.
  - apply Subseq_nil_l.
  - apply Subseq_keep. apply IH.
Qed.

Lemma Subseq_filter {A} (p : A -> bool) (xs : list A) :
  Subseq (filter p xs) xs.
Proof.
  induction xs as [|x xs IH]; simpl; [apply Subseq_nil|].
  destruct (p x); [apply Subseq_keep | apply Subseq_skip]; exact IH.
Qed.

Lemma Subseq_In {A} (xs ys : list A) (x : A) :
  Subseq xs ys -> In x xs -> In x ys.
Proof.
  induction 1; simpl; intuition.
Qed.

(** A filtering that ends has kept exactly the entries the predicate
    accepts. *)
Lemma filterR_filter {A} (p : A -> Result bool) (xs kept : list A) :
  filterR p xs = Ok kept -> kept = filter (keeps p) xs.
Proof.
  revert kept. induction xs as [|x xs IH]; simpl; intros kept H.
  - inversion H; reflexivity.
  - unfold keeps at 1. destruct (p x) as [b|e]; simpl in H; [|discriminate].
    destruct (filterR p xs) as [kept'|e]; simpl in H; [|discriminate].
    inversion H; subst. rewrite (IH kept' eq_refl). reflexivity.
Qed.

(** It ends when the predicate throws on no entry. *)
Lemma filterR_total {A} (p : A -> Result bool) (xs : list A) :
  (forall x, In x xs -> exists b, p x = Ok b) ->
  filterR p xs = Ok (filter (keeps p) xs).
Proof.
  induction xs as [|x xs IH]; simpl; intros H; [reflexivity|].
  destruct (H x (or_introl eq_refl)) as [b Hb].
  unfold keeps at 1. rewrite Hb. simpl.
  rewrite IH by auto. simpl. reflexivity.
Qed.

(** What an accepted quiz entry has. *)
Lemma valid_question_accepts (q : JSValue) :
  valid_question q = Ok true ->
  Val.truthy (Val.get_opt q "question") = true
  /\ array_length_is (Val.get_opt q "options") 4 = true
  /\ number_in_0_4 (Val.get_opt q "correctIndex") = true.
Proof.
  unfold valid_question, Val.get_opt.
  destruct (Val.get q "question") as [question|e] eqn:Eq; simpl; [|discriminate].
  destruct (Val.truthy question) eqn:Tq; simpl; [|discriminate].
  destruct (Val.get q "options") as [options|e] eqn:Eo; simpl; [|discriminate].
  destruct (Val.truthy options); simpl; [|discriminate].
  destruct (Val.isArray options); simpl; [|discriminate].
  destruct (array_length_is options 4); simpl; [|discriminate].
  destruct (Val.get q "correctIndex") as [ci|e] eqn:Ec; simpl; [|discriminate].
  intros H. injection H as H1.
  apply andb_true_iff in H1. destruct H1 as [_ H1].
  repeat split; auto.
Qed.

(** The filter throws on [null] only: every other entry of a parsed array
    is accepted or left out. *)
Lemma valid_question_defined (q : JSValue) :
  q <> JNull -> q <> JUndefined -> exists b, valid_question q = Ok b.
Proof.
  intros Hnull Hundef. unfold valid_question.
  assert (Hget : forall key, exists v, Val.get q key = Ok v).
  { intros key. destruct q; simpl; try congruence; eauto.
    destruct (Val.lookup key fields); eauto. }
  destruct (Hget "question") as [question ->].
  destruct (Hget "options") as [options ->].
  destruct (Hget "correctIndex") as [correctIndex ->].
  simpl.
  repeat match goal with
         | |- exists b, (if ?c then _ else _) = Ok b => destruct c
         end; eauto.
Qed.

Lemma quiz_filter_ends (items : list JSValue) :
  (forall q, In q items -> q <> JNull /\ q <> JUndefined) ->
  filterR valid_question items = Ok (filter (keeps valid_question) items).
Proof.
  intros H. apply filterR_total. intros q Hq.
  destruct (H q Hq). apply valid_question_defined; assumption.
Qed.

(** What an accepted card has. *)
Lemma valid_card_accepts (card : JSValue) :
  valid_card card = Ok true ->
  (exists s, Val.get_opt card "front" = JStr s /\ s <> EmptyString)
  /\ (exists s, Val.get_opt card "back" = JStr s /\ s <> EmptyString).
Proof.
  unfold valid_card, Val.get_opt.
  destruct (Val.get card "front") as [front|e] eqn:Ef; simpl; [|discriminate].
  destruct (Val.truthy front) eqn:Tf; simpl; [|discriminate].
  destruct (Val.get card "back") as [back|e] eqn:Eb; simpl; [|discriminate].
  destruct (Val.truthy back) eqn:Tb; simpl; [|discriminate].
  intros H. injection H as H1.
  apply andb_true_iff in H1. destruct H1 as [H1 H2].
  destruct front; try discriminate. destruct back; try discriminate.
  simpl in Tf, Tb.
  split; eexists; split; try reflexivity; intros ->; discriminate.
Qed.

Lemma questions_of_parsed_result (items result : list JSValue) :
  questions_of_parsed (JArr items) = Ok result ->
  result = firstn 4 (filter (keeps valid_question) items).
Proof.
  unfold questions_of_parsed. intros H.
  destruct (filterR valid_question items) as [kept|e] eqn:F; simpl in H;
    [|discriminate].
  destruct (0 <? length kept); [|discriminate].
  apply filterR_filter in F. inversion H; subst. reflexivity.
Qed.

Lemma cards_of_parsed_result (items result : list JSValue) :
  cards_of_parsed (JArr items) = Ok result ->
  result = firstn 5 (filter (keeps valid_card) items).
Proof.
  unfold cards_of_parsed. intros H.
  destruct (filterR valid_card items) as [kept|e] eqn:F; simpl in H;
    [|discriminate].
  destruct (0 <? length kept); [|discriminate].
  apply filterR_filter in F. inversion H; subst. reflexivity.
Qed.

(** C6. For every parsed array of quiz entries, an entry whose options are
    not an array of exactly 4 items, or whose correctIndex is not a number
    in [0,4), or whose question is empty or missing, is not in the result;
    and the result is the parsed array with entries left out: the entries
    kept are unchanged and in their order. *)
Theorem quiz_filter_excludes_and_never_repairs
    (items result : list JSValue) :
  questions_of_parsed (JArr items) = Ok result ->
  Subseq result items
  /\ forall q,
       In q items ->
       array_length_is (Val.get_opt q "options") 4 = false
       \/ number_in_0_4 (Val.get_opt q "correctIndex") = false
       \/ Val.get_opt q "question" = JStr EmptyString
       \/ Val.get_opt q "question" = JUndefined ->
       ~ In q result.
Proof.
  intros H. apply questions_of_parsed_result in H. subst result.
  split.
  - eapply Subseq_trans; [apply Subseq_firstn | apply Subseq_filter].
  - intros q _ Hbad Hin.
    apply (Subseq_In _ _ _ (Subseq_firstn _ _)) in Hin.
    apply filter_In in Hin. destruct Hin as [_ Hk].
    unfold keeps in Hk.
    destruct (valid_question q) as [b|e] eqn:V; [|discriminate].
    subst b. apply valid_question_accepts in V.
    destruct V as [Tq [To Tc]].
    destruct Hbad as [B|[B|[B|B]]]; try congruence;
      rewrite B in Tq; discriminate.
Qed.

(** The filter on five entries of which one is valid. *)
Lemma quiz_filter_excludes_witness :
  questions_of_parsed
    (JArr [three_options; good_entry; index_seven; index_as_text;
           empty_question]) = Ok [good_entry]
  /\ (Subseq [good_entry]
        [three_options; good_entry; index_seven; index_as_text;
         empty_question]
      /\ forall q,
           In q [three_options; good_entry; index_seven; index_as_text;
                 empty_question] ->
           array_length_is (Val.get_opt q "options") 4 = false
           \/ number_in_0_4 (Val.get_opt q "correctIndex") = false
           \/ Val.get_opt q "question" = JStr EmptyString
           \/ Val.get_opt q "question" = JUndefined ->
           ~ In q [good_entry]).
Proof.
  split; [reflexivity|].
  apply (quiz_filter_excludes_and_never_repairs
           [three_options; good_entry; index_seven; index_as_text;
            empty_question] [good_entry]).
  reflexivity.
Defined.

(** C9. What a parser returns is the first 4 (quiz) or the first 5
    (flashcards) of the entries of the parsed array that pass its filter,
    in the order of the array: at most 4, at most 5. *)
Theorem parsers_truncate_in_order (this : AIService) (response : JSValue)
    (result : list JSValue) :
  (parseQuizResponse this response = Ok result ->
   exists items,
     parsed_items response = Some items
     /\ result = firstn 4 (filter (keeps valid_question) items)
     /\ length result <= 4
     /\ Subseq result items)
  /\ (parseFlashcardResponse this response = Ok result ->
      exists items,
        parsed_items response = Some items
        /\ result = firstn 5 (filter (keeps valid_card) items)
        /\ length result <= 5
        /\ Subseq result items).
Proof.
  unfold parseQuizResponse, parseFlashcardResponse, parsed_items.
  destruct (clean_response response) as [text|e]; simpl;
    [|split; discriminate].
  destruct (Json.parse text) as [parsed|e]; simpl; [|split; discriminate].
  split; intros H.
  - destruct parsed; try discriminate.
    exists items. apply questions_of_parsed_result in H. subst result.
    repeat split.
    + apply firstn_le_length.
    + eapply Subseq_trans; [apply Subseq_firstn | apply Subseq_filter].
  - destruct parsed; try discriminate.
    exists items. apply cards_of_parsed_result in H. subst result.
    repeat split.
    + apply firstn_le_length.
    + eapply Subseq_trans; [apply Subseq_firstn | apply Subseq_filter].
Qed.

(** Five valid questions give four, six valid cards give five. *)
Lemma parsers_truncate_witness :
  (parseQuizResponse no_keys (JStr five_questions)
   = Ok (map question_value ["Q1"; "Q2"; "Q3"; "Q4"])
   /\ exists items,
        parsed_items (JStr five_questions) = Some items
        /\ map question_value ["Q1"; "Q2"; "Q3"; "Q4"]
           = firstn 4 (filter (keeps valid_question) items)
        /\ length (map question_value ["Q1"; "Q2"; "Q3"; "Q4"]) <= 4
        /\ Subseq (map question_value ["Q1"; "Q2"; "Q3"; "Q4"]) items)
  /\ (parseFlashcardResponse no_keys (JStr six_cards)
      = Ok (map card_value ["F1"; "F2"; "F3"; "F4"; "F5"])
      /\ exists items,
           parsed_items (JStr six_cards) = Some items
           /\ map card_value ["F1"; "F2"; "F3"; "F4"; "F5"]
              = firstn 5 (filter (keeps valid_card) items)
           /\ length (map card_value ["F1"; "F2"; "F3"; "F4"; "F5"]) <= 5
           /\ Subseq (map card_value ["F1"; "F2"; "F3"; "F4"; "F5"]) items).
Proof.
  split; (split; [vm_compute; reflexivity|]).
  - apply (proj1 (parsers_truncate_in_order no_keys (JStr five_questions)
                    (map question_value ["Q1"; "Q2"; "Q3"; "Q4"]))).
    vm_compute. reflexivity.
  - apply (proj2 (parsers_truncate_in_order no_keys (JStr six_cards)
                    (map card_value ["F1"; "F2"; "F3"; "F4"; "F5"]))).
    vm_compute. reflexivity.
Defined.

(** With no bracketed part the parser goes on with the whole cleaned text. *)
Lemma clean_response_unbracketed (text : string) :
  JS.match_bracketed (strip_fences (JS.trim text)) = None ->
  clean_response (JStr text) = Ok (strip_fences (JS.trim text)).
Proof.
  intros H. unfold clean_response. simpl. rewrite H. reflexivity.
Qed.

(** C3, as stated, fails.  Were there an error kind of its own for a text
    with no bracketed part, some test on the error thrown would hold for
    every such text and fail for every text that has a bracketed part.
    But [null] (no bracket) is handed to [JSON.parse], parses, and is
    refused with the very error that the empty array [[]] gets. *)
Lemma unbracketed_text_error_counterexample :
  ~ (exists isNoStructuredPayload : JSError -> bool,
       (forall text,
           JS.match_bracketed (strip_fences (JS.trim text)) = None ->
           exists e, parseQuizResponse no_keys (JStr text) = Throw e
                     /\ isNoStructuredPayload e = true)
       /\ (forall text e,
           JS.match_bracketed (strip_fences (JS.trim text)) <> None ->
           parseQuizResponse no_keys (JStr text) = Throw e ->
           isNoStructuredPayload e = false)).
Proof.
  intros [test [Hno Hyes]].
  destruct (Hno "null" eq_refl) as [e [He Ht]].
  vm_compute in He. inversion He; subst e.
  assert (Hf : test (Error "No valid questions found") = false).
  { apply (Hyes "[]"); [discriminate | reflexivity]. }
  congruence.
Qed.

(** C3, amended. For every provider text that has no bracketed part after
    the fences are stripped, the parser hands the whole cleaned text to
    [JSON.parse] and fails: with the error of [JSON.parse] when the text is
    not JSON, and with "No valid questions found" when it is (the value
    parsed is then not an array). *)
Theorem unbracketed_text_is_parsed_then_refused (this : AIService)
    (text : string) :
  JS.match_bracketed (strip_fences (JS.trim text)) = None ->
  parseQuizResponse this (JStr text) =
    match Json.parse (strip_fences (JS.trim text)) with
    | Ok _ => Throw (Error "No valid questions found")
    | Throw e => Throw e
    end.
Proof.
  intros H. unfold parseQuizResponse.
  rewrite (clean_response_unbracketed text H). simpl.
  destruct (Json.parse (strip_fences (JS.trim text))) as [parsed|e] eqn:P;
    simpl; [|reflexivity].
  destruct parsed; try reflexivity.
  apply JsonFacts.parse_array_bracketed in P. congruence.
Qed.

(** A fenced number is parsed and refused. *)
Lemma unbracketed_text_witness :
  JS.match_bracketed (strip_fences (JS.trim fenced_number)) = None
  /\ parseQuizResponse no_keys (JStr fenced_number)
     = Throw (Error "No valid questions found").
Proof.
  split; [reflexivity|].
  exact (unbracketed_text_is_parsed_then_refused no_keys fenced_number
           eq_refl).
Defined.

End ParserFacts.

(** * The fallback orchestrator *)

Module OrchestratorFacts.
Import AIService.
Import Spec.
Local Open Scope list_scope.

(** ** One attempt *)

Lemma ok_not_rate_limited (r : Response) :
  ok r = true -> (status r =? 429) = false.
Proof.
  unfold ok. intros H. apply andb_true_iff in H. destruct H as [_ H].
  apply Nat.leb_le in H. apply Nat.eqb_neq. lia.
Qed.

Lemma retry_events_0 (prompt : string) (delay from : nat) :
  retry_events prompt delay from 0 = [EvFetch Gemini prompt].
Proof. reflexivity. Qed.

Lemma retry_events_S (prompt : string) (delay from k : nat) :
  retry_events prompt delay from (S k)
  = EvFetch Gemini prompt :: EvSleep (delay * (from + 1))
      :: retry_events prompt delay (S from) k.
Proof. reflexivity. Qed.

(** What a Gemini call does to the world: it is retried once for each
    leading rate-limit response while [retryCount] is below 2, and it
    throws when the responses are rate limits to the end. *)
Lemma gemini_run (this : AIService) (prompt : string) (k : nat) :
  configured (googleApiKey this) = true ->
  forall retryCount w,
    2 - retryCount = k ->
    let j := Nat.min (leading_rate_limits (gemini_script w))
                     (2 - retryCount) in
    snd (makeGeminiRequest this prompt retryCount w)
    = after_gemini w (S j)
        (retry_events prompt (requestDelay this) retryCount j)
    /\ (2 - retryCount < leading_rate_limits (gemini_script w) ->
        exists e, fst (makeGeminiRequest this prompt retryCount w) = Throw e).
Proof.
  intros Hkey. induction k as [|k IH]; intros rc w Hk.
  - (* no retry left *)
    rewrite makeGeminiRequest_equation_1. rewrite Hkey. simpl negb. cbv iota.
    rewrite Hk. rewrite Nat.min_0_r. cbv zeta.
    unfold bind, fetch. simpl.
    destruct (gemini_script w) as [|[|r] rest] eqn:Hg; simpl.
    + split; [unfold after_gemini, emit, set_script; simpl; rewrite ?Hg; reflexivity | lia].
    + split; [unfold after_gemini, emit, set_script; simpl; rewrite ?Hg; reflexivity | lia].
    + destruct (ok r) eqn:Hok; simpl; rewrite ?Hok; simpl.
      * split; [unfold after_gemini, emit, set_script; simpl; rewrite ?Hg; reflexivity|].
        rewrite (ok_not_rate_limited r Hok). lia.
      * destruct (Nat.eq_dec (status r) 429) as [E|E].
        -- destruct (lt_dec rc 2) as [L|L]; [lia|].
           split; [unfold after_gemini, emit, set_script; simpl; rewrite ?Hg; reflexivity|].
           intros _. unfold lift, api_error. simpl.
           destruct (Val.get (json_or_empty r) "error"); simpl; eauto.
        -- split; [unfold after_gemini, emit, set_script; simpl; rewrite ?Hg; reflexivity|].
           apply Nat.eqb_neq in E. rewrite E. lia.
  - (* a retry is left *)
    assert (Hrc : rc < 2) by lia.
    assert (Hk' : 2 - (rc + 1) = k) by lia.
    rewrite makeGeminiRequest_equation_1. rewrite Hkey. simpl negb. cbv iota.
    cbv zeta. rewrite Hk.
    unfold bind, fetch, sleep. simpl.
    destruct (gemini_script w) as [|[|r] rest] eqn:Hg; simpl.
    + split; [unfold after_gemini, emit, set_script; simpl; rewrite ?Hg; reflexivity | lia].
    + split; [unfold after_gemini, emit, set_script; simpl; rewrite ?Hg; reflexivity | lia].
    + destruct (ok r) eqn:Hok; simpl; rewrite ?Hok; simpl.
      * rewrite (ok_not_rate_limited r Hok). simpl.
        split; [unfold after_gemini, emit, set_script; simpl; rewrite ?Hg; reflexivity | lia].
      * destruct (Nat.eq_dec (status r) 429) as [E|E].
        -- destruct (lt_dec rc 2) as [L|L]; [|lia].
           rewrite E. simpl Nat.eqb. cbv iota.
           match goal with
           | |- context [makeGeminiRequest this prompt (rc + 1) ?w1] =>
               destruct (IH (rc + 1) w1 Hk') as [IHw IHt];
               cbv zeta in IHw; rewrite Hk' in IHw, IHt;
               simpl gemini_script in IHw, IHt
           end.
           simpl Nat.min.
           split.
           ++ rewrite IHw. rewrite retry_events_S.
              unfold after_gemini, emit. simpl.
              replace (rc + 1) with (S rc) by lia. rewrite Hg. simpl.
              f_equal. rewrite <- !app_assoc. reflexivity.
           ++ intros Hl. apply IHt. lia.
        -- apply Nat.eqb_neq in E. rewrite E. simpl.
           split; [unfold after_gemini, emit, set_script; simpl; rewrite ?Hg; reflexivity | lia].
Qed.

(** A call of Groq or Cohere fetches once. *)
Lemma groq_run (this : AIService) (prompt : string) (w : World) :
  configured (groqApiKey this) = true ->
  snd (makeGroqRequest this prompt w)
  = set_script (emit w (EvFetch Groq prompt)) Groq (tl (groq_script w)).
Proof.
  intros Hkey. unfold makeGroqRequest. rewrite Hkey. simpl negb. cbv iota.
  unfold bind, fetch. simpl.
  destruct (groq_script w) as [|[|r] rest]; simpl; try reflexivity.
  destruct (ok r); reflexivity.
Qed.

Lemma cohere_run (this : AIService) (prompt : string) (w : World) :
  configured (cohereApiKey this) = true ->
  snd (makeCohereRequest this prompt w)
  = set_script (emit w (EvFetch Cohere prompt)) Cohere (tl (cohere_script w)).
Proof.
  intros Hkey. unfold makeCohereRequest. rewrite Hkey. simpl negb. cbv iota.
  unfold bind, fetch. simpl.
  destruct (cohere_script w) as [|[|r] rest]; simpl; try reflexivity.
  destruct (ok r); reflexivity.
Qed.

Lemma fetched_app (a b : list Event) :
  fetched (a ++ b) = fetched a ++ fetched b.
Proof.
  induction a as [|[p s|ms] a IH]; simpl; congruence.
Qed.

Lemma waits_app (a b : list Event) : waits (a ++ b) = waits a ++ waits b.
Proof.
  induction a as [|[p s|ms] a IH]; simpl; congruence.
Qed.

Lemma fetched_retry_events (prompt : string) (delay from k : nat) :
  fetched (retry_events prompt delay from k) = repeat Gemini (S k).
Proof.
  revert from. induction k as [|k IH]; intros from; [reflexivity|].
  rewrite retry_events_S. simpl. rewrite IH. reflexivity.
Qed.

Lemma waits_retry_events (prompt : string) (delay from k : nat) :
  waits (retry_events prompt delay from k)
  = map (fun i => delay * (i + 1)) (seq from k).
Proof.
  revert from. induction k as [|k IH]; intros from; [reflexivity|].
  rewrite retry_events_S. simpl. rewrite IH. reflexivity.
Qed.

(** The events of a computation that only adds to the trace. *)
Lemma events_extension {A} (m : M A) (w : World) (evs : list Event) :
  trace (snd (m w)) = trace w ++ evs -> events m w = evs.
Proof.
  intros H. unfold events. rewrite H.
  rewrite skipn_app, skipn_all, Nat.sub_diag. reflexivity.
Qed.

(** What one provider call adds to the trace: fetches of that provider
    only, with waits between them for Gemini only. *)
Lemma call_provider_trace (this : AIService) (prompt : string)
    (p : Provider) (w : World) :
  configured (key_of this p) = true ->
  exists evs,
    trace (snd (call_provider this prompt p w)) = trace w ++ evs
    /\ (exists n, fetched evs = repeat p (S n))
    /\ (p <> Gemini -> waits evs = [] /\ fetched evs = [p]).
Proof.
  intros Hkey. destruct p; simpl in *.
  - destruct (gemini_run this prompt _ Hkey 0 w eq_refl) as [Hw _].
    cbv zeta in Hw. rewrite Hw. simpl.
    eexists; split; [reflexivity|]. split.
    + rewrite fetched_retry_events. eexists. reflexivity.
    + congruence.
  - rewrite groq_run by assumption. simpl.
    eexists; split; [reflexivity|]. split; [exists 0; reflexivity|].
    intros _. split; reflexivity.
  - rewrite cohere_run by assumption. simpl.
    eexists; split; [reflexivity|]. split; [exists 0; reflexivity|].
    intros _. split; reflexivity.
Qed.

(** What the spec-level orchestration adds to the trace. *)
Lemma try_in_order_trace (this : AIService) (prompt : string)
    (ps : list Provider) :
  forall w,
  exists evs,
    trace (snd (try_in_order this prompt ps w)) = trace w ++ evs
    /\ (forall p, In p (fetched evs) ->
          In p ps /\ configured (key_of this p) = true)
    /\ (StronglySorted (fun a b => rank a <= rank b) ps ->
        StronglySorted (fun a b => rank a <= rank b) (fetched evs))
    /\ (~ In Gemini ps -> waits evs = [] /\ (NoDup ps -> NoDup (fetched evs))).
Proof.
  induction ps as [|p rest IH]; intros w; simpl.
  - exists []. rewrite app_nil_r. simpl.
    repeat split; auto; try constructor; try contradiction.
  - destruct (configured (key_of this p)) eqn:Hkey.
    + destruct (call_provider_trace this prompt p w Hkey)
        as [evs [Ht [[n Hf] Hw]]].
      unfold try_catch.
      destruct (call_provider this prompt p w) as [[v|e] w1] eqn:Hc;
        simpl in Ht.
      * (* the provider returned: nothing else happens *)
        exists evs. simpl. split; [exact Ht|]. split; [|split].
        -- intros q Hq. rewrite Hf in Hq. apply repeat_spec in Hq. subst q.
           split; [left; reflexivity | exact Hkey].
        -- intros _. rewrite Hf. clear.
           induction (S n) as [|m IHm]; simpl; constructor; auto.
           apply Forall_forall. intros x Hx. apply repeat_spec in Hx.
           subst x. lia.
        -- intros Hn. destruct Hw as [Hw1 Hw2].
           { intros ->. apply Hn. left; reflexivity. }
           split; [exact Hw1|]. intros _. rewrite Hw2.
           constructor; [intros []|constructor].
      * (* it threw: the rest of the list is tried *)
        destruct (IH w1) as [evs' [Ht' [Hin [Hs Hn']]]].
        exists (evs ++ evs'). split; [|split; [|split]].
        -- rewrite Ht', Ht, app_assoc. reflexivity.
        -- intros q Hq. rewrite fetched_app in Hq. apply in_app_or in Hq.
           destruct Hq as [Hq|Hq].
           ++ rewrite Hf in Hq. apply repeat_spec in Hq. subst q.
              split; [left; reflexivity | exact Hkey].
           ++ destruct (Hin q Hq). split; [right|]; assumption.
        -- intros Hsorted. inversion Hsorted as [|? ? Hrest Hall]; subst.
           rewrite fetched_app, Hf.
           specialize (Hs Hrest).
           assert (Hge : Forall (fun b => rank p <= rank b) (fetched evs')).
           { apply Forall_forall. intros q Hq.
             destruct (Hin q Hq) as [Hq' _].
             rewrite Forall_forall in Hall. auto. }
           clear - Hs Hge.
           induction (S n) as [|m IHm]; simpl; [exact Hs|].
           constructor; [exact IHm|].
           apply Forall_app. split; [|exact Hge].
           apply Forall_forall. intros x Hx. apply repeat_spec in Hx.
           subst x. lia.
        -- intros Hn.
           assert (Hp : p <> Gemini).
           { intros ->. apply Hn. left; reflexivity. }
           destruct (Hw Hp) as [Hw1 Hw2].
           destruct Hn' as [Hn1 Hn2].
           { intros HG. apply Hn. right; exact HG. }
           split.
           ++ rewrite waits_app, Hw1, Hn1. reflexivity.
           ++ intros Hnd. inversion Hnd as [|? ? Hnotin Hnd']; subst.
              rewrite fetched_app, Hw2. simpl. constructor; auto.
              intros Hq. destruct (Hin p Hq) as [Hq' _]. contradiction.
    + destruct (IH w) as [evs' [Ht' [Hin [Hs Hn']]]].
      exists evs'. split; [exact Ht'|]. split; [|split].
      * intros q Hq. destruct (Hin q Hq). split; [right|]; assumption.
      * intros Hsorted. inversion Hsorted; subst. auto.
      * intros Hn. destruct Hn' as [Hn1 Hn2].
        { intros HG. apply Hn. right; exact HG. }
        split; [exact Hn1|]. intros Hnd. inversion Hnd; subst. auto.
Qed.

(** [makeRequest] is the orchestration of the specification over the
    declaration order. *)
Lemma makeRequest_try_in_order (this : AIService) (prompt : string)
    (w : World) :
  makeRequest this prompt 0 w
  = try_in_order this prompt [Gemini; Groq; Cohere] w.
Proof.
  unfold makeRequest, try_in_order, try_provider, call_provider, key_of.
  unfold bind, try_catch, ret, throw.
  destruct (configured (googleApiKey this)).
  - destruct (makeGeminiRequest this prompt 0 w) as [[v|e] w1];
      [reflexivity|].
    destruct (configured (groqApiKey this)).
    + destruct (makeGroqRequest this prompt w1) as [[v|e'] w2];
        [reflexivity|].
      destruct (configured (cohereApiKey this)); [|reflexivity].
      destruct (makeCohereRequest this prompt w2) as [[v|e''] w3];
        reflexivity.
    + destruct (configured (cohereApiKey this)); [|reflexivity].
      destruct (makeCohereRequest this prompt w1) as [[v|e''] w3];
        reflexivity.
  - destruct (configured (groqApiKey this)).
    + destruct (makeGroqRequest this prompt w) as [[v|e'] w2];
        [reflexivity|].
      destruct (configured (cohereApiKey this)); [|reflexivity].
      destruct (makeCohereRequest this prompt w2) as [[v|e''] w3];
        reflexivity.
    + destruct (configured (cohereApiKey this)); [|reflexivity].
      destruct (makeCohereRequest this prompt w) as [[v|e''] w3];
        reflexivity.
Qed.

(** The only error of the orchestration. *)
Lemma try_in_order_error (this : AIService) (prompt : string)
    (ps : list Provider) :
  forall w e,
    fst (try_in_order this prompt ps w) = Throw e ->
    e = Error "All AI services failed".
Proof.
  induction ps as [|p rest IH]; intros w e; simpl.
  - intros H. inversion H. reflexivity.
  - destruct (configured (key_of this p)); [|apply IH].
    unfold try_catch.
    destruct (call_provider this prompt p w) as [[v|e'] w1]; simpl.
    + discriminate.
    + apply IH.
Qed.

(** C5. For every request, [makeRequest] is the orchestration of the
    specification over the declaration order Gemini, Groq, Cohere: a
    provider with no credential is skipped, the first provider that returns
    ends the sequence, and when every provider is skipped or fails the
    error is "All AI services failed".  In the trace the providers fetched
    appear in declaration order, and a provider with no credential is never
    fetched; a provider that returns ends the sequence wherever it stands
    in the list; with no credential at all nothing is fetched. *)
Theorem providers_tried_in_declaration_order (this : AIService)
    (prompt : string) (w : World) :
  let run := makeRequest this prompt 0 in
  run w = try_in_order this prompt [Gemini; Groq; Cohere] w
  /\ StronglySorted (fun a b => rank a <= rank b) (fetched (events run w))
  /\ (forall p,
        configured (key_of this p) = false ->
        ~ In p (fetched (events run w)))
  /\ (forall e,
        result run w = Throw e -> e = Error "All AI services failed")
  /\ (forall p rest w0 v w1,
        configured (key_of this p) = true ->
        call_provider this prompt p w0 = (Ok v, w1) ->
        try_in_order this prompt (p :: rest) w0 = (Ok v, w1))
  /\ ((forall p, configured (key_of this p) = false) ->
      run w = (Throw (Error "All AI services failed"), w)).
Proof.
  intros run.
  assert (Hrun : run w = try_in_order this prompt [Gemini; Groq; Cohere] w)
    by apply makeRequest_try_in_order.
  destruct (try_in_order_trace this prompt [Gemini; Groq; Cohere] w)
    as [evs [Ht [Hin [Hs _]]]].
  assert (Hev : events run w = evs).
  { apply events_extension. rewrite Hrun. exact Ht. }
  split; [exact Hrun|]. rewrite Hev. split; [|split; [|split; [|split]]].
  - apply Hs. repeat constructor; simpl; lia.
  - intros p Hp Hq. destruct (Hin p Hq) as [_ Hc]. congruence.
  - intros e He. unfold result in He. rewrite Hrun in He.
    eapply try_in_order_error; eauto.
  - intros p rest w0 v w1 Hp Hc. cbn [try_in_order]. rewrite Hp.
    unfold try_catch. rewrite Hc. reflexivity.
  - intros Hnone. rewrite Hrun. cbn [try_in_order].
    rewrite (Hnone Gemini), (Hnone Groq), (Hnone Cohere). reflexivity.
Qed.

(** The retry policy for any service whose delay is positive. *)
Lemma gemini_retries_general (this : AIService) (prompt : string)
    (w : World) :
  configured (googleApiKey this) = true ->
  0 < requestDelay this ->
  let n := leading_rate_limits (gemini_script w) in
  let k := Nat.min n 2 in
  let evs := events (makeRequest this prompt 0) w in
  exists later,
    evs = retry_events prompt (requestDelay this) 0 k ++ later
    /\ fetched evs = repeat Gemini (S k) ++ fetched later
    /\ k <= 2
    /\ waits evs
       = map (fun retryCount => requestDelay this * (retryCount + 1))
             (seq 0 k)
    /\ StronglySorted lt (waits evs)
    /\ waits later = []
    /\ ~ In Gemini (fetched later)
    /\ NoDup (fetched later)
    /\ (2 < n ->
        makeRequest this prompt 0 w
        = try_in_order this prompt [Groq; Cohere]
            (after_gemini w 3
               (retry_events prompt (requestDelay this) 0 2))).
Proof.
  intros Hkey Hd n k evs.
  destruct (gemini_run this prompt 2 Hkey 0 w eq_refl) as [Hw Hthrow].
  cbv zeta in Hw. change (2 - 0) with 2 in Hw, Hthrow.
  fold n in Hw, Hthrow. fold k in Hw.
  assert (Hk : k <= 2) by (unfold k; lia).
  assert (Hsorted : StronglySorted lt
            (map (fun retryCount => requestDelay this * (retryCount + 1))
                 (seq 0 k))).
  { clear - Hk Hd. remember (requestDelay this) as d.
    destruct k as [|[|[|k']]]; cbn [map seq];
      repeat first [ apply SSorted_nil | apply SSorted_cons
                   | apply Forall_nil | apply Forall_cons ]; lia. }
  assert (Hrun : makeRequest this prompt 0 w
                 = try_in_order this prompt [Gemini; Groq; Cohere] w)
    by apply makeRequest_try_in_order.
  assert (Hstep :
    try_in_order this prompt [Gemini; Groq; Cohere] w
    = match makeGeminiRequest this prompt 0 w with
      | (Ok v, w1) => (Ok v, w1)
      | (Throw _, w1) => try_in_order this prompt [Groq; Cohere] w1
      end).
  { cbn [try_in_order key_of call_provider]. rewrite Hkey.
    unfold try_catch.
    destruct (makeGeminiRequest this prompt 0 w) as [[v|e] w1]; reflexivity. }
  destruct (makeGeminiRequest this prompt 0 w) as [[v|e] w1] eqn:Hg;
    simpl in Hw; subst w1.
  - (* Gemini returned *)
    exists [].
    assert (Hev : evs = retry_events prompt (requestDelay this) 0 k).
    { apply events_extension. rewrite Hrun, Hstep. reflexivity. }
    rewrite Hev, app_nil_r, fetched_retry_events, waits_retry_events.
    cbn [fetched waits]. rewrite app_nil_r.
    repeat split; auto; try constructor.
    intros Hn. destruct (Hthrow Hn) as [e He]. discriminate.
  - (* Gemini threw: Groq and Cohere follow *)
    destruct (try_in_order_trace this prompt [Groq; Cohere]
                (after_gemini w (S k)
                   (retry_events prompt (requestDelay this) 0 k)))
      as [later [Ht [Hin [_ Hrest]]]].
    destruct Hrest as [Hnowait Hnodup].
    { simpl. intros [H|[H|[]]]; discriminate. }
    exists later.
    assert (Hev : evs = retry_events prompt (requestDelay this) 0 k ++ later).
    { apply events_extension. rewrite Hrun, Hstep, Ht.
      unfold after_gemini. cbn [trace]. rewrite app_assoc. reflexivity. }
    rewrite Hev, fetched_app, waits_app, fetched_retry_events,
      waits_retry_events, Hnowait, app_nil_r.
    repeat split; auto.
    + intros HG. destruct (Hin Gemini HG) as [[H|[H|[]]] _]; discriminate.
    + apply Hnodup. repeat constructor; simpl; intuition discriminate.
    + intros Hn. rewrite Hrun, Hstep.
      replace k with 2 by (unfold k; lia). reflexivity.
Qed.

(** C4. When Gemini, the primary provider, answers with rate limits, the
    request retries Gemini once for each of them and at most twice; before
    the retry numbered [retryCount] it waits [requestDelay * (retryCount + 1)]
    milliseconds, so the waits increase strictly; what follows the Gemini
    phase has no wait and fetches Groq and Cohere at most once each; and
    after a third rate limit the request goes on with Groq and Cohere. *)
Theorem gemini_rate_limit_retries (env : Env) (prompt : string) (w : World) :
  let this := constructor env in
  configured (googleApiKey this) = true ->
  let n := leading_rate_limits (gemini_script w) in
  let k := Nat.min n 2 in
  let evs := events (makeRequest this prompt 0) w in
  exists later,
    evs = retry_events prompt (requestDelay this) 0 k ++ later
    /\ fetched evs = repeat Gemini (S k) ++ fetched later
    /\ k <= 2
    /\ waits evs
       = map (fun retryCount => requestDelay this * (retryCount + 1))
             (seq 0 k)
    /\ StronglySorted lt (waits evs)
    /\ waits later = []
    /\ ~ In Gemini (fetched later)
    /\ NoDup (fetched later)
    /\ (2 < n ->
        makeRequest this prompt 0 w
        = try_in_order this prompt [Groq; Cohere]
            (after_gemini w 3
               (retry_events prompt (requestDelay this) 0 2))).
Proof.
  intros this Hkey.
  apply (gemini_retries_general this prompt w Hkey).
  change (requestDelay this) with 2000. lia.
Qed.

(** Four rate limits: two retries, with waits of 2000 and 4000 ms. *)
Lemma gemini_rate_limit_retries_witness :
  configured (googleApiKey (constructor gemini_and_cohere)) = true
  /\ exists later,
       events (makeRequest (constructor gemini_and_cohere) "P" 0)
              throttled_world
       = [EvFetch Gemini "P"; EvSleep 2000; EvFetch Gemini "P"; EvSleep 4000;
          EvFetch Gemini "P"] ++ later
       /\ waits later = [].
Proof.
  split; [reflexivity|].
  destruct (gemini_rate_limit_retries gemini_and_cohere "P" throttled_world
              eq_refl) as [later [H1 [_ [_ [_ [_ [H2 _]]]]]]].
  exists later. split; [exact H1 | exact H2].
Defined.

(** Gemini throttled, Groq without key, Cohere answering. *)
Lemma providers_tried_in_order_witness :
  makeRequest (constructor gemini_and_cohere) "P" 0 throttled_world
  = try_in_order (constructor gemini_and_cohere) "P" [Gemini; Groq; Cohere]
      throttled_world
  /\ fetched (events (makeRequest (constructor gemini_and_cohere) "P" 0)
                     throttled_world)
     = [Gemini; Gemini; Gemini; Cohere]
  /\ result (makeRequest (constructor gemini_and_cohere) "P" 0)
            throttled_world = Ok (JStr "hello").
Proof.
  split; [|split; reflexivity].
  exact (proj1 (providers_tried_in_declaration_order
                  (constructor gemini_and_cohere) "P" throttled_world)).
Defined.

End OrchestratorFacts.

(** * The heuristic fallback generators *)

Module FallbackFacts.
Import AIService.
Import Spec.

(** The loop pads with the generic card up to three cards. *)
Lemma pad_cards_spec (cards : list Flashcard) :
  pad_cards cards = (cards ++ repeat generic_card (3 - length cards))%list.
Proof.
  funelim (pad_cards cards).
  - rewrite H. rewrite length_app. simpl length.
    rewrite <- app_assoc. f_equal.
    replace (3 - length cards) with (S (3 - (length cards + 1))) by lia.
    reflexivity.
  - replace (3 - length cards) with 0 by lia. simpl.
    rewrite app_nil_r. reflexivity.
Qed.

Lemma pad_cards_length (cards : list Flashcard) :
  3 <= length (pad_cards cards).
Proof.
  rewrite pad_cards_spec, length_app, repeat_length. lia.
Qed.

(** [generateFallbackFlashcards] never throws, and returns 3 to 5 cards. *)
Lemma fallback_flashcards_total (this : AIService) (text : string) :
  exists cards,
    generateFallbackFlashcards this text = Ok cards
    /\ 3 <= length cards <= 5.
Proof.
  unfold generateFallbackFlashcards.
  assert (Hlen : forall cards,
            3 <= length (firstn 5 (pad_cards cards)) <= 5).
  { intros cards. rewrite length_firstn.
    pose proof (pad_cards_length cards). lia. }
  destruct (JS.match_sentences text) as [|first rest];
    cbn [length Nat.ltb Nat.leb item nth_error rbind];
    eexists; (split; [reflexivity | apply Hlen]).
Qed.

(** ** Falling back *)

(** With no credential at all the chain fails without a fetch. *)
Lemma no_keys_chain_fails (prompt : string) (w : World) :
  makeRequest no_keys prompt 0 w = (Throw (Error "All AI services failed"), w).
Proof. reflexivity. Qed.

(** In the multi-provider file, a generation operation whose provider
    chain fails returns what the heuristic generator gives for the text. *)
Lemma generation_falls_back (this : AIService) (text level : string)
    (w : World) :
  (chain_fails this (summary_prompt text level) w ->
   result (generateSummary this text level) w
   = Ok (generateFallbackSummary this text level))
  /\ (chain_fails this (quiz_prompt text) (snd (sleep 1000 w)) ->
      result (generateQuiz this text) w
      = Ok (map question_object (generateFallbackQuiz this text)))
  /\ (chain_fails this (flashcard_prompt text) (snd (sleep 1000 w)) ->
      exists cards,
        generateFallbackFlashcards this text = Ok cards
        /\ result (generateFlashcards this text) w
           = Ok (map card_object cards)).
Proof.
  unfold chain_fails, result.
  split; [|split]; intros [e He].
  - unfold generateSummary, try_catch, bind.
    destruct (makeRequest this (summary_prompt text level) 0 w)
      as [[v|e'] w1]; simpl in He; [discriminate|]. reflexivity.
  - unfold generateQuiz, try_catch, bind. simpl in *.
    destruct (makeRequest this (quiz_prompt text) 0 (emit w (EvSleep 1000)))
      as [[v|e'] w1]; simpl in He; [discriminate|]. reflexivity.
  - destruct (fallback_flashcards_total this text) as [cards [Hc _]].
    exists cards. split; [exact Hc|].
    unfold generateFlashcards, try_catch, bind. simpl in *.
    destruct (makeRequest this (flashcard_prompt text) 0
                (emit w (EvSleep 1000)))
      as [[v|e'] w1]; simpl in He; [discriminate|].
    unfold lift. rewrite Hc. reflexivity.
Qed.

(** In the multi-provider file no generation operation throws, whatever
    the providers do and whatever they answer. *)
Lemma generation_never_throws (this : AIService) (text level : string)
    (w : World) :
  (exists summary, result (generateSummary this text level) w = Ok summary)
  /\ (exists quiz, result (generateQuiz this text) w = Ok quiz)
  /\ (exists cards, result (generateFlashcards this text) w = Ok cards).
Proof.
  unfold result. split; [|split].
  - unfold generateSummary, try_catch, bind, lift, ret.
    destruct (makeRequest this (summary_prompt text level) 0 w)
      as [[v|e] w1]; simpl; eauto.
    destruct (trim_value v); simpl; eauto.
  - unfold generateQuiz, try_catch, bind, lift, ret, sleep.
    destruct (makeRequest this (quiz_prompt text) 0 (emit w (EvSleep 1000)))
      as [[v|e] w1]; simpl; eauto.
    destruct (parseQuizResponse this v); simpl; eauto.
  - destruct (fallback_flashcards_total this text) as [cards [Hc _]].
    unfold generateFlashcards, try_catch, bind, lift, ret, sleep.
    destruct (makeRequest this (flashcard_prompt text) 0
                (emit w (EvSleep 1000)))
      as [[v|e] w1]; simpl; rewrite ?Hc; simpl; eauto.
    destruct (parseFlashcardResponse this v); simpl; rewrite ?Hc; simpl;
      eauto.
Qed.

(** C1 fails in [server.js]: with no API key the provider call throws,
    the [catch] of [generateQuiz] calls [this.generateFallbackQuiz], which
    the class does not declare, and the operation throws a [TypeError]
    instead of returning a fallback quiz. *)
Theorem serverjs_generateQuiz_has_no_fallback (text : string) (w : World) :
  ServerJs.generateQuiz (ServerJs.constructor None) text w
  = (Throw (TypeError "this.generateFallbackQuiz is not a function"),
     emit w (EvSleep 2000)).
Proof.
  unfold ServerJs.generateQuiz, try_catch, bind, sleep.
  cbn [ServerJs.requestDelay ServerJs.constructor].
  rewrite ServerJs.makeRequest_equation_1. reflexivity.
Qed.

(** ** The fallback quiz *)

(** C2, as stated, fails: for the empty text the second of the three
    fixed questions has correctIndex 1. *)
Lemma fallback_quiz_index_counterexample :
  ~ (forall q,
       In q (firstn 3 (generateFallbackQuiz no_keys EmptyString)) ->
       correctIndex q = 0).
Proof.
  intros H.
  specialize (H organization_question (or_intror (or_introl eq_refl))).
  discriminate H.
Qed.

(** C2, amended. For every text the fallback quiz starts with the three
    fixed questions, whose correctIndex is 0, 1 and 0; when the text has a
    key term a fourth question, made from the first key term and with
    correctIndex 0, follows and the quiz has exactly 4 entries; with no key
    term it has exactly 3. *)
Theorem fallback_quiz_shape (this : AIService) (text : string) :
  let quiz := generateFallbackQuiz this text in
  firstn 3 quiz = [topic_question; organization_question; learning_question]
  /\ map correctIndex (firstn 3 quiz) = [0; 1; 0]
  /\ match key_terms commonWords text with
     | [] => quiz = [topic_question; organization_question;
                     learning_question]
             /\ length quiz = 3
     | term0 :: _ =>
         quiz = [topic_question; organization_question; learning_question;
                 concept_question term0]
         /\ correctIndex (concept_question term0) = 0
         /\ length quiz = 4
     end.
Proof.
  unfold generateFallbackQuiz.
  destruct (key_terms commonWords text) as [|term0 rest]; simpl;
    repeat split; reflexivity.
Qed.

(** ** Empty text *)

(** C7. On the empty text the three generators return: a summary string,
    a quiz of the three fixed questions (no key term exists), and three
    flashcards, all the generic card. *)
Theorem fallback_on_empty_text (this : AIService) (level : string) :
  generateFallbackSummary this EmptyString level
  = (levelIntro level ++ JS.nl ++ JS.nl ++ JS.nl ++ JS.nl
     ++ "Key topics include: . This 1-word text provides "
     ++ JS.replace_first "-" " " level
     ++ " level information that helps build understanding of the subject matter."
     ++ JS.nl ++ JS.nl
     ++ "The content focuses on explaining these concepts clearly and providing foundation knowledge for further learning in this area.")%string
  /\ generateFallbackQuiz this EmptyString
     = [topic_question; organization_question; learning_question]
  /\ generateFallbackFlashcards this EmptyString
     = Ok [generic_card; generic_card; generic_card]
  /\ 3 <= length [generic_card; generic_card; generic_card].
Proof.
  repeat split; simpl; auto.
Qed.

End FallbackFacts.

(** * The input checks *)

Module RouteFacts.
Import Routes.
Import Spec.

(** C10, as stated, fails: an extracted text of 10001 spaces is longer
    than 10000 characters and is not truncated and processed: it is
    refused as empty. *)
Lemma blank_long_file_text_counterexample :
  ~ (forall text,
       10000 < JS.len text ->
       process_file (Some text) = Accepted (JS.take 10000 text ++ "...")).
Proof.
  intros H. specialize (H (spaces 10001)).
  assert (L : 10000 < JS.len (spaces 10001)) by (vm_compute; lia).
  specialize (H L). vm_compute in H. discriminate H.
Qed.

(** C10, amended. A text longer than 10000 characters is refused by
    [/api/process-text] with an error; extracted from a file and not
    blank, it is cut to its first 10000 characters followed by an ellipsis
    and then processed by [/api/process-file]; extracted from a file and
    blank, it is refused whatever its length. *)
Theorem long_input_rejected_or_truncated (text : string) :
  10000 < JS.len text ->
  (exists error, process_text (Some text) = Status400 error)
  /\ (blank (Some text) = false ->
      process_text (Some text)
      = Status400 "Text too long. Maximum 10,000 characters allowed."
      /\ process_file (Some text) = Accepted (JS.take 10000 text ++ "..."))
  /\ (blank (Some text) = true ->
      process_file (Some text)
      = Status400 "No text could be extracted from the file").
Proof.
  intros H. apply Nat.ltb_lt in H.
  unfold process_text, process_file.
  destruct (blank (Some text)); rewrite ?H.
  - split; [eauto|]. split; [discriminate | reflexivity].
  - split; [eauto|]. split; [auto | discriminate].
Qed.

(** A text of 10001 letters at both routes. *)
Lemma long_input_witness :
  10000 < JS.len (letters 10001)
  /\ process_text (Some (letters 10001))
     = Status400 "Text too long. Maximum 10,000 characters allowed."
  /\ process_file (Some (letters 10001))
     = Accepted (JS.take 10000 (letters 10001) ++ "...").
Proof.
  assert (L : 10000 < JS.len (letters 10001)) by (vm_compute; lia).
  split; [exact L|].
  apply (proj1 (proj2 (long_input_rejected_or_truncated _ L))).
  vm_compute. reflexivity.
Defined.

End RouteFacts.

(** * Cleaning a provider text *)

Module CleaningFacts.
Import AIService.
Import Spec.
Import Scenarios.

Lemma append_nil_r (s : string) : s ++ EmptyString = s.
Proof. induction s as [|c s IH]; simpl; congruence. Qed.

Lemma append_assoc (a b c : string) : (a ++ b) ++ c = a ++ b ++ c.
Proof. induction a as [|x a IH]; simpl; congruence. Qed.

Lemma len_append (a b : string) : JS.len (a ++ b) = JS.len a + JS.len b.
Proof. unfold JS.len. induction a as [|x a IH]; simpl; congruence. Qed.

Lemma mem_append (c : ascii) (a b : string) :
  JS.mem c (a ++ b) = JS.mem c a || JS.mem c b.
Proof.
  induction a as [|x a IH]; simpl; [reflexivity|].
  rewrite IH. apply orb_assoc.
Qed.

Lemma rev_onto_spec (s acc : string) :
  JS.rev_onto s acc = JS.rev s ++ acc.
Proof.
  unfold JS.rev. revert acc.
  induction s as [|c s IH]; intros acc; simpl; [reflexivity|].
  rewrite IH, (IH (String c EmptyString)), append_assoc. reflexivity.
Qed.

Lemma rev_String (c : ascii) (s : string) :
  JS.rev (String c s) = JS.rev s ++ String c EmptyString.
Proof. unfold JS.rev at 1. simpl. apply rev_onto_spec. Qed.

Lemma rev_append (a b : string) : JS.rev (a ++ b) = JS.rev b ++ JS.rev a.
Proof.
  induction a as [|x a IH]; simpl.
  - rewrite append_nil_r. reflexivity.
  - rewrite !rev_String, IH, append_assoc. reflexivity.
Qed.

Lemma rev_involutive (s : string) : JS.rev (JS.rev s) = s.
Proof.
  induction s as [|c s IH]; [reflexivity|].
  rewrite rev_String, rev_append, IH. reflexivity.
Qed.

(** [drop_while] stops at a character that [p] rejects. *)
Lemma drop_while_app_stop (p : ascii -> bool) (a : string) (c : ascii)
    (r : string) :
  p c = false ->
  JS.drop_while p (a ++ String c r) = JS.drop_while p a ++ String c r.
Proof.
  intros Hc. induction a as [|x a IH]; simpl.
  - rewrite Hc. reflexivity.
  - destruct (p x); [exact IH | reflexivity].
Qed.

Lemma mem_drop_while (p : ascii -> bool) (c : ascii) (s : string) :
  JS.mem c s = false -> JS.mem c (JS.drop_while p s) = false.
Proof.
  induction s as [|x s IH]; simpl; [reflexivity|].
  intros H. apply orb_false_iff in H. destruct H as [H1 H2].
  destruct (p x); [auto|]. simpl. rewrite H1, H2. reflexivity.
Qed.

Lemma mem_rev (c : ascii) (s : string) : JS.mem c (JS.rev s) = JS.mem c s.
Proof.
  induction s as [|x s IH]; [reflexivity|].
  rewrite rev_String, mem_append, IH. simpl.
  rewrite orb_false_r. apply orb_comm.
Qed.

(** Trimming a text around a bracketed part trims what is before and
    after it. *)
Lemma trim_around (pre inner post : string) (o c : ascii) :
  JS.is_space o = false -> JS.is_space c = false ->
  JS.trim (pre ++ String o (inner ++ String c post))
  = JS.trimStart pre ++ String o (inner ++ String c (JS.trimEnd post)).
Proof.
  intros Ho Hc. unfold JS.trim, JS.trimStart.
  rewrite drop_while_app_stop by assumption.
  unfold JS.trimEnd.
  replace (JS.drop_while JS.is_space pre
           ++ String o (inner ++ String c post))
    with ((JS.drop_while JS.is_space pre ++ String o inner)
          ++ String c post)
    by (rewrite append_assoc; reflexivity).
  rewrite rev_append, rev_String.
  rewrite append_assoc. simpl.
  rewrite drop_while_app_stop by assumption.
  rewrite rev_append, rev_String, rev_involutive.
  rewrite !append_assoc. simpl. reflexivity.
Qed.


(** *** Removing fences around a bracketed part *)

Lemma starts_with_len (p s : string) :
  JS.starts_with p s = true -> JS.len p <= JS.len s.
Proof.
  unfold JS.len. revert s.
  induction p as [|a p IH]; intros [|b s]; simpl; try lia; try discriminate.
  intros H. apply andb_prop in H. destruct H as [_ H].
  apply IH in H. lia.
Qed.

(** A literal without the character [c] matches at the start of
    [a ++ c :: r] only inside [a]. *)
Lemma starts_with_before (p a : string) (c : ascii) (r : string) :
  JS.mem c p = false ->
  JS.starts_with p (a ++ String c r) = JS.starts_with p a.
Proof.
  revert a. induction p as [|x p IH]; intros a Hp; [destruct a; reflexivity|].
  simpl in Hp. apply orb_false_iff in Hp. destruct Hp as [Hx Hp].
  destruct a as [|y a]; simpl.
  - rewrite Hx. reflexivity.
  - rewrite IH by assumption. reflexivity.
Qed.

(** The characters that [remove_fence_from] leaves are characters of its
    input. *)
Lemma mem_remove_fence_from (fence : string) (c : ascii) (s : string) :
  JS.mem c s = false ->
  forall skip ws, JS.mem c (JS.remove_fence_from fence skip ws s) = false.
Proof.
  induction s as [|x s IH]; intros H skip ws; [reflexivity|].
  simpl in H. apply orb_false_iff in H. destruct H as [Hx Hs].
  specialize (IH Hs).
  cbn [JS.remove_fence_from].
  destruct skip as [|k]; [|apply IH].
  destruct (ws && JS.is_space x); [apply IH|].
  destruct (JS.starts_with fence (String x s)); [apply IH|].
  cbn [JS.mem]. rewrite Hx. apply IH.
Qed.

(** A fence that lies before an opening character is removed before it,
    and the removal starts afresh after that character. *)
Lemma remove_fence_from_before (fence : string) (f : ascii) (fence' : string)
    (o : ascii) (rest : string) :
  fence = String f fence' ->
  JS.mem o fence = false ->
  JS.is_space o = false ->
  forall pre skip ws,
    skip <= JS.len pre ->
    JS.remove_fence_from fence skip ws (pre ++ String o rest)
    = JS.remove_fence_from fence skip ws pre
      ++ String o (JS.remove_fence_from fence 0 false rest).
Proof.
  intros Hf Ho Hsp.
  assert (Hfo : Ascii.eqb f o = false).
  { rewrite Hf in Ho. simpl in Ho. apply orb_false_iff in Ho. tauto. }
  induction pre as [|x pre IH]; intros skip ws Hskip.
  - unfold JS.len in Hskip. simpl in Hskip.
    assert (skip = 0) by lia. subst skip.
    cbn [append JS.remove_fence_from].
    rewrite Hsp, andb_false_r.
    replace (JS.starts_with fence (String o rest)) with false
      by (rewrite Hf; simpl; rewrite Hfo; reflexivity).
    reflexivity.
  - cbn [append JS.remove_fence_from].
    destruct skip as [|k].
    + destruct (ws && JS.is_space x).
      * apply IH. lia.
      * change (String x (pre ++ String o rest))
          with (String x pre ++ String o rest).
        rewrite starts_with_before by assumption.
        destruct (JS.starts_with fence (String x pre)) eqn:Hst.
        -- apply IH. apply starts_with_len in Hst.
           unfold JS.len in *. simpl in Hst. lia.
        -- cbn [append]. rewrite IH by lia. reflexivity.
    + apply IH. unfold JS.len in *. simpl in Hskip. lia.
Qed.

(** A text without the first character of the fence is left as it is. *)
Lemma remove_fence_from_plain (fence : string) (f : ascii) (fence' : string)
    (mid rest : string) :
  fence = String f fence' ->
  JS.mem f mid = false ->
  JS.remove_fence_from fence 0 false (mid ++ rest)
  = mid ++ JS.remove_fence_from fence 0 false rest.
Proof.
  intros Hf. induction mid as [|x mid IH]; intros Hm; [reflexivity|].
  simpl in Hm. apply orb_false_iff in Hm. destruct Hm as [Hx Hm].
  cbn [append JS.remove_fence_from andb].
  replace (JS.starts_with fence (String x (mid ++ rest))) with false.
  - rewrite IH by assumption. reflexivity.
  - rewrite Hf. simpl.
    replace (Ascii.eqb f x) with false; [reflexivity|].
    rewrite Ascii.eqb_sym. symmetry. exact Hx.
Qed.

Lemma remove_fence_around (fence : string) (f : ascii) (fence' : string)
    (pre inner post : string) (o c : ascii) :
  fence = String f fence' ->
  JS.mem o fence = false -> JS.is_space o = false ->
  Ascii.eqb f c = false ->
  JS.mem f inner = false ->
  JS.remove_fence fence (pre ++ String o (inner ++ String c post))
  = JS.remove_fence fence pre
    ++ String o (inner ++ String c (JS.remove_fence fence post)).
Proof.
  intros Hf Ho Hsp Hc Hin. unfold JS.remove_fence.
  rewrite (remove_fence_from_before fence f fence' o _ Hf Ho Hsp) by lia.
  rewrite (remove_fence_from_plain fence f fence' inner _ Hf Hin).
  cbn [JS.remove_fence_from andb].
  replace (JS.starts_with fence (String c post)) with false
    by (rewrite Hf; simpl; rewrite Hc; reflexivity).
  reflexivity.
Qed.

(** *** The bracketed part *)

Lemma from_first_app (c : ascii) (pre r : string) :
  JS.mem c pre = false ->
  JS.from_first c (pre ++ String c r) = Some (String c r).
Proof.
  induction pre as [|x pre IH]; simpl; intros H.
  - rewrite Ascii.eqb_refl. reflexivity.
  - apply orb_false_iff in H. destruct H as [Hx H].
    rewrite Hx. auto.
Qed.

Lemma upto_last_absent (c : ascii) (s : string) :
  JS.mem c s = false -> JS.upto_last c s = None.
Proof.
  induction s as [|x s IH]; simpl; [reflexivity|].
  intros H. apply orb_false_iff in H. destruct H as [Hx H].
  rewrite IH, Hx by assumption. reflexivity.
Qed.

Lemma upto_last_app (c : ascii) (a post : string) :
  JS.mem c post = false ->
  JS.upto_last c (a ++ String c post) = Some (a ++ String c EmptyString).
Proof.
  intros H. induction a as [|x a IH]; simpl.
  - rewrite upto_last_absent by assumption.
    rewrite Ascii.eqb_refl. reflexivity.
  - rewrite IH. reflexivity.
Qed.

Lemma match_bracketed_around (pre inner post : string) :
  JS.mem "[" pre = false -> JS.mem "]" post = false ->
  JS.match_bracketed (pre ++ String "[" (inner ++ String "]" post))
  = Some (String "[" (inner ++ "]")).
Proof.
  intros Hpre Hpost. unfold JS.match_bracketed.
  rewrite from_first_app by assumption.
  change (String "[" (inner ++ String "]" post))
    with (String "[" inner ++ String "]" post).
  rewrite upto_last_app by assumption. reflexivity.
Qed.

Lemma clean_response_around (pre inner post : string) :
  JS.mem "[" pre = false ->
  JS.mem "]" post = false ->
  JS.mem "`" inner = false ->
  clean_response (JStr (pre ++ "[" ++ inner ++ "]" ++ post))
  = Ok ("[" ++ inner ++ "]").
Proof.
  intros Hpre Hpost Hin.
  unfold clean_response, trim_value, rbind, strip_fences.
  change (pre ++ "[" ++ inner ++ "]" ++ post)
    with (pre ++ String "[" (inner ++ String "]" post)).
  rewrite trim_around by reflexivity.
  rewrite (remove_fence_around "```json" "`" "``json") by
    (reflexivity || assumption).
  rewrite (remove_fence_around "```" "`" "``") by
    (reflexivity || assumption).
  rewrite match_bracketed_around; [reflexivity| |].
  - apply mem_remove_fence_from. apply mem_remove_fence_from.
    apply mem_drop_while. exact Hpre.
  - apply mem_remove_fence_from. apply mem_remove_fence_from.
    unfold JS.trimEnd. rewrite mem_rev. apply mem_drop_while.
    rewrite mem_rev. exact Hpost.
Qed.

(** X1.  A provider text that holds one bracketed part, with anything
    around it that has no bracket of the same kind on the outer side
    (prose, code fences, white space), is cleaned to exactly that part,
    whenever the part has no backquote: both parsers then work on the
    JSON text between the first opening and the last closing bracket. *)
Theorem bracketed_part_is_extracted (this : AIService)
    (pre inner post : string) :
  JS.mem "[" pre = false ->
  JS.mem "]" post = false ->
  JS.mem "`" inner = false ->
  let response := JStr (pre ++ "[" ++ inner ++ "]" ++ post) in
  clean_response response = Ok ("[" ++ inner ++ "]")
  /\ parseQuizResponse this response
     = (parsed <-? Json.parse ("[" ++ inner ++ "]");;
        questions_of_parsed parsed)
  /\ parseFlashcardResponse this response
     = (parsed <-? Json.parse ("[" ++ inner ++ "]");;
        cards_of_parsed parsed).
Proof.
  intros Hpre Hpost Hin response.
  pose proof (clean_response_around pre inner post Hpre Hpost Hin) as Hc.
  fold response in Hc.
  unfold parseQuizResponse, parseFlashcardResponse.
  rewrite Hc. repeat split; reflexivity.
Qed.

Lemma bracketed_part_witness :
  parseFlashcardResponse no_keys
    (JStr (prose_before ++ "[" ++ card_text "F1" ++ "]" ++ prose_after))
  = Ok [card_value "F1"].
Proof.
  destruct (bracketed_part_is_extracted no_keys prose_before
              (card_text "F1") prose_after eq_refl eq_refl eq_refl)
    as [_ [_ H]].
  rewrite H. vm_compute. reflexivity.
Defined.

End CleaningFacts.

(** * No fence is left by the cleaning *)

Module FenceFacts.
Import AIService.
Import Spec.
Import CleaningFacts.

Lemma starts_with_fence (c : ascii) (s : string) :
  JS.starts_with "```" (String c s)
  = Ascii.eqb "`" c && JS.starts_with "``" s.
Proof. reflexivity. Qed.

Lemma starts_with_two (c : ascii) (s : string) :
  JS.starts_with "``" (String c s)
  = Ascii.eqb "`" c && JS.starts_with "`" s.
Proof. reflexivity. Qed.

Lemma starts_with_one (c : ascii) (s : string) :
  JS.starts_with "`" (String c s) = Ascii.eqb "`" c.
Proof. simpl. apply andb_true_r. Qed.

(** Outside a removal, a text that does not start with a backquote is
    left with its first character. *)
Lemma remove_keeps_one (s : string) :
  JS.starts_with "`" s = false ->
  JS.starts_with "`" (JS.remove_fence_from "```" 0 false s) = false.
Proof.
  destruct s as [|c s]; [reflexivity|].
  rewrite starts_with_one. intros Hc.
  cbn [JS.remove_fence_from andb].
  rewrite starts_with_fence, Hc. cbn [andb].
  rewrite starts_with_one. exact Hc.
Qed.

Lemma remove_keeps_two (s : string) :
  JS.starts_with "``" s = false ->
  JS.starts_with "``" (JS.remove_fence_from "```" 0 false s) = false.
Proof.
  destruct s as [|c s]; [reflexivity|].
  rewrite starts_with_two. intros H.
  cbn [JS.remove_fence_from andb].
  rewrite starts_with_fence.
  destruct (Ascii.eqb "`" c) eqn:Hc; cbn [andb] in *.
  - replace (JS.starts_with "``" s) with false.
    + rewrite starts_with_two, Hc. cbn [andb].
      apply remove_keeps_one. exact H.
    + destruct s as [|d s]; [reflexivity|].
      rewrite starts_with_two. rewrite starts_with_one in H.
      rewrite H. reflexivity.
  - rewrite starts_with_two, Hc. reflexivity.
Qed.

(** What is left never starts with a fence. *)
Lemma remove_no_fence_first (s : string) :
  forall skip ws,
    JS.starts_with "```" (JS.remove_fence_from "```" skip ws s) = false.
Proof.
  induction s as [|c s IH]; intros skip ws; [reflexivity|].
  cbn [JS.remove_fence_from].
  destruct skip as [|k]; [|apply IH].
  destruct (ws && JS.is_space c); [apply IH|].
  destruct (JS.starts_with "```" (String c s)) eqn:F; [apply IH|].
  rewrite starts_with_fence in F |- *.
  destruct (Ascii.eqb "`" c); cbn [andb] in *; [|reflexivity].
  apply remove_keeps_two. exact F.
Qed.

Lemma remove_no_fence (s : string) :
  forall skip ws,
    JS.includes (JS.remove_fence_from "```" skip ws s) "```" = false.
Proof.
  induction s as [|c s IH]; intros skip ws; [reflexivity|].
  pose proof (remove_no_fence_first (String c s) skip ws) as Hfirst.
  cbn [JS.remove_fence_from] in *.
  destruct skip as [|k]; [|apply IH].
  destruct (ws && JS.is_space c); [apply IH|].
  destruct (JS.starts_with "```" (String c s)); [apply IH|].
  cbn [JS.includes]. rewrite Hfirst, IH. reflexivity.
Qed.

(** A part of a text without a fence has no fence. *)
Lemma includes_Tail (r s t : string) :
  Tail r s -> JS.includes s t = false -> JS.includes r t = false.
Proof.
  induction 1 as [s|c s r HT IH]; [auto|].
  intros H. apply IH. cbn [JS.includes] in H.
  apply orb_false_iff in H. tauto.
Qed.

Lemma from_first_Tail (c : ascii) (s t : string) :
  JS.from_first c s = Some t -> Tail t s.
Proof.
  induction s as [|a s IH]; simpl; [discriminate|].
  destruct (Ascii.eqb a c).
  - intros H. injection H as <-. apply Tail_here.
  - intros H. apply Tail_next. apply IH. exact H.
Qed.

(** [upto_last] gives a head of the text. *)
Lemma upto_last_head (c : ascii) (s t : string) :
  JS.upto_last c s = Some t -> exists r, s = t ++ r.
Proof.
  revert t. induction s as [|a s IH]; simpl; intros t; [discriminate|].
  destruct (JS.upto_last c s) as [u|].
  - intros H. injection H as <-. destruct (IH u eq_refl) as [r ->].
    exists r. reflexivity.
  - destruct (Ascii.eqb a c); [|discriminate].
    intros H. injection H as <-. exists s. reflexivity.
Qed.

Lemma starts_with_head (p a r : string) :
  JS.starts_with p a = true -> JS.starts_with p (a ++ r) = true.
Proof.
  revert a. induction p as [|x p IH]; intros a; [reflexivity|].
  destruct a as [|y a]; simpl; [discriminate|].
  intros H. apply andb_prop in H. destruct H as [H1 H2].
  rewrite H1, (IH a H2). reflexivity.
Qed.

Lemma includes_head (a r t : string) :
  JS.includes (a ++ r) t = false -> JS.includes a t = false.
Proof.
  induction a as [|y a IH]; intros H.
  - cbn [JS.includes]. rewrite orb_false_r.
    destruct (JS.starts_with t EmptyString) eqn:E; [|reflexivity].
    apply (starts_with_head t EmptyString r) in E. cbn [append] in *.
    destruct r; cbn [JS.includes] in H; rewrite E in H; discriminate H.
  - cbn [append JS.includes] in *.
    apply orb_false_iff in H. destruct H as [H1 H2].
    rewrite (IH H2), orb_false_r.
    destruct (JS.starts_with t (String y a)) eqn:E; [|reflexivity].
    apply (starts_with_head t (String y a) r) in E. cbn [append] in E.
    congruence.
Qed.

Lemma json_fence_is_fence (s : string) :
  JS.starts_with "```json" s = true -> JS.starts_with "```" s = true.
Proof.
  destruct s as [|a s]; [discriminate|].
  destruct s as [|b s];
    [cbn [JS.starts_with]; rewrite andb_false_r; discriminate|].
  destruct s as [|c s];
    [cbn [JS.starts_with]; rewrite !andb_false_r; discriminate|].
  cbn [JS.starts_with].
  destruct (Ascii.eqb "`" a), (Ascii.eqb "`" b), (Ascii.eqb "`" c);
    cbn [andb]; intros H; first [discriminate H | reflexivity].
Qed.

(** X2.  The cleaning of the parsers leaves no fence marker: whatever
    the provider text, the text that the parsers hand to [JSON.parse]
    has no run of three backquotes, so no marker with or without the
    word json. *)
Theorem cleaned_text_has_no_fence (response : JSValue) (text : string) :
  clean_response response = Ok text ->
  JS.includes text "```" = false /\ JS.includes text "```json" = false.
Proof.
  unfold clean_response.
  destruct (trim_value response) as [trimmed|e]; simpl; [|discriminate].
  intros H. injection H as <-.
  assert (Hclean : JS.includes (strip_fences trimmed) "```" = false)
    by apply remove_no_fence.
  assert (Hpart : forall part,
            JS.includes part "```" = false ->
            JS.includes part "```json" = false).
  { intros part. induction part as [|c part IH]; [reflexivity|].
    cbn [JS.includes]. intros H. apply orb_false_iff in H.
    destruct H as [H1 H2]. rewrite (IH H2), orb_false_r.
    destruct (JS.starts_with "```json" (String c part)) eqn:E;
      [|reflexivity].
    apply json_fence_is_fence in E. congruence. }
  assert (Hgoal : JS.includes
                    match JS.match_bracketed (strip_fences trimmed) with
                    | Some jsonMatch => jsonMatch
                    | None => strip_fences trimmed
                    end "```" = false).
  { unfold JS.match_bracketed.
    destruct (JS.from_first "[" (strip_fences trimmed)) as [t|] eqn:F;
      [|exact Hclean].
    destruct (JS.upto_last "]" t) as [u|] eqn:U; [|exact Hclean].
    apply from_first_Tail in F. apply upto_last_head in U.
    destruct U as [r ->].
    apply (includes_head u r).
    apply (includes_Tail _ _ _ F Hclean). }
  split; [exact Hgoal | apply Hpart, Hgoal].
Qed.

Lemma cleaned_text_witness :
  clean_response (JStr ("``" ++ "```json" ++ "`" ++ JS.nl ++ "[1]"))
  = Ok "[1]"
  /\ JS.includes "[1]" "```" = false.
Proof.
  assert (H : clean_response
                (JStr ("``" ++ "```json" ++ "`" ++ JS.nl ++ "[1]"))
              = Ok "[1]") by (vm_compute; reflexivity).
  split; [exact H|].
  exact (proj1 (cleaned_text_has_no_fence _ _ H)).
Defined.

End FenceFacts.

(** * The sentences of a text *)

Module SentenceFacts.
Import AIService.
Import Spec.
Import Scenarios.
Import CleaningFacts.

Lemma all_chars_String (p : ascii -> bool) (c : ascii) (s : string) :
  JS.all_chars p (String c s) = p c && JS.all_chars p s.
Proof.
  unfold JS.all_chars. simpl. destruct (p c); reflexivity.
Qed.

Lemma all_chars_append (p : ascii -> bool) (a b : string) :
  JS.all_chars p (a ++ b) = JS.all_chars p a && JS.all_chars p b.
Proof.
  induction a as [|x a IH]; [reflexivity|].
  cbn [append]. rewrite !all_chars_String, IH. apply andb_assoc.
Qed.

Lemma all_chars_rev (p : ascii -> bool) (s : string) :
  JS.all_chars p (JS.rev s) = JS.all_chars p s.
Proof.
  induction s as [|x s IH]; [reflexivity|].
  rewrite rev_String, all_chars_append, IH, !all_chars_String.
  change (JS.all_chars p EmptyString) with true.
  rewrite andb_true_r. apply andb_comm.
Qed.

Lemma rev_not_empty (c : ascii) (s : string) :
  JS.rev (String c s) <> EmptyString.
Proof.
  rewrite rev_String. destruct (JS.rev s); discriminate.
Qed.

Lemma join_cons (x : string) (xs : list string) :
  JS.join EmptyString (x :: xs) = x ++ JS.join EmptyString xs.
Proof.
  destruct xs; cbn [JS.join]; [rewrite append_nil_r|]; reflexivity.
Qed.

(** What [sentences_from] makes of the text read so far and the text to
    come: the sentences, put end to end, and a rest without a closing
    character give back the body and the tail read and the text to
    come. *)
Lemma sentences_from_spec (s : string) :
  forall body tail,
    (tail <> EmptyString -> body <> EmptyString) ->
    JS.all_chars (fun c => negb (JS.is_terminal c)) body = true ->
    JS.all_chars JS.is_terminal tail = true ->
    exists rest,
      (match body with
       | EmptyString => JS.drop_while JS.is_terminal s
       | _ => JS.rev body ++ JS.rev tail ++ s
       end
       = JS.join EmptyString (JS.sentences_from body tail s) ++ rest)%string
      /\ JS.all_chars (fun c => negb (JS.is_terminal c)) rest = true
      /\ Forall sentence_shaped (JS.sentences_from body tail s).
Proof.
  induction s as [|c s IH]; intros body tail Hinv Hbody Htail.
  - (* the text ends *)
    cbn [JS.sentences_from].
    destruct body as [|b body]; [exists EmptyString; auto|].
    destruct tail as [|t tail].
    + exists (JS.rev (String b body)). cbn [JS.join append JS.rev].
      rewrite append_nil_r.
      split; [reflexivity|]. split; [|constructor].
      rewrite all_chars_rev. exact Hbody.
    + exists EmptyString. cbn [JS.join]. rewrite !append_nil_r.
      split; [reflexivity|]. split; [reflexivity|].
      constructor; [|constructor].
      exists (JS.rev (String b body)), (JS.rev (String t tail)).
      split; [reflexivity|].
      split; [apply rev_not_empty|]. split; [apply rev_not_empty|].
      rewrite !all_chars_rev. auto.
  - cbn [JS.sentences_from].
    destruct (JS.is_terminal c) eqn:Hc.
    + (* a closing character *)
      destruct body as [|b body].
      * destruct (IH EmptyString EmptyString) as [rest [H1 [H2 H3]]];
          [congruence|reflexivity|reflexivity|].
        exists rest. cbn [JS.drop_while]. rewrite Hc. auto.
      * destruct (IH (String b body) (String c tail))
          as [rest [H1 [H2 H3]]];
          [discriminate|exact Hbody| |].
        { rewrite all_chars_String, Hc. exact Htail. }
        exists rest. split; [|auto].
        rewrite <- H1, (rev_String c tail), !append_assoc. reflexivity.
    + (* another character *)
      destruct tail as [|t tail].
      * destruct (IH (String c body) EmptyString) as [rest [H1 [H2 H3]]];
          [congruence| |reflexivity|].
        { rewrite all_chars_String, Hc. exact Hbody. }
        exists rest. split; [|auto].
        rewrite <- H1. rewrite (rev_String c body).
        cbn [JS.rev JS.rev_onto append].
        destruct body as [|b body].
        -- cbn [JS.drop_while]. rewrite Hc. reflexivity.
        -- rewrite !append_assoc. reflexivity.
      * assert (Hb : body <> EmptyString) by (apply Hinv; discriminate).
        destruct (IH (String c EmptyString) EmptyString)
          as [rest [H1 [H2 H3]]];
          [congruence| |reflexivity|].
        { rewrite all_chars_String, Hc. reflexivity. }
        exists rest. rewrite join_cons.
        destruct body as [|b body]; [congruence|].
        split; [|split; [exact H2|]].
        -- rewrite append_assoc, <- H1. rewrite !append_assoc.
           reflexivity.
        -- constructor; [|exact H3].
           exists (JS.rev (String b body)), (JS.rev (String t tail)).
           split; [reflexivity|].
           split; [apply rev_not_empty|]. split; [apply rev_not_empty|].
           rewrite !all_chars_rev. auto.
Qed.

(** X3.  The sentences that the heuristic generators work on are cut
    out of the text one after the other and lose nothing in between: the
    text without the closing characters ([.], [!], [?]) it starts with
    is the sentences put end to end, followed by a rest that has no
    closing character.  Each sentence is a run of other characters and
    then a run of closing characters, neither empty.  So a text without
    a closing character has no sentence, and the words after the last
    closing character are in no sentence. *)
Theorem sentences_partition_the_text (text : string) :
  exists rest,
    JS.drop_while JS.is_terminal text
    = JS.join EmptyString (JS.match_sentences text) ++ rest
    /\ JS.all_chars (fun c => negb (JS.is_terminal c)) rest = true
    /\ Forall sentence_shaped (JS.match_sentences text)
    /\ (JS.all_chars (fun c => negb (JS.is_terminal c)) text = true ->
        JS.match_sentences text = []).
Proof.
  destruct (sentences_from_spec text EmptyString EmptyString)
    as [rest [H1 [H2 H3]]]; [congruence|reflexivity|reflexivity|].
  exists rest. fold (JS.match_sentences text) in H1, H3.
  split; [exact H1|]. split; [exact H2|]. split; [exact H3|].
  intros Hnone.
  destruct (JS.match_sentences text) as [|s rest']; [reflexivity|].
  exfalso.
  inversion H3 as [|? ? [body [tail [Hs [Hb [Ht [Hbc Htc]]]]]] _]; subst.
  (* the first sentence holds a closing character of the text *)
  assert (Hdrop : JS.drop_while JS.is_terminal text = text).
  { destruct text as [|c text]; [reflexivity|].
    rewrite all_chars_String in Hnone. apply andb_prop in Hnone.
    destruct Hnone as [Hc _]. cbn [JS.drop_while].
    destruct (JS.is_terminal c); [discriminate|reflexivity]. }
  rewrite Hdrop, join_cons in H1.
  rewrite H1, !all_chars_append in Hnone.
  apply andb_prop in Hnone. destruct Hnone as [Hnone _].
  apply andb_prop in Hnone. destruct Hnone as [Hnone _].
  apply andb_prop in Hnone. destruct Hnone as [_ Hnone].
  destruct tail as [|t tail]; [congruence|].
  rewrite all_chars_String in Hnone, Htc.
  destruct (JS.is_terminal t); discriminate.
Qed.

End SentenceFacts.

(** * Key terms and the heuristic flashcards *)

Module KeyTermFacts.
Import AIService.
Import Spec.
Import CleaningFacts.
Import FallbackFacts.

Lemma existsb_eqb_In (x : string) (l : list string) :
  existsb (String.eqb x) l = true <-> In x l.
Proof.
  rewrite existsb_exists. split.
  - intros [y [Hy He]]. apply String.eqb_eq in He. subst. exact Hy.
  - intros H. exists x. split; [exact H | apply String.eqb_refl].
Qed.

(** [dedupe_from] keeps the members not seen before, once each. *)
Lemma dedupe_from_In (xs seen : list string) (x : string) :
  In x (JS.dedupe_from seen xs) <-> In x xs /\ ~ In x seen.
Proof.
  revert seen. induction xs as [|y xs IH]; intros seen; simpl.
  - tauto.
  - destruct (existsb (String.eqb y) seen) eqn:E.
    + apply existsb_eqb_In in E. rewrite IH. split.
      * tauto.
      * intros [[->|H] Hn]; [contradiction | tauto].
    + assert (Hy : ~ In y seen).
      { intros H. apply existsb_eqb_In in H. congruence. }
      simpl. rewrite IH. simpl. split.
      * intros [->|[H Hn]]; [tauto|]. split; [tauto|]. tauto.
      * intros [[->|H] Hn]; [tauto|].
        destruct (String.eqb_spec y x) as [->|Hne]; [tauto|].
        right. split; [exact H|]. intros [Heq|Hs]; [congruence | tauto].
Qed.

Lemma dedupe_from_NoDup (xs seen : list string) :
  NoDup (JS.dedupe_from seen xs).
Proof.
  revert seen. induction xs as [|y xs IH]; intros seen; simpl.
  - constructor.
  - destruct (existsb (String.eqb y) seen); [apply IH|].
    constructor; [|apply IH].
    rewrite dedupe_from_In. simpl. tauto.
Qed.

(** No stop word has more than four letters. *)
Lemma common_words_short (word : string) :
  In word commonWords_summary -> JS.len word <= 4.
Proof.
  unfold commonWords_summary. simpl.
  intros H.
  repeat (destruct H as [H|H]; [subst word; unfold JS.len; simpl; lia|]).
  contradiction.
Qed.

Lemma common_words_included (word : string) :
  In word commonWords -> In word commonWords_summary.
Proof.
  unfold commonWords, commonWords_summary. simpl. intros H.
  repeat (destruct H as [H|H]; [subst word; tauto|]).
  contradiction.
Qed.

Lemma is_key_term_any_set (cw : list string) (word : string) :
  (forall x, In x cw -> JS.len x <= 4) ->
  is_key_term cw word = is_key_term [] word.
Proof.
  intros Hcw. unfold is_key_term. simpl existsb.
  destruct (4 <? JS.len word) eqn:E; [|reflexivity].
  apply Nat.ltb_lt in E.
  destruct (existsb (String.eqb word) cw) eqn:Ex; [|reflexivity].
  apply existsb_eqb_In in Ex. apply Hcw in Ex. lia.
Qed.

(** What a key term is. *)
Lemma key_terms_In (stop : list string) (text term : string) :
  In term (key_terms stop text) ->
  In term (JS.split_ws (JS.toLowerCase text))
  /\ 4 < JS.len term
  /\ JS.all_chars JS.is_lower term = true
  /\ ~ In term stop.
Proof.
  unfold key_terms, JS.dedupe.
  intros H. apply dedupe_from_In in H. destruct H as [H _].
  apply filter_In in H. destruct H as [Hin Hk].
  unfold is_key_term in Hk.
  apply andb_true_iff in Hk. destruct Hk as [Hk Hlow].
  apply andb_true_iff in Hk. destruct Hk as [Hlen Hstop].
  apply Nat.ltb_lt in Hlen.
  split; [exact Hin|]. split; [exact Hlen|]. split.
  - unfold JS.is_lower_word in Hlow. destruct term; [discriminate|exact Hlow].
  - intros Hs. apply existsb_eqb_In in Hs. rewrite Hs in Hstop. discriminate.
Qed.

(** X4.  The key terms of a text, which the three heuristic generators
    build on, are distinct; each is a word of the lower-cased text (a
    piece between white space), has more than four characters, all of
    them letters a to z, and is no stop word. *)
Theorem key_terms_are_distinct_long_words (stop : list string)
    (text : string) :
  NoDup (key_terms stop text)
  /\ forall term,
       In term (key_terms stop text) ->
       In term (JS.split_ws (JS.toLowerCase text))
       /\ 4 < JS.len term
       /\ JS.all_chars JS.is_lower term = true
       /\ ~ In term stop.
Proof.
  split; [apply dedupe_from_NoDup | apply key_terms_In].
Qed.

(** X5.  The stop-word sets of the service change nothing: every stop
    word has at most four characters, and a word that short is refused
    by the length test already.  So the quiz, the flashcard and the
    summary generators, whose sets differ, work on the same key terms. *)
Theorem stop_words_never_exclude (text : string) :
  key_terms commonWords text = key_terms [] text
  /\ key_terms commonWords_summary text = key_terms [] text.
Proof.
  unfold key_terms. split; f_equal; apply filter_ext; intros word;
    apply is_key_term_any_set; intros x Hx.
  - apply common_words_short, common_words_included, Hx.
  - apply common_words_short, Hx.
Qed.


(** ** The fallback flashcards *)

Lemma len_take (n : nat) (s : string) : JS.len (JS.take n s) <= n.
Proof.
  unfold JS.len. revert s.
  induction n as [|n IH]; intros [|c s]; simpl; try lia.
  specialize (IH s). lia.
Qed.

Lemma capped_len (s whole : string) : JS.len (capped s whole) <= 153.
Proof.
  unfold capped. rewrite len_append.
  pose proof (len_take 150 s).
  destruct (150 <? JS.len whole);
    [change (JS.len "...") with 3 | change (JS.len EmptyString) with 0]; lia.
Qed.

(** A text that starts with a literal [t] has the first character of
    [t]. *)
Lemma includes_mem (s t' : string) (c : ascii) :
  JS.includes s (String c t') = true -> JS.mem c s = true.
Proof.
  induction s as [|b s IH]; simpl; [discriminate|].
  intros H. apply orb_prop in H. destruct H as [H|H].
  - apply andb_prop in H. destruct H as [H _].
    apply Ascii.eqb_eq in H. subst b. rewrite Ascii.eqb_refl. reflexivity.
  - rewrite (IH H). apply orb_true_r.
Qed.

Lemma mem_toLowerCase (s : string) (c : ascii) :
  JS.mem c (JS.toLowerCase s) = true ->
  exists c0, JS.mem c0 s = true /\ JS.lower_char c0 = c.
Proof.
  induction s as [|b s IH]; simpl; [discriminate|].
  intros H. apply orb_prop in H. destruct H as [H|H].
  - apply Ascii.eqb_eq in H. exists b.
    rewrite Ascii.eqb_refl. split; [reflexivity | exact H].
  - destruct (IH H) as [c0 [H1 H2]]. exists c0.
    rewrite H1, orb_true_r. split; [reflexivity | exact H2].
Qed.

(** Lower-casing turns no white space into a letter. *)
Lemma lower_letter_not_space (c : ascii) :
  JS.is_lower (JS.lower_char c) = true -> JS.is_space c = false.
Proof.
  destruct c as [[] [] [] [] [] [] [] []]; vm_compute; intros H;
    solve [reflexivity | discriminate H].
Qed.

(** Trimming a text that has a character other than white space leaves
    a text that is not empty. *)
Lemma trim_not_empty (s : string) (c : ascii) :
  JS.mem c s = true -> JS.is_space c = false ->
  exists d r, JS.trim s = String d r.
Proof.
  intros Hm Hc. unfold JS.trim, JS.trimStart.
  assert (Hd : exists d r, JS.drop_while JS.is_space s = String d r
                           /\ JS.is_space d = false).
  { induction s as [|b s IH]; simpl in *; [discriminate|].
    destruct (JS.is_space b) eqn:Hb.
    - apply IH. apply orb_prop in Hm. destruct Hm as [Hm|Hm]; [|exact Hm].
      apply Ascii.eqb_eq in Hm. congruence.
    - eauto. }
  destruct Hd as [d [r [-> Hd]]].
  unfold JS.trimEnd. rewrite rev_String.
  rewrite drop_while_app_stop by exact Hd.
  rewrite rev_append. simpl. eauto.
Qed.

(** The card of a key term. *)
Lemma term_card_shape (sentences : list string) (c : ascii) (t' : string) :
  JS.is_lower c = true ->
  let card := term_card sentences (String c t') in
  front card <> EmptyString
  /\ JS.len (back card) <= 153
  /\ back card <> EmptyString.
Proof.
  intros Hc. unfold term_card.
  destruct (find _ sentences) as [sentence|] eqn:Hfind.
  - apply find_some in Hfind. destruct Hfind as [_ Hinc].
    destruct (negb (String.eqb sentence EmptyString)); cbn [front back].
    + split; [discriminate|]. split; [apply capped_len|].
      apply includes_mem in Hinc. apply mem_toLowerCase in Hinc.
      destruct Hinc as [c0 [Hm Hl]].
      assert (Hsp : JS.is_space c0 = false).
      { apply lower_letter_not_space. rewrite Hl. exact Hc. }
      destruct (trim_not_empty sentence c0 Hm Hsp) as [d [r ->]].
      unfold capped. simpl. discriminate.
    + split; [discriminate|].
      split; [unfold JS.len; simpl; lia | discriminate].
  - cbn [front back]. split; [discriminate|].
    split; [unfold JS.len; simpl; lia | discriminate].
Qed.

Lemma key_term_starts_lower (stop : list string) (text term : string) :
  In term (key_terms stop text) ->
  exists c t', term = String c t' /\ JS.is_lower c = true.
Proof.
  intros H. apply key_terms_In in H. destruct H as [_ [Hlen [Hlow _]]].
  destruct term as [|c t']; [unfold JS.len in Hlen; simpl in Hlen; lia|].
  exists c, t'. split; [reflexivity|].
  unfold JS.all_chars in Hlow. simpl in Hlow.
  destruct (JS.is_lower c); [reflexivity | discriminate].
Qed.

Lemma In_firstn {A} (n : nat) (l : list A) (x : A) :
  In x (firstn n l) -> In x l.
Proof.
  revert l. induction n as [|n IH]; intros [|y l]; simpl; try tauto.
  intros [H|H]; auto.
Qed.

(** Where a card of the heuristic generator comes from. *)
Lemma fallback_card_cases (this : AIService) (text : string)
    (cards : list Flashcard) (card : Flashcard) :
  generateFallbackFlashcards this text = Ok cards ->
  In card cards ->
  (exists first,
     nth_error (JS.match_sentences text) 0 = Some first
     /\ card = main_concept_card first)
  \/ (exists term,
        In term (key_terms commonWords text)
        /\ card = term_card (JS.match_sentences text) term)
  \/ card = generic_card.
Proof.
  intros Hc Hin. unfold generateFallbackFlashcards in Hc.
  assert (Hterm : forall sentences,
            In card (map (term_card sentences)
                         (firstn 5 (key_terms commonWords text))) ->
            exists term,
              In term (key_terms commonWords text)
              /\ card = term_card sentences term).
  { intros sentences H. apply in_map_iff in H.
    destruct H as [term [<- Ht]]. apply In_firstn in Ht.
    exists term. split; [exact Ht | reflexivity]. }
  destruct (JS.match_sentences text) as [|first rest] eqn:Hs.
  - change (Ok (firstn 5
                  (pad_cards (map (term_card [])
                                  (firstn 5 (key_terms commonWords text)))))
            = Ok cards) in Hc.
    assert (E : firstn 5
                  (pad_cards (map (term_card [])
                                  (firstn 5 (key_terms commonWords text))))
                = cards) by congruence.
    rewrite <- E in Hin. clear E Hc.
    apply In_firstn in Hin. rewrite pad_cards_spec in Hin.
    apply in_app_or in Hin.
    destruct Hin as [Hin|Hin].
    + right; left. apply Hterm. exact Hin.
    + right; right. apply repeat_spec in Hin. exact Hin.
  - change (Ok (firstn 5
                  (pad_cards (main_concept_card first
                              :: map (term_card (first :: rest))
                                   (firstn 5 (key_terms commonWords text)))))
            = Ok cards) in Hc.
    assert (E : firstn 5
                  (pad_cards (main_concept_card first
                              :: map (term_card (first :: rest))
                                   (firstn 5 (key_terms commonWords text))))
                = cards) by congruence.
    rewrite <- E in Hin. clear E Hc.
    apply In_firstn in Hin. rewrite pad_cards_spec in Hin.
    apply in_app_or in Hin.
    destruct Hin as [[Hin|Hin]|Hin].
    + left. exists first. split; [reflexivity | symmetry; exact Hin].
    + right; left. apply Hterm. exact Hin.
    + right; right. apply repeat_spec in Hin. exact Hin.
Qed.

(** Every card of the heuristic generator has a front. *)
Lemma fallback_card_front (this : AIService) (text : string)
    (cards : list Flashcard) (card : Flashcard) :
  generateFallbackFlashcards this text = Ok cards ->
  In card cards ->
  front card <> EmptyString.
Proof.
  intros Hc Hin.
  destruct (fallback_card_cases this text cards card Hc Hin)
    as [[first [_ ->]]|[[term [Ht ->]]| ->]]; try discriminate.
  destruct (key_term_starts_lower _ _ _ Ht) as [c [t' [-> Hl]]].
  apply term_card_shape. exact Hl.
Qed.

(** X6.  The heuristic flashcard generator never throws.  For every text
    it returns three to five cards; every card has a front that is not
    empty and a back of at most 153 characters; and the only card whose
    back can be empty is the card of the main concept, made from the
    first sentence of the text. *)
Theorem fallback_flashcards_shape (this : AIService) (text : string) :
  exists cards,
    generateFallbackFlashcards this text = Ok cards
    /\ 3 <= length cards <= 5
    /\ forall card,
         In card cards ->
         front card <> EmptyString
         /\ JS.len (back card) <= 153
         /\ (back card = EmptyString ->
             exists first,
               nth_error (JS.match_sentences text) 0 = Some first
               /\ card = main_concept_card first).
Proof.
  destruct (fallback_flashcards_total this text) as [cards [Hc Hlen]].
  exists cards. split; [exact Hc|]. split; [exact Hlen|].
  intros card Hin.
  split; [apply (fallback_card_front this text cards card Hc Hin)|].
  destruct (fallback_card_cases this text cards card Hc Hin)
    as [[first [Hfirst ->]]|[[term [Ht ->]]| ->]].
  - split; [apply capped_len|]. intros _. exists first.
    split; [exact Hfirst | reflexivity].
  - destruct (key_term_starts_lower _ _ _ Ht) as [c [t' [-> Hl]]].
    destruct (term_card_shape (JS.match_sentences text) c t' Hl)
      as [_ [Hlen' Hback]].
    split; [exact Hlen'|]. intros H. contradiction.
  - split; [unfold JS.len; simpl; lia|]. intros H. discriminate H.
Qed.

End KeyTermFacts.

(** * The generation operations *)

Module GenerationFacts.
Import AIService.
Import Spec.
Import Scenarios.
Import CleaningFacts.
Import KeyTermFacts.
Import ParserFacts.
Import OrchestratorFacts.
Import FallbackFacts.
Local Open Scope list_scope.

#[local] Arguments firstn : simpl never.

(** ** What the operations return *)

Lemma keeps_accepts {A} (p : A -> Result bool) (x : A) :
  keeps p x = true -> p x = Ok true.
Proof.
  unfold keeps. destruct (p x) as [[|]|e]; congruence.
Qed.

Lemma firstn_nonempty {A} (n : nat) (l : list A) :
  0 < n -> 0 < length l -> 1 <= length (firstn n l) <= n.
Proof.
  intros Hn Hl. rewrite length_firstn. lia.
Qed.

Lemma questions_of_parsed_valid (parsed : JSValue) (result : list JSValue) :
  questions_of_parsed parsed = Ok result ->
  1 <= length result <= 4
  /\ forall q, In q result -> valid_question q = Ok true.
Proof.
  unfold questions_of_parsed. destruct parsed; try discriminate.
  destruct (filterR valid_question items) as [kept|e] eqn:F; simpl;
    [|discriminate].
  destruct (0 <? length kept) eqn:L; [|discriminate].
  apply Nat.ltb_lt in L. intros H. injection H as <-.
  split; [apply firstn_nonempty; lia|].
  intros q Hq. apply In_firstn in Hq.
  apply filterR_filter in F. subst kept.
  apply filter_In in Hq. destruct Hq as [_ Hq].
  apply keeps_accepts. exact Hq.
Qed.

Lemma cards_of_parsed_valid (parsed : JSValue) (result : list JSValue) :
  cards_of_parsed parsed = Ok result ->
  1 <= length result <= 5
  /\ forall card, In card result -> valid_card card = Ok true.
Proof.
  unfold cards_of_parsed. destruct parsed; try discriminate.
  destruct (filterR valid_card items) as [kept|e] eqn:F; simpl;
    [|discriminate].
  destruct (0 <? length kept) eqn:L; [|discriminate].
  apply Nat.ltb_lt in L. intros H. injection H as <-.
  split; [apply firstn_nonempty; lia|].
  intros q Hq. apply In_firstn in Hq.
  apply filterR_filter in F. subst kept.
  apply filter_In in Hq. destruct Hq as [_ Hq].
  apply keeps_accepts. exact Hq.
Qed.

Lemma parseQuizResponse_valid (this : AIService) (response : JSValue)
    (result : list JSValue) :
  parseQuizResponse this response = Ok result ->
  1 <= length result <= 4
  /\ forall q, In q result -> valid_question q = Ok true.
Proof.
  unfold parseQuizResponse.
  destruct (clean_response response) as [text|e]; simpl; [|discriminate].
  destruct (Json.parse text) as [parsed|e]; simpl; [|discriminate].
  apply questions_of_parsed_valid.
Qed.

Lemma parseFlashcardResponse_valid (this : AIService) (response : JSValue)
    (result : list JSValue) :
  parseFlashcardResponse this response = Ok result ->
  1 <= length result <= 5
  /\ forall card, In card result -> valid_card card = Ok true.
Proof.
  unfold parseFlashcardResponse.
  destruct (clean_response response) as [text|e]; simpl; [|discriminate].
  destruct (Json.parse text) as [parsed|e]; simpl; [|discriminate].
  apply cards_of_parsed_valid.
Qed.

(** X7.  A parser that returns never returns an empty list: the quiz
    parser gives one to four entries and the flashcard parser one to five
    cards.  Every card returned has a [front] and a [back] that are
    strings and not empty. *)
Theorem parsers_return_valid_entries (this : AIService)
    (response : JSValue) (result : list JSValue) :
  (parseQuizResponse this response = Ok result ->
   1 <= length result <= 4
   /\ forall q, In q result -> valid_question q = Ok true)
  /\ (parseFlashcardResponse this response = Ok result ->
      1 <= length result <= 5
      /\ forall card,
           In card result ->
           (exists s, Val.get_opt card "front" = JStr s /\ s <> EmptyString)
           /\ (exists s, Val.get_opt card "back" = JStr s
                         /\ s <> EmptyString)).
Proof.
  split; intros H.
  - apply (parseQuizResponse_valid this response result H).
  - destruct (parseFlashcardResponse_valid this response result H)
      as [Hlen Hv].
    split; [exact Hlen|]. intros card Hc.
    apply valid_card_accepts. apply Hv. exact Hc.
Qed.

(** The entries of the heuristic quiz pass the filter of the parser. *)
Lemma fallback_quiz_valid (this : AIService) (text : string) :
  3 <= length (generateFallbackQuiz this text) <= 4
  /\ forall q,
       In q (generateFallbackQuiz this text) ->
       valid_question (question_object q) = Ok true.
Proof.
  unfold generateFallbackQuiz.
  destruct (firstn 3 (key_terms commonWords text)) as [|term0 rest].
  - split; [simpl; lia|]. simpl.
    intros q [<-|[<-|[<-|[]]]]; reflexivity.
  - split; [simpl; lia|]. simpl.
    intros q [<-|[<-|[<-|[<-|[]]]]]; reflexivity.
Qed.

(** ** What the operations do to the world *)

Lemma carries_retry_events (prompt : string) (delay from k : nat) :
  Forall (carries prompt) (retry_events prompt delay from k).
Proof.
  revert from. induction k as [|k IH]; intros from.
  - rewrite retry_events_0. repeat constructor.
  - rewrite retry_events_S. constructor; [reflexivity|].
    constructor; [exact I | apply IH].
Qed.

(** One provider call: its fetches send the prompt, and their number and
    the time waited are bounded. *)
Lemma call_provider_bounds (this : AIService) (prompt : string)
    (p : Provider) (w : World) :
  configured (key_of this p) = true ->
  exists evs,
    trace (snd (call_provider this prompt p w)) = trace w ++ evs
    /\ Forall (carries prompt) evs
    /\ length (fetched evs) <= most_fetches p
    /\ list_sum (waits evs) <= longest_wait (requestDelay this) p.
Proof.
  intros Hkey. destruct p; simpl in Hkey; cbn [call_provider].
  - destruct (gemini_run this prompt _ Hkey 0 w eq_refl) as [Hw _].
    cbv zeta in Hw. rewrite Hw. cbn [after_gemini trace].
    eexists. split; [reflexivity|].
    split; [apply carries_retry_events|].
    rewrite fetched_retry_events, repeat_length, waits_retry_events.
    change (2 - 0) with 2.
    remember (Nat.min (leading_rate_limits (gemini_script w)) 2) as j.
    assert (Hj : j <= 2) by lia. clear Heqj Hw.
    remember (requestDelay this) as d.
    cbn [most_fetches longest_wait].
    destruct j as [|[|[|j]]]; cbn [seq map list_sum fold_right]; lia.
  - rewrite groq_run by assumption. simpl.
    eexists. split; [reflexivity|].
    split; [repeat constructor|]. simpl. lia.
  - rewrite cohere_run by assumption. simpl.
    eexists. split; [reflexivity|].
    split; [repeat constructor|]. simpl. lia.
Qed.

Lemma list_sum_cons (a : nat) (l : list nat) :
  list_sum (a :: l) = a + list_sum l.
Proof. reflexivity. Qed.

Lemma try_in_order_bounds (this : AIService) (prompt : string)
    (ps : list Provider) :
  forall w,
  exists evs,
    trace (snd (try_in_order this prompt ps w)) = trace w ++ evs
    /\ Forall (carries prompt) evs
    /\ length (fetched evs) <= list_sum (map most_fetches ps)
    /\ list_sum (waits evs)
       <= list_sum (map (longest_wait (requestDelay this)) ps).
Proof.
  induction ps as [|p rest IH]; intros w; cbn [try_in_order map];
    rewrite ?list_sum_cons.
  - exists []. rewrite app_nil_r. simpl.
    split; [reflexivity|]. split; [constructor|]. lia.
  - destruct (configured (key_of this p)) eqn:Hkey.
    + destruct (call_provider_bounds this prompt p w Hkey)
        as [evs [Ht [Hc [Hf Hw]]]].
      unfold try_catch.
      destruct (call_provider this prompt p w) as [[v|e] w1] eqn:Hcall;
        cbn [snd] in Ht |- *.
      * exists evs. split; [exact Ht|]. split; [exact Hc|]. lia.
      * destruct (IH w1) as [evs' [Ht' [Hc' [Hf' Hw']]]].
        exists (evs ++ evs').
        split; [rewrite Ht', Ht, app_assoc; reflexivity|].
        split; [apply Forall_app; split; assumption|].
        rewrite fetched_app, waits_app, length_app, list_sum_app. lia.
    + destruct (IH w) as [evs' [Ht' [Hc' [Hf' Hw']]]].
      exists evs'. split; [exact Ht'|]. split; [exact Hc'|]. lia.
Qed.

Lemma makeRequest_bounds (this : AIService) (prompt : string) (w : World) :
  exists evs,
    trace (snd (makeRequest this prompt 0 w)) = trace w ++ evs
    /\ Forall (carries prompt) evs
    /\ length (fetched evs) <= 5
    /\ list_sum (waits evs) <= 3 * requestDelay this.
Proof.
  rewrite makeRequest_try_in_order.
  destruct (try_in_order_bounds this prompt [Gemini; Groq; Cohere] w)
    as [evs [Ht [Hc [Hf Hw]]]].
  exists evs. split; [exact Ht|]. split; [exact Hc|].
  cbn [map most_fetches longest_wait] in Hf, Hw.
  rewrite !list_sum_cons in Hf, Hw. simpl list_sum in Hf, Hw. lia.
Qed.

(** One run of each operation: it returns, it adds to the trace the
    events of the provider chain (after a wait of 1000 ms for the quiz
    and the flashcards), and what it returns has the shape that the
    parser asks for. *)
Lemma summary_run (this : AIService) (text level : string) (w : World) :
  exists summary w1 evs,
    generateSummary this text level w = (Ok summary, w1)
    /\ trace w1 = trace w ++ evs
    /\ Forall (carries (summary_prompt text level)) evs
    /\ length (fetched evs) <= 5
    /\ list_sum (waits evs) <= 3 * requestDelay this.
Proof.
  destruct (makeRequest_bounds this (summary_prompt text level) w)
    as [evs [Ht Hb]].
  unfold generateSummary, try_catch, bind, lift, ret.
  destruct (makeRequest this (summary_prompt text level) 0 w)
    as [[v|e] w1]; cbn [snd] in Ht.
  - destruct (trim_value v); eexists; exists w1, evs; (split; [reflexivity|]);
      (split; [exact Ht | exact Hb]).
  - eexists; exists w1, evs. split; [reflexivity|].
    split; [exact Ht | exact Hb].
Qed.

Lemma quiz_run (this : AIService) (text : string) (w : World) :
  exists quiz w1 evs,
    generateQuiz this text w = (Ok quiz, w1)
    /\ trace w1 = trace w ++ EvSleep 1000 :: evs
    /\ Forall (carries (quiz_prompt text)) evs
    /\ length (fetched evs) <= 5
    /\ list_sum (waits evs) <= 3 * requestDelay this
    /\ 1 <= length quiz <= 4
    /\ forall q, In q quiz -> valid_question q = Ok true.
Proof.
  destruct (makeRequest_bounds this (quiz_prompt text)
              (emit w (EvSleep 1000))) as [evs [Ht [Hc [Hf Hw]]]].
  cbn [emit trace] in Ht. rewrite <- app_assoc in Ht.
  destruct (fallback_quiz_valid this text) as [Hlen Hvalid].
  assert (Hfb : 1 <= length (map question_object
                               (generateFallbackQuiz this text)) <= 4
                /\ forall q,
                     In q (map question_object
                             (generateFallbackQuiz this text)) ->
                     valid_question q = Ok true).
  { rewrite length_map. split; [lia|].
    intros q Hq. apply in_map_iff in Hq. destruct Hq as [q0 [<- Hq0]].
    apply Hvalid. exact Hq0. }
  unfold generateQuiz, try_catch, bind, lift, ret, sleep.
  destruct (makeRequest this (quiz_prompt text) 0 (emit w (EvSleep 1000)))
    as [[v|e] w1]; cbn [snd] in Ht.
  - destruct (parseQuizResponse this v) as [quiz|e] eqn:Hp.
    + exists quiz, w1, evs. split; [reflexivity|].
      repeat (split; [assumption|]).
      apply (parseQuizResponse_valid this v quiz Hp).
    + eexists; exists w1, evs. split; [reflexivity|].
      repeat (split; [assumption|]). exact Hfb.
  - eexists; exists w1, evs. split; [reflexivity|].
    repeat (split; [assumption|]). exact Hfb.
Qed.

Lemma flashcards_run (this : AIService) (text : string) (w : World) :
  exists cards w1 evs,
    generateFlashcards this text w = (Ok cards, w1)
    /\ trace w1 = trace w ++ EvSleep 1000 :: evs
    /\ Forall (carries (flashcard_prompt text)) evs
    /\ length (fetched evs) <= 5
    /\ list_sum (waits evs) <= 3 * requestDelay this
    /\ 1 <= length cards <= 5
    /\ forall card,
         In card cards ->
         (exists s, Val.get_opt card "front" = JStr s /\ s <> EmptyString)
         /\ (exists s, Val.get_opt card "back" = JStr s).
Proof.
  destruct (makeRequest_bounds this (flashcard_prompt text)
              (emit w (EvSleep 1000))) as [evs [Ht [Hc [Hf Hw]]]].
  cbn [emit trace] in Ht. rewrite <- app_assoc in Ht.
  destruct (fallback_flashcards_total this text)
    as [fallback [Hfall Hlen]].
  assert (Hfb : 1 <= length (map card_object fallback) <= 5
                /\ forall card,
                     In card (map card_object fallback) ->
                     (exists s, Val.get_opt card "front" = JStr s
                                /\ s <> EmptyString)
                     /\ (exists s, Val.get_opt card "back" = JStr s)).
  { rewrite length_map. split; [lia|].
    intros card Hin. apply in_map_iff in Hin. destruct Hin as [c [<- Hin]].
    pose proof (fallback_card_front this text fallback c Hfall Hin)
      as Hfront.
    split; [exists (front c) | exists (back c)]; auto. }
  unfold generateFlashcards, try_catch, bind, lift, ret, sleep.
  destruct (makeRequest this (flashcard_prompt text) 0
              (emit w (EvSleep 1000)))
    as [[v|e] w1]; cbn [snd] in Ht.
  - destruct (parseFlashcardResponse this v) as [cards|e] eqn:Hp.
    + exists cards, w1, evs. split; [reflexivity|].
      repeat (split; [assumption|]).
      destruct (parseFlashcardResponse_valid this v cards Hp) as [Hl Hv].
      split; [exact Hl|]. intros card Hin.
      destruct (valid_card_accepts card (Hv card Hin))
        as [Hfront [s [Hback _]]].
      split; [exact Hfront | exists s; exact Hback].
    + rewrite Hfall. eexists; exists w1, evs. split; [reflexivity|].
      repeat (split; [assumption|]). exact Hfb.
  - rewrite Hfall. eexists; exists w1, evs. split; [reflexivity|].
    repeat (split; [assumption|]). exact Hfb.
Qed.

(** X8.  In the multi-provider file the quiz operation always returns,
    whatever the providers do: one to four entries, each of which passes
    the filter of the quiz parser (a question that is not empty, exactly
    four options, an index that is a number from 0 up to, not including,
    4), be they parsed from a provider answer or made by the heuristic
    generator. *)
Theorem generated_quiz_is_well_formed (this : AIService) (text : string)
    (w : World) :
  exists quiz,
    result (generateQuiz this text) w = Ok quiz
    /\ 1 <= length quiz <= 4
    /\ forall q, In q quiz -> valid_question q = Ok true.
Proof.
  destruct (quiz_run this text w)
    as [quiz [w1 [evs [Hrun [_ [_ [_ [_ Hshape]]]]]]]].
  exists quiz. unfold result. rewrite Hrun. split; [reflexivity|exact Hshape].
Qed.

(** X9.  In the multi-provider file the flashcard operation always
    returns one to five cards, each with a [front] that is a string and
    not empty and a [back] that is a string. *)
Theorem generated_flashcards_are_well_formed (this : AIService)
    (text : string) (w : World) :
  exists cards,
    result (generateFlashcards this text) w = Ok cards
    /\ 1 <= length cards <= 5
    /\ forall card,
         In card cards ->
         (exists s, Val.get_opt card "front" = JStr s /\ s <> EmptyString)
         /\ (exists s, Val.get_opt card "back" = JStr s).
Proof.
  destruct (flashcards_run this text w)
    as [cards [w1 [evs [Hrun [_ [_ [_ [_ Hshape]]]]]]]].
  exists cards. unfold result. rewrite Hrun.
  split; [reflexivity|exact Hshape].
Qed.

(** X10.  What one generation operation of the multi-provider file costs,
    whatever the providers answer: at most five fetches (three of Gemini,
    one of Groq, one of Cohere), every one of them sending the prompt of
    the operation, built from the text given; and waits between them of
    at most 6000 ms in all.  The quiz and the flashcard operations first
    wait 1000 ms. *)
Theorem generation_cost_is_bounded (env : Env) (text level : string)
    (w : World) :
  let this := constructor env in
  (let evs := events (generateSummary this text level) w in
   Forall (carries (summary_prompt text level)) evs
   /\ length (fetched evs) <= 5
   /\ list_sum (waits evs) <= 6000)
  /\ (exists evs,
        events (generateQuiz this text) w = EvSleep 1000 :: evs
        /\ Forall (carries (quiz_prompt text)) evs
        /\ length (fetched evs) <= 5
        /\ list_sum (waits evs) <= 6000)
  /\ (exists evs,
        events (generateFlashcards this text) w = EvSleep 1000 :: evs
        /\ Forall (carries (flashcard_prompt text)) evs
        /\ length (fetched evs) <= 5
        /\ list_sum (waits evs) <= 6000).
Proof.
  intros this.
  assert (Hd : 3 * requestDelay this = 6000) by reflexivity.
  split; [|split].
  - destruct (summary_run this text level w)
      as [s [w1 [evs [Hrun [Ht [Hc [Hf Hw]]]]]]].
    assert (E : events (generateSummary this text level) w = evs).
    { apply events_extension. rewrite Hrun. exact Ht. }
    cbv zeta. rewrite E. split; [exact Hc|]. split; [exact Hf | lia].
  - destruct (quiz_run this text w)
      as [q [w1 [evs [Hrun [Ht [Hc [Hf [Hw _]]]]]]]].
    exists evs. split; [|split; [exact Hc|split; [exact Hf | lia]]].
    apply events_extension. rewrite Hrun. exact Ht.
  - destruct (flashcards_run this text w)
      as [c [w1 [evs [Hrun [Ht [Hc [Hf [Hw _]]]]]]]].
    exists evs. split; [|split; [exact Hc|split; [exact Hf | lia]]].
    apply events_extension. rewrite Hrun. exact Ht.
Qed.

(** ** A provider that answers *)

Lemma gemini_answers (this : AIService) (prompt : string) (w : World)
    (r : Response) (rest : list FetchOutcome) :
  configured (googleApiKey this) = true ->
  gemini_script w = Answered r :: rest ->
  ok r = true ->
  makeGeminiRequest this prompt 0 w
  = (gemini_text "Invalid Gemini API response" r,
     set_script (emit w (EvFetch Gemini prompt)) Gemini rest).
Proof.
  intros Hkey Hg Hok.
  rewrite makeGeminiRequest_equation_1. rewrite Hkey. simpl negb. cbv iota.
  unfold bind, fetch. simpl. rewrite Hg. simpl. rewrite Hok. simpl.
  unfold lift.
  destruct (gemini_text "Invalid Gemini API response" r); reflexivity.
Qed.

Lemma groq_answers (this : AIService) (prompt : string) (w : World)
    (r : Response) (rest : list FetchOutcome) :
  configured (groqApiKey this) = true ->
  groq_script w = Answered r :: rest ->
  ok r = true ->
  makeGroqRequest this prompt w
  = (groq_text r, set_script (emit w (EvFetch Groq prompt)) Groq rest).
Proof.
  intros Hkey Hg Hok.
  unfold makeGroqRequest. rewrite Hkey. simpl negb. cbv iota.
  unfold bind, fetch. simpl. rewrite Hg. simpl. rewrite Hok. simpl.
  unfold lift. destruct (groq_text r); reflexivity.
Qed.

(** X11.  When Gemini has a key and answers the first call with a
    response that is [ok] and holds a text, the summary operation returns
    that text, trimmed, after this one fetch: no retry, no wait, and no
    call of Groq or Cohere.  The quiz operation, after its wait of
    1000 ms and the same single fetch, returns what the parser makes of
    the text, or the heuristic quiz when the parser throws. *)
Theorem gemini_answer_is_returned (this : AIService) (text level : string)
    (w : World) (r : Response) (rest : list FetchOutcome) (s : string) :
  configured (googleApiKey this) = true ->
  gemini_script w = Answered r :: rest ->
  ok r = true ->
  gemini_text "Invalid Gemini API response" r = Ok (JStr s) ->
  generateSummary this text level w
  = (Ok (JS.trim s),
     set_script (emit w (EvFetch Gemini (summary_prompt text level)))
       Gemini rest)
  /\ generateQuiz this text w
     = (Ok match parseQuizResponse this (JStr s) with
           | Ok quiz => quiz
           | Throw _ => map question_object (generateFallbackQuiz this text)
           end,
        set_script
          (emit (emit w (EvSleep 1000)) (EvFetch Gemini (quiz_prompt text)))
          Gemini rest).
Proof.
  intros Hkey Hg Hok Htext. split.
  - unfold generateSummary, makeRequest, try_provider, try_catch, bind.
    rewrite Hkey.
    rewrite (gemini_answers this _ w r rest Hkey Hg Hok), Htext.
    reflexivity.
  - unfold generateQuiz, makeRequest, try_provider, try_catch, bind, sleep.
    rewrite Hkey.
    rewrite (gemini_answers this _ (emit w (EvSleep 1000)) r rest Hkey Hg
               Hok), Htext.
    unfold ret, lift.
    destruct (parseQuizResponse this (JStr s)); reflexivity.
Qed.

Lemma gemini_answer_witness :
  generateSummary (constructor all_keys) "Cats purr." "college"
    (world_of [Answered (gemini_answer (JStr " Cats make a sound. "))] [] [])
  = (Ok "Cats make a sound.",
     {| gemini_script := []; groq_script := []; cohere_script := [];
        trace := [EvFetch Gemini (summary_prompt "Cats purr." "college")] |}).
Proof.
  exact (proj1 (gemini_answer_is_returned (constructor all_keys)
                  "Cats purr." "college"
                  (world_of
                     [Answered (gemini_answer (JStr " Cats make a sound. "))]
                     [] [])
                  (gemini_answer (JStr " Cats make a sound. ")) []
                  " Cats make a sound. " eq_refl eq_refl eq_refl eq_refl)).
Defined.

(** X12.  The chain ends with the first provider that answers, usable or
    not: when Gemini has no key and Groq answers with a response that is
    [ok] but whose content is not a string (null, or missing), the
    summary operation falls back on the heuristic summary after this one
    fetch, and Cohere is not called, key or no key. *)
Theorem unusable_answer_ends_the_chain (this : AIService)
    (text level : string) (w : World) (r : Response)
    (rest : list FetchOutcome) (content : JSValue) :
  configured (googleApiKey this) = false ->
  configured (groqApiKey this) = true ->
  groq_script w = Answered r :: rest ->
  ok r = true ->
  groq_text r = Ok content ->
  (forall s, content <> JStr s) ->
  generateSummary this text level w
  = (Ok (generateFallbackSummary this text level),
     set_script (emit w (EvFetch Groq (summary_prompt text level)))
       Groq rest).
Proof.
  intros Hgoogle Hkey Hg Hok Htext Hnot.
  unfold generateSummary, makeRequest, try_provider, try_catch, bind.
  rewrite Hgoogle, Hkey. unfold ret at 1.
  rewrite (groq_answers this _ w r rest Hkey Hg Hok), Htext.
  unfold ret, lift.
  destruct content; try reflexivity.
  exfalso. apply (Hnot s). reflexivity.
Qed.

Lemma unusable_answer_witness :
  fetched (trace (snd (generateSummary (constructor groq_and_cohere)
                         "Cats purr." "college"
                         (world_of [] [Answered (groq_answer JNull)]
                                   [cohere_answer "A summary."]))))
  = [Groq].
Proof.
  rewrite (unusable_answer_ends_the_chain (constructor groq_and_cohere)
             "Cats purr." "college"
             (world_of [] [Answered (groq_answer JNull)]
                       [cohere_answer "A summary."])
             (groq_answer JNull) [] JNull eq_refl eq_refl eq_refl eq_refl
             eq_refl).
  - reflexivity.
  - intros s. discriminate.
Defined.

End GenerationFacts.

(** * A null entry in a provider answer *)

Module NullEntryFacts.
Import AIService.
Import Spec.
Import Scenarios.
Import ParserFacts.
Import GenerationFacts.
Local Open Scope list_scope.

#[local] Arguments firstn : simpl never.

Lemma filterR_null {A} (p : A -> Result bool) (e : JSError)
    (items : list A) (bad : A) :
  (forall x, In x items -> (exists b, p x = Ok b) \/ p x = Throw e) ->
  In bad items -> p bad = Throw e ->
  filterR p items = Throw e.
Proof.
  induction items as [|x items IH]; intros Hall Hin Hbad; [destruct Hin|].
  cbn [filterR].
  destruct (Hall x (or_introl eq_refl)) as [[b Hb]|Hx].
  - rewrite Hb. cbn [rbind].
    destruct Hin as [->|Hin]; [congruence|].
    rewrite IH; [reflexivity| |exact Hin|exact Hbad].
    intros y Hy. apply Hall. right. exact Hy.
  - rewrite Hx. reflexivity.
Qed.

Lemma valid_question_or_null (q : JSValue) :
  (exists b, valid_question q = Ok b)
  \/ valid_question q
     = Throw (TypeError "Cannot read properties of undefined or null").
Proof.
  destruct q; try (right; reflexivity); left;
    apply valid_question_defined; discriminate.
Qed.

Lemma valid_card_or_null (card : JSValue) :
  (exists b, valid_card card = Ok b)
  \/ valid_card card
     = Throw (TypeError "Cannot read properties of undefined or null").
Proof.
  unfold valid_card.
  destruct card; try (right; reflexivity); left; simpl;
    try (eexists; reflexivity).
  destruct (Val.lookup "front" fields) as [f|]; simpl;
    [|eexists; reflexivity].
  destruct (Val.truthy f); simpl; [|eexists; reflexivity].
  destruct (Val.lookup "back" fields) as [b|]; simpl;
    [|eexists; reflexivity].
  destruct (Val.truthy b); simpl; eexists; reflexivity.
Qed.

(** X13.  One null entry discards a whole answer: when the array that a
    provider text parses to has a null among its entries, both parsers
    throw the [TypeError] of reading a property of null, whatever the
    other entries are; and the quiz operation of the multi-provider file
    that got this text from a provider returns the heuristic quiz. *)
Theorem null_entry_discards_the_answer (this : AIService)
    (response : JSValue) (items : list JSValue) :
  parsed_items response = Some items ->
  In JNull items ->
  parseQuizResponse this response
  = Throw (TypeError "Cannot read properties of undefined or null")
  /\ parseFlashcardResponse this response
     = Throw (TypeError "Cannot read properties of undefined or null")
  /\ forall text w w1,
       makeRequest this (quiz_prompt text) 0 (emit w (EvSleep 1000))
       = (Ok response, w1) ->
       generateQuiz this text w
       = (Ok (map question_object (generateFallbackQuiz this text)), w1).
Proof.
  intros Hitems Hnull. unfold parsed_items in Hitems.
  assert (Hq : parseQuizResponse this response
               = Throw (TypeError
                          "Cannot read properties of undefined or null")).
  { unfold parseQuizResponse.
    destruct (clean_response response) as [text|e]; [|discriminate].
    cbn [rbind].
    destruct (Json.parse text) as [[| | | | |parsed|]|e]; try discriminate.
    injection Hitems as ->. cbn [rbind questions_of_parsed].
    rewrite (filterR_null valid_question
               (TypeError "Cannot read properties of undefined or null")
               items JNull);
      [reflexivity| |exact Hnull|reflexivity].
    intros x _. apply valid_question_or_null. }
  split; [exact Hq|]. split.
  - unfold parseFlashcardResponse.
    destruct (clean_response response) as [text|e]; [|discriminate].
    cbn [rbind].
    destruct (Json.parse text) as [[| | | | |parsed|]|e]; try discriminate.
    injection Hitems as ->. cbn [rbind cards_of_parsed].
    rewrite (filterR_null valid_card
               (TypeError "Cannot read properties of undefined or null")
               items JNull);
      [reflexivity| |exact Hnull|reflexivity].
    intros x _. apply valid_card_or_null.
  - intros text w w1 Hrun.
    unfold generateQuiz, try_catch, bind, sleep, lift, ret.
    rewrite Hrun, Hq. reflexivity.
Qed.

Lemma null_entry_witness :
  parseQuizResponse no_keys (JStr entry_and_null)
  = Throw (TypeError "Cannot read properties of undefined or null").
Proof.
  apply (null_entry_discards_the_answer no_keys (JStr entry_and_null)
           [question_value "Q1"; JNull]).
  - vm_compute. reflexivity.
  - right. left. reflexivity.
Defined.

End NullEntryFacts.

(** * The Gemini client and the prompts *)

Module ProviderFacts.
Import AIService.
Import Spec.
Import Scenarios.
Import OrchestratorFacts.

(** ** What a Gemini call returns *)

Lemma gemini_text_truthy (invalid : string) (r : Response) (v : JSValue) :
  gemini_text invalid r = Ok v -> Val.truthy v = true.
Proof.
  unfold gemini_text.
  destruct (json r) as [data|e]; simpl; [|discriminate].
  destruct (Val.get data "candidates") as [candidates|e]; simpl;
    [|discriminate].
  match goal with
  | |- (if negb (Val.truthy ?t) then _ else _) = _ -> _ =>
      destruct (Val.truthy t) eqn:T; simpl; [|discriminate]
  end.
  intros H. injection H as <-. exact T.
Qed.

Lemma api_error_throws (p : Provider) (r : Response) (v : JSValue) :
  api_error p r <> Ok v.
Proof.
  unfold api_error.
  destruct (Val.get (json_or_empty r) "error"); simpl; discriminate.
Qed.

Lemma gemini_returns_truthy (this : AIService) (prompt : string) (k : nat) :
  forall retryCount w v,
    2 - retryCount = k ->
    fst (makeGeminiRequest this prompt retryCount w) = Ok v ->
    Val.truthy v = true.
Proof.
  induction k as [|k IH]; intros rc w v Hk;
    rewrite makeGeminiRequest_equation_1;
    (destruct (configured (googleApiKey this)); simpl negb; cbv iota;
     [|discriminate]);
    unfold bind, fetch, sleep; simpl;
    (destruct (gemini_script w) as [|[|r] rest]; simpl; try discriminate);
    (destruct (ok r); simpl;
     [unfold lift; simpl; apply gemini_text_truthy|]).
  - destruct (Nat.eq_dec (status r) 429) as [E|E];
      [destruct (lt_dec rc 2) as [L|L]; [lia|]|];
      unfold lift; simpl; intros H; destruct (api_error_throws _ _ _ H).
  - destruct (Nat.eq_dec (status r) 429) as [E|E];
      [destruct (lt_dec rc 2) as [L|L]|].
    + apply IH. lia.
    + unfold lift; simpl; intros H; destruct (api_error_throws _ _ _ H).
    + unfold lift; simpl; intros H; destruct (api_error_throws _ _ _ H).
Qed.

Lemma serverjs_returns_truthy (this : ServerJs.AIService) (prompt : string)
    (k : nat) :
  forall retryCount w v,
    2 - retryCount = k ->
    fst (ServerJs.makeRequest this prompt retryCount w) = Ok v ->
    Val.truthy v = true.
Proof.
  induction k as [|k IH]; intros rc w v Hk;
    rewrite ServerJs.makeRequest_equation_1;
    (destruct (configured (ServerJs.apiKey this)); simpl negb; cbv iota;
     [|discriminate]);
    unfold bind, fetch, sleep; simpl;
    (destruct (gemini_script w) as [|[|r] rest]; simpl; try discriminate);
    (destruct (ok r); simpl;
     [unfold lift; simpl; apply gemini_text_truthy|]).
  - destruct (Nat.eq_dec (status r) 429) as [E|E];
      [destruct (lt_dec rc 2) as [L|L]; [lia|]|];
      unfold lift; simpl; intros H; destruct (api_error_throws _ _ _ H).
  - destruct (Nat.eq_dec (status r) 429) as [E|E];
      [destruct (lt_dec rc 2) as [L|L]|].
    + apply IH. lia.
    + unfold lift; simpl; intros H; destruct (api_error_throws _ _ _ H).
    + unfold lift; simpl; intros H; destruct (api_error_throws _ _ _ H).
Qed.

(** X14.  A Gemini call never returns an empty answer: in both files,
    what the Gemini client returns, after any number of retries, is a
    value that JavaScript takes as true (so not undefined, not null and
    not the empty string); a response without such a text makes the
    call throw instead. *)
Theorem gemini_never_returns_empty (prompt : string) (w : World)
    (v : JSValue) :
  (forall this : AIService,
     result (fun w => makeGeminiRequest this prompt 0 w) w = Ok v ->
     Val.truthy v = true)
  /\ (forall this : ServerJs.AIService,
        result (fun w => ServerJs.makeRequest this prompt 0 w) w = Ok v ->
        Val.truthy v = true).
Proof.
  split; intros this H.
  - apply (gemini_returns_truthy this prompt 2 0 w v eq_refl H).
  - apply (serverjs_returns_truthy this prompt 2 0 w v eq_refl H).
Qed.

(** ** The text in the prompts *)

Lemma take_take (n : nat) (s : string) : JS.take n (JS.take n s) = JS.take n s.
Proof.
  revert s. induction n as [|n IH]; intros [|c s]; simpl; try reflexivity.
  rewrite IH. reflexivity.
Qed.


(** X15.  The providers see only the start of a long text: the first
    3000 characters for a summary, the first 2500 for a quiz or for
    flashcards.  For two texts with the same start, an operation does
    the same to the world (the same fetches with the same prompts), and
    it returns the same result, unless it falls back: only the heuristic
    generators read the rest of the text. *)
Theorem providers_see_the_start_of_the_text (this : AIService)
    (text1 text2 level : string) (w : World) :
  (JS.take 3000 text1 = JS.take 3000 text2 ->
   let run1 := generateSummary this text1 level w in
   let run2 := generateSummary this text2 level w in
   snd run1 = snd run2
   /\ (fst run1 = fst run2
       \/ fst run1 = Ok (generateFallbackSummary this text1 level)
          /\ fst run2 = Ok (generateFallbackSummary this text2 level)))
  /\ (JS.take 2500 text1 = JS.take 2500 text2 ->
      (let run1 := generateQuiz this text1 w in
       let run2 := generateQuiz this text2 w in
       snd run1 = snd run2
       /\ (fst run1 = fst run2
           \/ fst run1
              = Ok (map question_object (generateFallbackQuiz this text1))
              /\ fst run2
                 = Ok (map question_object
                         (generateFallbackQuiz this text2))))
      /\ (let run1 := generateFlashcards this text1 w in
          let run2 := generateFlashcards this text2 w in
          snd run1 = snd run2
          /\ (fst run1 = fst run2
              \/ fst run1 = fallback_cards this text1
                 /\ fst run2 = fallback_cards this text2))).
Proof.
  split; intros H; [|split]; cbv zeta.
  - assert (E : summary_prompt text1 level = summary_prompt text2 level)
      by (unfold summary_prompt; rewrite H; reflexivity).
    unfold generateSummary, try_catch, bind, lift, ret. rewrite E.
    destruct (makeRequest this (summary_prompt text2 level) 0 w)
      as [[v|e] w1]; simpl; [|auto].
    destruct (trim_value v); simpl; auto.
  - assert (E : quiz_prompt text1 = quiz_prompt text2)
      by (unfold quiz_prompt; rewrite H; reflexivity).
    unfold generateQuiz, try_catch, bind, lift, ret, sleep. rewrite E.
    destruct (makeRequest this (quiz_prompt text2) 0 _)
      as [[v|e] w1]; simpl; [|auto].
    destruct (parseQuizResponse this v); simpl; auto.
  - assert (E : flashcard_prompt text1 = flashcard_prompt text2)
      by (unfold flashcard_prompt; rewrite H; reflexivity).
    unfold generateFlashcards, fallback_cards, try_catch, bind, lift, ret,
      sleep.
    rewrite E.
    destruct (makeRequest this (flashcard_prompt text2) 0 _)
      as [[v|e] w1]; simpl.
    + destruct (parseFlashcardResponse this v); simpl; [auto|].
      destruct (generateFallbackFlashcards this text1),
               (generateFallbackFlashcards this text2); simpl; auto.
    + destruct (generateFallbackFlashcards this text1),
               (generateFallbackFlashcards this text2); simpl; auto.
Qed.

End ProviderFacts.

(** * The single-provider file *)

Module ServerJsFacts.
Import Spec.
Import Scenarios.
Import OrchestratorFacts.
Import FallbackFacts.
Import GenerationFacts.
Local Open Scope list_scope.

#[local] Arguments firstn : simpl never.

(** What [makeRequest] of [server.js] does to the world: as the Gemini
    client of the other file, it is retried once for each leading
    rate-limit response while [retryCount] is below 2. *)
Lemma serverjs_run (this : ServerJs.AIService) (prompt : string) (k : nat) :
  AIService.configured (ServerJs.apiKey this) = true ->
  forall retryCount w,
    2 - retryCount = k ->
    let j := Nat.min (leading_rate_limits (gemini_script w))
                     (2 - retryCount) in
    snd (ServerJs.makeRequest this prompt retryCount w)
    = after_gemini w (S j)
        (retry_events prompt (ServerJs.requestDelay this) retryCount j)
    /\ (2 - retryCount < leading_rate_limits (gemini_script w) ->
        exists e,
          fst (ServerJs.makeRequest this prompt retryCount w) = Throw e).
Proof.
  intros Hkey. induction k as [|k IH]; intros rc w Hk.
  - rewrite ServerJs.makeRequest_equation_1. rewrite Hkey. simpl negb.
    cbv iota. rewrite Hk. rewrite Nat.min_0_r. cbv zeta.
    unfold bind, fetch. simpl.
    destruct (gemini_script w) as [|[|r] rest] eqn:Hg; simpl.
    + split; [unfold after_gemini, emit, set_script; simpl; rewrite ?Hg; reflexivity | lia].
    + split; [unfold after_gemini, emit, set_script; simpl; rewrite ?Hg; reflexivity | lia].
    + destruct (ok r) eqn:Hok; simpl; rewrite ?Hok; simpl.
      * split; [unfold after_gemini, emit, set_script; simpl; rewrite ?Hg; reflexivity|].
        rewrite (ok_not_rate_limited r Hok). lia.
      * destruct (Nat.eq_dec (status r) 429) as [E|E].
        -- destruct (lt_dec rc 2) as [L|L]; [lia|].
           split; [unfold after_gemini, emit, set_script; simpl; rewrite ?Hg; reflexivity|].
           intros _. unfold lift, AIService.api_error. simpl.
           destruct (Val.get (json_or_empty r) "error"); simpl; eauto.
        -- split; [unfold after_gemini, emit, set_script; simpl; rewrite ?Hg; reflexivity|].
           apply Nat.eqb_neq in E. rewrite E. lia.
  - assert (Hrc : rc < 2) by lia.
    assert (Hk' : 2 - (rc + 1) = k) by lia.
    rewrite ServerJs.makeRequest_equation_1. rewrite Hkey. simpl negb.
    cbv iota. cbv zeta. rewrite Hk.
    unfold bind, fetch, sleep. simpl.
    destruct (gemini_script w) as [|[|r] rest] eqn:Hg; simpl.
    + split; [unfold after_gemini, emit, set_script; simpl; rewrite ?Hg; reflexivity | lia].
    + split; [unfold after_gemini, emit, set_script; simpl; rewrite ?Hg; reflexivity | lia].
    + destruct (ok r) eqn:Hok; simpl; rewrite ?Hok; simpl.
      * rewrite (ok_not_rate_limited r Hok). simpl.
        split; [unfold after_gemini, emit, set_script; simpl; rewrite ?Hg; reflexivity | lia].
      * destruct (Nat.eq_dec (status r) 429) as [E|E].
        -- destruct (lt_dec rc 2) as [L|L]; [|lia].
           rewrite E. simpl Nat.eqb. cbv iota.
           match goal with
           | |- context [ServerJs.makeRequest this prompt (rc + 1) ?w1] =>
               destruct (IH (rc + 1) w1 Hk') as [IHw IHt];
               cbv zeta in IHw; rewrite Hk' in IHw, IHt;
               simpl gemini_script in IHw, IHt
           end.
           simpl Nat.min.
           split.
           ++ rewrite IHw. rewrite retry_events_S.
              unfold after_gemini, emit. simpl.
              replace (rc + 1) with (S rc) by lia. rewrite Hg. simpl.
              f_equal. rewrite <- !app_assoc. reflexivity.
           ++ intros Hl. apply IHt. lia.
        -- apply Nat.eqb_neq in E. rewrite E. simpl.
           split; [unfold after_gemini, emit, set_script; simpl; rewrite ?Hg; reflexivity | lia].
Qed.

(** X16.  [makeRequest] of [server.js] calls Gemini only.  Without a key
    it throws "API key not configured" and fetches nothing.  With a key
    it fetches once more for each leading rate-limit response, at most
    twice, after waits of [requestDelay] and twice [requestDelay]; after
    a third rate limit it throws. *)
Theorem serverjs_request_retries (this : ServerJs.AIService)
    (prompt : string) (w : World) :
  (AIService.configured (ServerJs.apiKey this) = false ->
   ServerJs.makeRequest this prompt 0 w
   = (Throw (Error "API key not configured"), w))
  /\ (AIService.configured (ServerJs.apiKey this) = true ->
      let n := leading_rate_limits (gemini_script w) in
      let k := Nat.min n 2 in
      let evs := events (fun w => ServerJs.makeRequest this prompt 0 w) w in
      evs = retry_events prompt (ServerJs.requestDelay this) 0 k
      /\ fetched evs = repeat Gemini (S k)
      /\ waits evs
         = map (fun retryCount =>
                  ServerJs.requestDelay this * (retryCount + 1))
               (seq 0 k)
      /\ (2 < n ->
          exists e,
            result (fun w => ServerJs.makeRequest this prompt 0 w) w
            = Throw e)).
Proof.
  split; intros Hkey.
  - rewrite ServerJs.makeRequest_equation_1. rewrite Hkey. reflexivity.
  - intros n k evs.
    destruct (serverjs_run this prompt 2 Hkey 0 w eq_refl) as [Hw Ht].
    cbv zeta in Hw. change (2 - 0) with 2 in Hw, Ht.
    fold n in Hw, Ht. fold k in Hw.
    assert (E : evs = retry_events prompt (ServerJs.requestDelay this) 0 k).
    { apply events_extension. rewrite Hw. reflexivity. }
    rewrite E, fetched_retry_events, waits_retry_events.
    repeat split. exact Ht.
Qed.

Lemma serverjs_retries_witness :
  waits (events (fun w => ServerJs.makeRequest
                            (ServerJs.constructor (Some "g-key")) "P" 0 w)
                throttled_world)
  = [2000; 4000].
Proof.
  destruct (proj2 (serverjs_request_retries
                     (ServerJs.constructor (Some "g-key")) "P"
                     throttled_world) eq_refl) as [_ [_ [H _]]].
  exact H.
Defined.

(** The heuristic flashcards of [server.js]. *)
Lemma serverjs_fallback_flashcards (this : ServerJs.AIService)
    (text : string) :
  exists cards,
    ServerJs.generateFallbackFlashcards this text = Ok cards
    /\ 3 <= length cards <= 5.
Proof.
  unfold ServerJs.generateFallbackFlashcards.
  assert (Hlen : forall cards,
            3 <= length (firstn 5 (AIService.pad_cards cards)) <= 5).
  { intros cards. rewrite length_firstn.
    pose proof (pad_cards_length cards). lia. }
  destruct (JS.match_sentences text) as [|first rest];
    cbn [length Nat.ltb Nat.leb AIService.item nth_error rbind];
    eexists; (split; [reflexivity | apply Hlen]).
Qed.

(** X17.  In [server.js] the summary and the flashcard operations never
    throw, whatever the provider does; the flashcard operation returns
    one to five cards.  The quiz operation returns only what the parser
    accepted of a provider answer; in every other case (no key, a failed
    call, an answer the parser refuses) it throws the [TypeError] of the
    call of the method the class does not have. *)
Theorem serverjs_outcomes (this : ServerJs.AIService) (text level : string)
    (w : World) :
  (exists summary,
     result (ServerJs.generateSummary this text level) w = Ok summary)
  /\ (exists cards,
        result (ServerJs.generateFlashcards this text) w = Ok cards
        /\ 1 <= length cards <= 5)
  /\ (let asked :=
        ServerJs.makeRequest this (AIService.quiz_prompt text) 0
          (emit w (EvSleep (ServerJs.requestDelay this))) in
      match fst asked with
      | Ok response =>
          match ServerJs.parseQuizResponse this response with
          | Ok quiz =>
              ServerJs.generateQuiz this text w = (Ok quiz, snd asked)
          | Throw _ =>
              ServerJs.generateQuiz this text w
              = (Throw (TypeError
                          "this.generateFallbackQuiz is not a function"),
                 snd asked)
          end
      | Throw _ =>
          ServerJs.generateQuiz this text w
          = (Throw (TypeError "this.generateFallbackQuiz is not a function"),
             snd asked)
      end).
Proof.
  split; [|split].
  - unfold result, ServerJs.generateSummary, try_catch, bind, lift, ret.
    destruct (ServerJs.makeRequest this _ 0 w) as [[v|e] w1]; simpl; eauto.
    destruct (AIService.trim_value v); simpl; eauto.
  - destruct (serverjs_fallback_flashcards this text) as [fb [Hf Hlen]].
    unfold result, ServerJs.generateFlashcards, try_catch, bind, lift, ret,
      sleep.
    destruct (ServerJs.makeRequest this _ 0 _) as [[v|e] w1]; simpl.
    + destruct (ServerJs.parseFlashcardResponse this v) as [cards|e] eqn:Hp;
        simpl.
      * exists cards. split; [reflexivity|].
        apply (parseFlashcardResponse_valid no_keys v cards Hp).
      * rewrite Hf. simpl. eexists. split; [reflexivity|].
        rewrite length_map. lia.
    + rewrite Hf. simpl. eexists. split; [reflexivity|].
      rewrite length_map. lia.
  - cbv zeta.
    unfold ServerJs.generateQuiz, try_catch, bind, lift, sleep.
    destruct (ServerJs.makeRequest this _ 0 _) as [[v|e] w1]; simpl;
      [|reflexivity].
    destruct (ServerJs.parseQuizResponse this v); reflexivity.
Qed.

End ServerJsFacts.

(** * The handlers *)

Module HandlerFacts.
Import AIService.
Import Routes.
Import Handlers.
Import Spec.
Import Scenarios.
Import CleaningFacts.
Import KeyTermFacts.
Import OrchestratorFacts.
Import FallbackFacts.
Import GenerationFacts.
Local Open Scope list_scope.

(** ** The texts that are processed *)

Lemma blank_false_trim (text : string) :
  blank (Some text) = false -> 0 < JS.len (JS.trim text).
Proof.
  unfold blank. intros H. apply orb_false_iff in H. destruct H as [_ H].
  apply Nat.eqb_neq in H. lia.
Qed.

(** What each route accepts. *)
Lemma process_text_accepts (given : option string) (text : string) :
  process_text given = Accepted text ->
  given = Some text /\ blank given = false /\ JS.len text <= 10000.
Proof.
  unfold process_text.
  destruct (blank given) eqn:B; [discriminate|].
  destruct given as [t|]; [|discriminate].
  destruct (10000 <? JS.len t) eqn:L; [discriminate|].
  intros H. assert (Ht : text = t) by congruence. subst t.
  apply Nat.ltb_ge in L. auto.
Qed.

Lemma process_file_accepts (given : option string) (text : string) :
  process_file given = Accepted text ->
  exists extracted,
    given = Some extracted
    /\ blank given = false
    /\ (text = extracted
        \/ 10000 < JS.len extracted
           /\ text = (JS.take 10000 extracted ++ "...")%string).
Proof.
  unfold process_file.
  destruct (blank given) eqn:B; [discriminate|].
  destruct given as [t|]; [|discriminate].
  intros H. exists t. split; [reflexivity|]. split; [reflexivity|].
  destruct (10000 <? JS.len t) eqn:L.
  - right. apply Nat.ltb_lt in L. split; [exact L | congruence].
  - left. congruence.
Qed.

(** X18.  The text that a processing route goes on with.  The text route
    goes on with the text of the request, unchanged, and only if it has a
    character other than white space and at most 10000 characters.  The
    file route goes on with the extracted text or, when that is longer
    than 10000 characters, with its first 10000 characters and an
    ellipsis; that text is not blank and has at most 10003 characters. *)
Theorem processed_text_is_bounded (given : option string) (text : string) :
  (process_text given = Accepted text ->
   given = Some text
   /\ 0 < JS.len (JS.trim text)
   /\ JS.len text <= 10000)
  /\ (process_file given = Accepted text ->
      exists extracted,
        given = Some extracted
        /\ 0 < JS.len (JS.trim extracted)
        /\ (text = extracted
            \/ 10000 < JS.len extracted
               /\ text = (JS.take 10000 extracted ++ "...")%string)
        /\ JS.len text <= 10003).
Proof.
  assert (E : 10003 = 10000 + 3) by (vm_compute; reflexivity).
  split; intros H.
  - destruct (process_text_accepts given text H) as [-> [B L]].
    split; [reflexivity|]. split; [apply blank_false_trim, B | exact L].
  - destruct (process_file_accepts given text H) as [t [-> [B Hcut]]].
    exists t. split; [reflexivity|].
    split; [apply blank_false_trim, B|]. split; [exact Hcut|].
    destruct Hcut as [->|[Hlong ->]].
    + unfold process_file in H. rewrite B in H.
      destruct (10000 <? JS.len t) eqn:L.
      * assert (Hlen : JS.len t
                       = JS.len (JS.take 10000 t ++ "...")%string)
          by congruence.
        rewrite len_append in Hlen.
        pose proof (KeyTermFacts.len_take 10000 t).
        change (JS.len "...") with 3 in Hlen. lia.
      * apply Nat.ltb_ge in L. lia.
    + rewrite len_append. pose proof (KeyTermFacts.len_take 10000 t).
      change (JS.len "...") with 3. lia.
Qed.

(** ** The upload filter and the file route *)

(** X19.  The upload filter and the file route do not agree on the file
    types.  Of the four types that the filter lets through, a PDF goes to
    the PDF reader and the two Word types (the old [.doc] one too) go to
    the DOCX reader; a plain text file, which the filter lets through, is
    refused by the route with 400 "Unsupported file type".  A file of any
    other type gets from the filter an error that the error middleware
    answers with 500 "Internal server error". *)
Theorem upload_filter_and_file_route
    (pdfParse mammoth : string -> Result (option string))
    (file : UploadedFile) :
  let route := process_file_text pdfParse mammoth (Some file) in
  (fileFilter file = Ok true ->
   (mimetype file = "application/pdf"
    /\ route = after_extraction (extractTextFromPDF pdfParse (buffer file)))
   \/ ((mimetype file
        = "application/vnd.openxmlformats-officedocument.wordprocessingml.document"
        \/ mimetype file = "application/msword")
       /\ route
          = after_extraction (extractTextFromDocx mammoth (buffer file)))
   \/ (mimetype file = "text/plain"
       /\ route = Answer (Failed 400 "Unsupported file type" None)))
  /\ (fileFilter file <> Ok true ->
      exists error,
        fileFilter file = Throw error
        /\ error_middleware (OtherError error)
           = Failed 500 "Internal server error" None).
Proof.
  intros route. unfold fileFilter. split.
  - destruct (existsb (String.eqb (mimetype file)) allowedTypes) eqn:E;
      [|discriminate].
    intros _. unfold allowedTypes in E. cbn [existsb] in E.
    unfold route, process_file_text.
    repeat (apply orb_prop in E; destruct E as [E|E]);
      try discriminate; apply String.eqb_eq in E; rewrite E.
    + left. split; reflexivity.
    + right; left. split; [left; reflexivity | reflexivity].
    + right; left. split; [right; reflexivity | reflexivity].
    + right; right. split; reflexivity.
  - destruct (existsb (String.eqb (mimetype file)) allowedTypes);
      [congruence|].
    intros _. eexists. split; reflexivity.
Qed.

Lemma upload_filter_witness :
  fileFilter plain_file = Ok true
  /\ process_file_text (reads "Cats purr.") (reads "Cats purr.")
       (Some plain_file)
     = Answer (Failed 400 "Unsupported file type" None)
  /\ process_file_text unreadable (reads "Cats purr.") (Some word_file)
     = Generate "Cats purr.".
Proof.
  split; [reflexivity|]. split.
  - destruct (proj1 (upload_filter_and_file_route (reads "Cats purr.")
                       (reads "Cats purr.") plain_file) eq_refl)
      as [[H _]|[[[H|H] _]|[_ H]]]; try discriminate H. exact H.
  - destruct (proj1 (upload_filter_and_file_route unreadable
                       (reads "Cats purr.") word_file) eq_refl)
      as [[H _]|[[_ H]|[H _]]]; try discriminate H. exact H.
Defined.

(** ** Blank texts *)

Lemma drop_while_all (p : ascii -> bool) (s : string) :
  JS.drop_while p s <> EmptyString ->
  exists c, JS.mem c s = true /\ p c = false.
Proof.
  induction s as [|x s IH]; simpl; [congruence|].
  destruct (p x) eqn:Hx.
  - intros H. destruct (IH H) as [c [Hm Hc]]. exists c.
    rewrite Hm, orb_true_r. auto.
  - intros _. exists x. rewrite Ascii.eqb_refl. auto.
Qed.

Lemma blank_iff (text : string) :
  blank (Some text) = true <-> JS.all_chars JS.is_space text = true.
Proof.
  unfold blank, JS.all_chars. split.
  - intros H.
    destruct (JS.drop_while JS.is_space text) as [|c r] eqn:D;
      [reflexivity|].
    assert (Hne : JS.drop_while JS.is_space text <> EmptyString)
      by (rewrite D; discriminate).
    destruct (drop_while_all _ _ Hne) as [c0 [Hm Hc]].
    destruct (trim_not_empty text c0 Hm Hc) as [d [r' Ht]].
    rewrite Ht in H.
    destruct text as [|x text]; [discriminate Hm|].
    discriminate H.
  - destruct (JS.drop_while JS.is_space text) as [|c r] eqn:D;
      [|discriminate].
    intros _. unfold JS.trim, JS.trimStart. rewrite D.
    apply orb_true_r.
Qed.

(** On a string and on a missing field the check of the handler is the
    check of [Routes]. *)
Lemma check_text_string (t : string) :
  check_text (JStr t) = Ok (process_text (Some t)).
Proof.
  unfold check_text, process_text, blank.
  destruct t as [|c t]; [reflexivity|].
  cbn [Val.truthy String.eqb negb JS.len String.length Nat.eqb orb].
  fold (JS.len t).
  change (S (JS.len t)) with (JS.len (String c t)).
  destruct (JS.len (JS.trim (String c t)) =? 0); [reflexivity|].
  destruct (10000 <? JS.len (String c t)); reflexivity.
Qed.

Lemma check_text_missing :
  check_text JUndefined = Ok (process_text None).
Proof. reflexivity. Qed.

(** A value that is no string is refused as empty or makes the check
    throw. *)
Lemma check_text_other (text : JSValue) :
  Val.is_string text = false ->
  check_text text
  = if Val.truthy text
    then Throw (TypeError "text.trim is not a function")
    else Ok (Status400 "Text content is required").
Proof.
  unfold check_text. destruct text; try discriminate; intros _;
    destruct (Val.truthy _); reflexivity.
Qed.

Lemma check_text_accepts (text : JSValue) (given : string) :
  check_text text = Ok (Accepted given) ->
  text = JStr given /\ process_text (Some given) = Accepted given.
Proof.
  intros H. destruct text;
    try (rewrite check_text_other in H by reflexivity;
         destruct (Val.truthy _); discriminate H).
  rewrite check_text_string in H. injection H as H.
  destruct (process_text_accepts (Some s) given H) as [E _].
  injection E as ->. split; [reflexivity | exact H].
Qed.

(** X21.  What the two routes refuse as empty.  [/api/process-text]
    answers 400 "Text content is required" exactly for the values of the
    field that JavaScript takes as false (a missing field, null, false,
    0, the empty string) and for the strings made of white space only;
    any other value that is no string makes the check throw.
    [/api/process-file] answers 400 "No text could be extracted from the
    file" exactly when the extraction gave nothing or a text made of
    white space only. *)
Theorem blank_texts_are_refused (text : JSValue)
    (extracted : option string) :
  (check_text text = Ok (Status400 "Text content is required")
   <-> Val.truthy text = false
       \/ exists t, text = JStr t /\ JS.all_chars JS.is_space t = true)
  /\ (Val.truthy text = true -> Val.is_string text = false ->
      check_text text = Throw (TypeError "text.trim is not a function"))
  /\ (process_file extracted
      = Status400 "No text could be extracted from the file"
      <-> match extracted with
          | None => True
          | Some t => JS.all_chars JS.is_space t = true
          end).
Proof.
  split; [|split].
  - destruct (Val.is_string text) eqn:S.
    + destruct text; try discriminate S.
      rewrite check_text_string. unfold process_text.
      destruct (blank (Some s)) eqn:B.
      * split; [|reflexivity]. intros _. right. exists s.
        split; [reflexivity | apply blank_iff, B].
      * split.
        -- destruct (10000 <? JS.len s); discriminate.
        -- intros [H|[t [E H]]].
           ++ unfold blank in B. apply orb_false_iff in B.
              destruct B as [B _]. destruct s; [discriminate B|].
              discriminate H.
           ++ injection E as <-. apply blank_iff in H. congruence.
    + rewrite check_text_other by exact S.
      destruct (Val.truthy text) eqn:T.
      * split; [discriminate|].
        intros [H|[t [E _]]]; [discriminate H|].
        subst text. discriminate S.
      * split; [auto | reflexivity].
  - intros T S. rewrite check_text_other by exact S. rewrite T. reflexivity.
  - unfold process_file. destruct extracted as [t|].
    + rewrite <- blank_iff. destruct (blank (Some t)).
      * split; reflexivity.
      * split; [|discriminate].
        destruct (10000 <? JS.len t); discriminate.
    + split; auto.
Qed.

(** ** The text route *)

(** Values of the body that are no strings: a number as text makes the
    check throw, a number as level makes the summary operation throw,
    and both are answered 500; a text of 0 is answered 400. *)
Example text_route_on_other_values (w : World) :
  process_text_handler no_keys (JNum (Finite 123)) JUndefined w
  = (Ok (Failed 500 "Failed to process text"
           (Some (TypeError "text.trim is not a function"))), w)
  /\ process_text_handler no_keys (JStr "Cats purr.") (JNum (Finite 5)) w
     = (Ok (Failed 500 "Failed to process text"
              (Some (TypeError "level.replace is not a function"))), w)
  /\ process_text_handler no_keys (JNum (Finite 0)) JUndefined w
     = (Ok (Failed 400 "Text content is required" None), w).
Proof. repeat split; reflexivity. Qed.

(** A level that is no string and is not missing makes the summary
    operation throw. *)
Lemma level_text_throws (level : JSValue) :
  level <> JUndefined -> Val.is_string level = false ->
  exists error, level_text level = Throw error.
Proof.
  intros U S. unfold level_text.
  destruct level; try discriminate S; try congruence;
    destruct (negb (printable _)); eauto.
Qed.

Lemma level_text_returns (level : JSValue) (l : string) :
  level_text level = Ok l ->
  level = JUndefined \/ level = JStr l.
Proof.
  unfold level_text.
  destruct level; try (intros H; injection H as <-; auto);
    destruct (negb (printable _)); discriminate.
Qed.

(** X20.  What [POST /api/process-text] of the multi-provider file
    answers, for any values that the JSON body gives [text] and [level],
    whatever the providers do.  It always answers.  It answers 400
    without a fetch when the text is a value that JavaScript takes as
    false, a blank string or a string longer than 10000 characters.  It
    answers 500 "Failed to process text" without a fetch in two cases
    and in no other: the text is a value other than a string that
    JavaScript takes as true, or the text is accepted and the level is
    there and is no string.  In every other case it answers with the
    data: the text as given, a quiz of one to four entries and one to
    five flashcards, after at most 15 fetches and waits of at most
    3 * 6000 + 4 * 1000 ms in all. *)
Theorem text_route_always_answers (env : Env) (text level : JSValue)
    (w : World) :
  let this := constructor env in
  exists reply w1,
    process_text_handler this text level w = (Ok reply, w1)
    /\ match check_text text with
       | Throw error =>
           reply = Failed 500 "Failed to process text" (Some error)
           /\ w1 = w
       | Ok (Status400 error) => reply = Failed 400 error None /\ w1 = w
       | Ok (Accepted given) =>
           text = JStr given
           /\ match level_text level with
              | Throw error =>
                  reply = Failed 500 "Failed to process text" (Some error)
                  /\ w1 = w
              | Ok l =>
                  exists data evs,
                    reply = Succeeded data
                    /\ originalText data = given
                    /\ textLength data = JS.len given
                    /\ Handlers.level data = l
                    /\ 1 <= length (quiz data) <= 4
                    /\ 1 <= length (flashcards data) <= 5
                    /\ trace w1 = trace w ++ evs
                    /\ length (fetched evs) <= 15
                    /\ list_sum (waits evs) <= 3 * 6000 + 4 * 1000
              end
       end
    /\ ((exists error details, reply = Failed 500 error details)
        <-> (Val.truthy text = true /\ Val.is_string text = false)
            \/ (exists given,
                  check_text text = Ok (Accepted given)
                  /\ level <> JUndefined
                  /\ Val.is_string level = false)).
Proof.
  intros this. unfold process_text_handler, try_catch, bind, lift.
  destruct (check_text text) as [[error|given]|error] eqn:Hcheck.
  - (* refused *)
    exists (Failed 400 error None), w.
    split; [reflexivity|]. split; [split; reflexivity|].
    split.
    + intros [e [d H]]. discriminate H.
    + intros [[T S]|[given [H _]]]; [|discriminate H].
      rewrite check_text_other in Hcheck by exact S.
      rewrite T in Hcheck. discriminate Hcheck.
  - (* accepted *)
    destruct (check_text_accepts text given Hcheck) as [Htext _].
    destruct (level_text level) as [l|error] eqn:Hlevel.
    + destruct (summary_run this given l w)
        as [s [w1 [evs1 [Hs [Ht1 [_ [Hf1 Hw1]]]]]]].
      destruct (quiz_run this given (emit w1 (EvSleep 1000)))
        as [q [w2 [evs2 [Hq [Ht2 [_ [Hf2 [Hw2 [Hlq _]]]]]]]]].
      destruct (flashcards_run this given (emit w2 (EvSleep 1000)))
        as [c [w3 [evs3 [Hc [Ht3 [_ [Hf3 [Hw3 [Hlc _]]]]]]]]].
      eexists. exists w3. split; [|split].
      * unfold sleep, ret. rewrite Hs, Hq, Hc. reflexivity.
      * split; [exact Htext|]. eexists.
        exists (evs1 ++ EvSleep 1000 :: EvSleep 1000 :: evs2
                ++ EvSleep 1000 :: EvSleep 1000 :: evs3).
        split; [reflexivity|]. split; [reflexivity|].
        split; [reflexivity|]. split; [reflexivity|].
        split; [exact Hlq|]. split; [exact Hlc|].
        split.
        -- rewrite Ht3. cbn [emit trace]. rewrite Ht2. cbn [emit trace].
           rewrite Ht1. rewrite <- !app_assoc. reflexivity.
        -- assert (Hd : 3 * requestDelay this = 6000) by reflexivity.
           rewrite fetched_app, waits_app, length_app, list_sum_app.
           cbn [fetched waits]. rewrite fetched_app, waits_app.
           cbn [fetched waits].
           rewrite length_app, !list_sum_cons, list_sum_app, !list_sum_cons.
           lia.
      * split.
        -- intros [e [d H]]. discriminate H.
        -- intros [[T S]|[given' [_ [U S]]]].
           ++ subst text. discriminate S.
           ++ destruct (level_text_returns level l Hlevel) as [E|E];
                [contradiction|]. subst level. discriminate S.
    + exists (Failed 500 "Failed to process text" (Some error)), w.
      split; [reflexivity|]. split; [split; [exact Htext|split; reflexivity]|].
      split; [|eauto].
      intros _. right. exists given. split; [reflexivity|].
      unfold level_text in Hlevel.
      destruct level; try discriminate Hlevel;
        (split; [discriminate | reflexivity]).
  - (* the check throws *)
    exists (Failed 500 "Failed to process text" (Some error)), w.
    split; [reflexivity|]. split; [split; reflexivity|].
    split; [|eauto].
    intros _. left.
    destruct (Val.is_string text) eqn:S.
    + destruct text; try discriminate S.
      rewrite check_text_string in Hcheck. discriminate Hcheck.
    + rewrite check_text_other in Hcheck by exact S.
      destruct (Val.truthy text); [auto | discriminate Hcheck].
Qed.

(** ** The cut of the file route and the prompts *)

Lemma take_app_take (n : nat) :
  forall (m : nat) (t r : string),
    n <= m -> m <= JS.len t ->
    JS.take n (JS.take m t ++ r) = JS.take n t.
Proof.
  unfold JS.len.
  induction n as [|n IH]; intros m t r Hnm Hm.
  - reflexivity.
  - destruct m as [|m]; [lia|].
    destruct t as [|c t]; [simpl in Hm; lia|].
    simpl in Hm. cbn [JS.take append]. rewrite IH by lia. reflexivity.
Qed.

(** X22.  The cut of the file route never reaches a provider: the three
    prompts made from the text that [/api/process-file] goes on with are
    the prompts made from the extracted text, cut or not, since a prompt
    holds at most the first 3000 characters.  The ellipsis that the
    route adds shows only in the heuristic results and in the text sent
    back. *)
Theorem file_cut_never_reaches_a_provider (extracted text level : string) :
  process_file (Some extracted) = Accepted text ->
  summary_prompt text level = summary_prompt extracted level
  /\ quiz_prompt text = quiz_prompt extracted
  /\ flashcard_prompt text = flashcard_prompt extracted.
Proof.
  intros H.
  destruct (process_file_accepts (Some extracted) text H)
    as [e [He [_ Hcut]]].
  injection He as <-.
  destruct Hcut as [->|[Hlong ->]]; [repeat split; reflexivity|].
  assert (H3 : 3000 <= 10000) by (apply Nat.leb_le; vm_compute; reflexivity).
  assert (H25 : 2500 <= 10000)
    by (apply Nat.leb_le; vm_compute; reflexivity).
  unfold summary_prompt, quiz_prompt, flashcard_prompt.
  rewrite !take_app_take by lia. repeat split; reflexivity.
Qed.

Lemma file_cut_witness :
  quiz_prompt (JS.take 10000 (letters 10001) ++ "...")
  = quiz_prompt (letters 10001).
Proof.
  apply (file_cut_never_reaches_a_provider (letters 10001)
           (JS.take 10000 (letters 10001) ++ "...") "college").
  vm_compute. reflexivity.
Defined.

End HandlerFacts.

(** * The authentication middleware *)

Module RouterFacts.
Import Router.
Import Scenarios.
Import CleaningFacts.

Lemma split_from_piece (sep : ascii) (piece : string) :
  JS.mem sep piece = false ->
  forall cur rest,
    split_from sep cur (piece ++ String sep rest)
    = (JS.rev cur ++ piece)%string :: split_from sep EmptyString rest.
Proof.
  induction piece as [|x piece IH]; intros Hm cur rest.
  - cbn [append split_from]. rewrite Ascii.eqb_refl, append_nil_r.
    reflexivity.
  - simpl in Hm. apply orb_false_iff in Hm. destruct Hm as [Hx Hm].
    cbn [append split_from]. rewrite Hx, (IH Hm), rev_String, append_assoc.
    reflexivity.
Qed.

Lemma split_from_last (sep : ascii) (piece : string) :
  JS.mem sep piece = false ->
  forall cur, split_from sep cur piece = [(JS.rev cur ++ piece)%string].
Proof.
  induction piece as [|x piece IH]; intros Hm cur.
  - cbn [split_from]. rewrite append_nil_r. reflexivity.
  - simpl in Hm. apply orb_false_iff in Hm. destruct Hm as [Hx Hm].
    cbn [split_from]. rewrite Hx, (IH Hm), rev_String, append_assoc.
    reflexivity.
Qed.

Lemma not_empty_with_space (a b : string) :
  String.eqb (a ++ String " " b) EmptyString = false.
Proof. destruct a; reflexivity. Qed.

(** X23.  The middleware reads the token between the first and the
    second space of the [Authorization] header and does not look at
    what stands before the first space: any scheme word, or none, does
    as well as [Bearer].  What follows a second space is dropped.  A
    header without a space gives no token to check; a missing or empty
    header is answered 401 "No token" without a check.  The handler
    behind the middleware is reached only with what the check of that
    token returned. *)
Theorem auth_reads_the_second_piece {Payload : Type}
    (verify : option string -> Result Payload)
    (scheme token rest : string) :
  JS.mem " " scheme = false ->
  JS.mem " " token = false ->
  auth verify (Some (scheme ++ " " ++ token))
  = verified (verify (Some token))
  /\ auth verify (Some (scheme ++ " " ++ token ++ " " ++ rest))
     = verified (verify (Some token))
  /\ (scheme <> EmptyString ->
      auth verify (Some scheme) = verified (verify None))
  /\ auth verify None = Unauthorized "No token"
  /\ auth verify (Some EmptyString) = Unauthorized "No token".
Proof.
  intros Hs Ht. unfold auth, verified, split.
  split; [|split; [|split; [|split]]].
  - change (scheme ++ " " ++ token)%string
      with (scheme ++ String " " token)%string.
    rewrite not_empty_with_space, split_from_piece by exact Hs.
    rewrite split_from_last by exact Ht. reflexivity.
  - change (scheme ++ " " ++ token ++ " " ++ rest)%string
      with (scheme ++ String " " (token ++ String " " rest))%string.
    rewrite not_empty_with_space, split_from_piece by exact Hs.
    rewrite split_from_piece by exact Ht. reflexivity.
  - intros Hne.
    destruct (String.eqb_spec scheme EmptyString) as [E|_];
      [contradiction|].
    rewrite split_from_last by exact Hs. reflexivity.
  - reflexivity.
  - reflexivity.
Qed.

Lemma auth_witness :
  auth only_secret (Some "Basic secret") = Next 7
  /\ auth only_secret (Some "Bearer  secret") = Unauthorized "Invalid token".
Proof.
  split; [|reflexivity].
  exact (proj1 (auth_reads_the_second_piece only_secret "Basic" "secret"
                  EmptyString eq_refl eq_refl)).
Defined.

End RouterFacts.
